(** * Local scheduler: a shallow embedding of [config.ts], [scheduler.ts]
    and of the multi-endpoint [LocalScheduler] class.

    Definitions come first:
    - [JS]: the pieces of the ECMAScript runtime the program relies on
      (binary64 numbers, [parseInt], number formatting, truthiness);
    - [Effects]: the effect model (console, HTTP, process exit,
      exceptions) as a state, exception and trace monad;
    - [Config] and [Scheduler]: the single-endpoint variant;
    - [Multi]: the query/cleanup/output variant, its three trigger
      methods and the [start]/[stop] life cycle on an event loop;
    - [Samples] and [Cases]: concrete inputs;
    - [Accounting]: what is counted over whole runs.
    The properties follow in [JSFacts], [FloatFacts], [NumberFacts],
    [RoundingFacts], [EffectsFacts], [SchedulerFacts], [ConfigFacts]
    and [MultiFacts], and over whole runs in [ServiceFacts] and
    [ClassFacts]. *)

From Stdlib Require Import ZArith QArith Qpower Qround SpecFloat Lia Lqa Bool Ascii.
From stdpp Require Import base gmap strings list.

Local Open Scope Z_scope.

(** ** The ECMAScript runtime *)
Module JS.

(** A JS [number] is an IEEE-754 binary64 value.  [spec_float] at
    precision 53 and maximal exponent 1024 is exactly that format. *)
Definition number : Type := spec_float.
Definition prec : Z := 53.
Definition emax : Z := 1024.

Definition NaN : number := S754_nan.

(** The number nearest to an integer (𝔽 of the specification):
    round to nearest, ties to even, overflow to infinity. *)
Definition of_Z (z : Z) : number := binary_normalize prec emax z 0 false.

Definition div (x y : number) : number := SFdiv prec emax x y.
Definition mul (x y : number) : number := SFmul prec emax x y.
Definition ltb (x y : number) : bool := SFltb x y.

(** [ToBoolean] on a number: [0], [-0] and [NaN] are falsy. *)
Definition truthy_number (x : number) : bool :=
  match x with
  | S754_zero _ | S754_nan => false
  | _ => true
  end.

(** [ToBoolean] on a string: only the empty string is falsy. *)
Definition truthy_string (s : string) : bool :=
  match s with
  | EmptyString => false
  | String _ _ => true
  end.

(** [v || d] where [v : string | undefined]. *)
Definition or_string (v : option string) (d : string) : string :=
  match v with
  | Some s => if truthy_string s then s else d
  | None => d
  end.

(** The value [m * 2^e]. *)
Definition dyadic (m e : Z) : Q := (inject_Z m * Qpower 2 e)%Q.

(** The exact rational value of a finite number. *)
Definition to_Q (x : number) : Q :=
  match x with
  | S754_finite s m e =>
      let q := (inject_Z (Z.pos m) * Qpower 2 e)%Q in
      if s then Qopp q else q
  | _ => 0%Q
  end.

(** [x] is an integer. *)
Definition is_integer (x : number) : bool :=
  match x with
  | S754_zero _ => true
  | S754_finite _ m e => (0 <=? e) || (Z.pos m mod 2 ^ (- e) =? 0)
  | _ => false
  end.

(** [x > 0] *)
Definition is_positive (x : number) : bool := ltb (S754_zero false) x.

(** *** [parseInt] *)

(** The white space and line terminators of one byte: TAB, LF, VT, FF,
    CR and the space. *)
Definition is_white_space (c : ascii) : bool :=
  let n := Z.of_N (N_of_ascii c) in
  ((9 <=? n) && (n <=? 13)) || (n =? 32).

(** The byte a character is. *)
Definition char_code (c : ascii) : Z := Z.of_N (N_of_ascii c).

(** U+00A0 in UTF-8. *)
Definition is_no_break_space (c1 c2 : ascii) : bool :=
  (char_code c1 =? 194) && (char_code c2 =? 160).

(** The white space and line terminators of three bytes in UTF-8:
    U+1680, U+2000 to U+200A, U+2028, U+2029, U+202F, U+205F, U+3000
    and U+FEFF. *)
Definition is_wide_space (c1 c2 c3 : ascii) : bool :=
  let '(b1, b2, b3) := (char_code c1, char_code c2, char_code c3) in
  ((b1 =? 225) && (b2 =? 154) && (b3 =? 128))
  || ((b1 =? 226) && (b2 =? 128)
      && (((128 <=? b3) && (b3 <=? 138)) || (b3 =? 168) || (b3 =? 169)
          || (b3 =? 175)))
  || ((b1 =? 226) && (b2 =? 129) && (b3 =? 159))
  || ((b1 =? 227) && (b2 =? 128) && (b3 =? 128))
  || ((b1 =? 239) && (b2 =? 187) && (b3 =? 191)).

(** Drops the leading white space and line terminators ([StrWhiteSpaceChar]). *)
Fixpoint trim_start (s : string) : string :=
  match s with
  | String c1 s1 =>
      if is_white_space c1 then trim_start s1
      else
        match s1 with
        | String c2 s2 =>
            if is_no_break_space c1 c2 then trim_start s2
            else
              match s2 with
              | String c3 s3 =>
                  if is_wide_space c1 c2 c3 then trim_start s3 else s
              | EmptyString => s
              end
        | EmptyString => s
        end
  | EmptyString => s
  end.

(** Value of a character as a digit, in any radix up to 36. *)
Definition digit_value (c : ascii) : option Z :=
  let n := Z.of_N (N_of_ascii c) in
  if (48 <=? n) && (n <=? 57) then Some (n - 48)
  else if (97 <=? n) && (n <=? 122) then Some (n - 87)
  else if (65 <=? n) && (n <=? 90) then Some (n - 55)
  else None.

(** Reads the longest prefix of radix-[R] digits; [acc] is [None] as
    long as no digit has been read. *)
Fixpoint read_digits (R : Z) (s : string) (acc : option Z) : option Z :=
  match s with
  | String c s' =>
      match digit_value c with
      | Some d =>
          if d <? R then read_digits R s' (Some (default 0 acc * R + d))
          else acc
      | None => acc
      end
  | EmptyString => acc
  end.

Definition strip_hex_prefix (s : string) : option string :=
  match s with
  | String "0"%char (String "x"%char s')
  | String "0"%char (String "X"%char s') => Some s'
  | _ => None
  end.

(** [parseInt(s, radix)]; [radix = None] is a call with one argument.
    Strings are sequences of bytes: ASCII characters stand for
    themselves, and the white space that ECMAScript knows outside ASCII
    is recognised in its UTF-8 encoding.  The integer read is converted
    to the nearest number. *)
Definition parseInt (s : string) (radix : option Z) : number :=
  let inputString := trim_start s in
  let '(neg, rest) :=
    match inputString with
    | String "-"%char s' => (true, s')
    | String "+"%char s' => (false, s')
    | _ => (false, inputString)
    end in
  let R := default 0 radix in
  if negb (R =? 0) && ((R <? 2) || (36 <? R)) then NaN
  else
    let stripPrefix := (R =? 0) || (R =? 16) in
    let R := if R =? 0 then 10 else R in
    let '(R, rest) :=
      match (if stripPrefix then strip_hex_prefix rest else None) with
      | Some s' => (16, s')
      | None => (R, rest)
      end in
    match read_digits R rest None with
    | None => NaN
    | Some 0 => S754_zero neg
    | Some mathInt => of_Z (if neg then - mathInt else mathInt)
    end.

(** *** Decimal output *)

Definition digit_char (d : Z) : ascii := ascii_of_N (Z.to_N (48 + d)).

Fixpoint digits_fuel (fuel : nat) (n : Z) (acc : string) : string :=
  match fuel with
  | O => acc
  | S fuel' =>
      let acc' := String (digit_char (n mod 10)) acc in
      if n <? 10 then acc' else digits_fuel fuel' (n / 10) acc'
  end.

(** Decimal digits of a non-negative integer. *)
Definition digits (n : Z) : string :=
  digits_fuel (S (Z.to_nat (Z.log2 n))) n EmptyString.

Fixpoint zeros (n : nat) : string :=
  match n with
  | O => EmptyString
  | S n' => String "0"%char (zeros n')
  end.

Definition pow10 (j : Z) : Q := Qpower 10 j.

(** [rounds_to c m e]: the positive real [c] rounds (to nearest, ties
    to even) to the number with canonical mantissa [m] and exponent
    [e], that is, [c] lies between the midpoints to the neighbouring
    numbers.  The neighbour above is [2^e] away; the one below is [2^e]
    away, or [2^(e-1)] when [m] is the first mantissa of a binade. *)
Definition rounds_to (c : Q) (m : positive) (e : Z) : bool :=
  let v := (inject_Z (Z.pos m) * Qpower 2 e)%Q in
  let half_gap_below :=
    if (Z.pos m =? 2 ^ (prec - 1)) && (3 - emax - prec <? e)
    then Qpower 2 (e - 2) else Qpower 2 (e - 1) in
  let lo := (v - half_gap_below)%Q in
  let hi := (v + Qpower 2 (e - 1))%Q in
  match Qcompare lo c, Qcompare c hi with
  | Lt, Lt => true
  | Eq, _ | _, Eq => Z.even (Z.pos m)
  | _, _ => false
  end.

(** The decimal exponent [n] of a positive real: [10^(n-1) <= v < 10^n]. *)
Fixpoint decimal_exponent_from (fuel : nat) (v : Q) (n : Z) : Z :=
  match fuel with
  | O => n
  | S fuel' =>
      if Qle_bool (pow10 n) v then decimal_exponent_from fuel' v (n + 1)
      else n
  end.

Definition decimal_exponent (m : positive) (e : Z) : Z :=
  let v := (inject_Z (Z.pos m) * Qpower 2 e)%Q in
  decimal_exponent_from 4 v (((Z.log2 (Z.pos m) + e) * 30103) / 100000 - 1).

(** The [k]-digit candidates [s] with [s * 10^(n-k)] next to [v]; the
    one that rounds to [v] and is nearest to it, if any. *)
Definition shortest_at (m : positive) (e : Z) (n k : Z) : option (Z * Z) :=
  let v := (inject_Z (Z.pos m) * Qpower 2 e)%Q in
  let scale := pow10 (n - k) in
  let s_lo := Qfloor (v / scale)%Q in
  let s_hi := s_lo + 1 in
  let ok s := rounds_to (inject_Z s * scale)%Q m e in
  let pick s := if s =? 10 ^ k then Some (n + 1, s / 10) else Some (n, s) in
  match ok s_lo, ok s_hi with
  | true, true =>
      match Qcompare (v - inject_Z s_lo * scale)%Q (inject_Z s_hi * scale - v)%Q with
      | Lt => pick s_lo
      | Gt => pick s_hi
      | Eq => pick (if Z.even s_lo then s_lo else s_hi)
      end
  | true, false => pick s_lo
  | false, true => pick s_hi
  | false, false => None
  end.

Fixpoint shortest_from (fuel : nat) (m : positive) (e : Z) (n k : Z)
  : Z * Z * Z :=
  match fuel with
  | O => (n, k, Qfloor (inject_Z (Z.pos m) * Qpower 2 e / pow10 (n - k))%Q)
  | S fuel' =>
      match shortest_at m e n k with
      | Some (n', s) => (n', k, s)
      | None => shortest_from fuel' m e n (k + 1)
      end
  end.

(** [Number::toString(x)] in radix 10, the conversion used by template
    literals: the shortest digit string [s] of length [k] with
    [s * 10^(n-k)] rounding back to [x]. *)
Definition Number_toString (x : number) : string :=
  match x with
  | S754_nan => "NaN"
  | S754_zero _ => "0"
  | S754_infinity s => if s then "-Infinity" else "Infinity"
  | S754_finite sgn m e =>
      let '(n, k, s) := shortest_from 17 m e (decimal_exponent m e) 1 in
      let ds := digits s in
      let body :=
        if (k <=? n) && (n <=? 21) then ds +:+ zeros (Z.to_nat (n - k))
        else if (0 <? n) && (n <=? 21) then
          String.substring 0 (Z.to_nat n) ds +:+ "." +:+
          String.substring (Z.to_nat n) (Z.to_nat (k - n)) ds
        else if (-6 <? n) && (n <=? 0) then
          "0." +:+ zeros (Z.to_nat (- n)) +:+ ds
        else
          let ex := (if n - 1 <? 0 then "-" else "+") +:+ digits (Z.abs (n - 1)) in
          if k =? 1 then ds +:+ "e" +:+ ex
          else String.substring 0 1 ds +:+ "." +:+
               String.substring 1 (Z.to_nat (k - 1)) ds +:+ "e" +:+ ex
      in
      if sgn then "-" +:+ body else body
  end.

(** The integer [n] for which [n / 10 - x] is as close to zero as
    possible, the larger one if there are two. *)
Definition nearest_tenths (x : Q) : Z := Qfloor (x * 10 + (1 # 2))%Q.

(** One decimal place of [n] tenths. *)
Definition tenths_text (n : Z) : string :=
  digits (n / 10) +:+ "." +:+ digits (n mod 10).

(** [x.toFixed(1)]. *)
Definition toFixed1 (x : number) : string :=
  match x with
  | S754_finite sgn m e =>
      let q := (inject_Z (Z.pos m) * Qpower 2 e)%Q in
      if Qle_bool (pow10 21) q then Number_toString x
      else
        let n := nearest_tenths q in
        let body := digits (n / 10) +:+ "." +:+ digits (n mod 10) in
        if sgn then "-" +:+ body else body
  | S754_zero _ => "0.0"
  | _ => Number_toString x
  end.

End JS.

(** ** Effects: console, HTTP, process exit and exceptions *)
Module Effects.
Import JS.

(** A value produced by [JSON.parse]. *)
#[warnings="-register-all"]
Inductive json :=
| JNull
| JBool (b : bool)
| JNum (x : number)
| JStr (s : string)
| JArr (items : list json)
| JObj (fields : list (string * json)).

(** A thrown value.  Everything the runtime throws in this program is
    an [Error]; it is represented by its [message]. *)
Definition js_error : Type := string.

(** The outcome of awaiting a promise. *)
Inductive settled (A : Type) :=
| Fulfilled (a : A)
| Rejected (e : js_error).
Arguments Fulfilled {A} a.
Arguments Rejected {A} e.

(** What the program can observe of a [Response]: its status line and
    what reading the body with [json()] or with [text()] gives. *)
Record response := {
  status : Z;
  statusText : string;
  json_body : settled json;
  text_body : settled string
}.

(** [response.ok] *)
Definition ok (r : response) : bool := (200 <=? status r) && (status r <=? 299).

Definition fetch_result : Type := settled response.

Inductive endpoint := Queries | Cleanups | Outputs.

(** The console reports, one constructor per report of the source;
    decoration is left out. *)
Inductive message :=
(* config.ts *)
| MsgSecretRequired
| MsgWarnHighLoad
| MsgWarnShortInterval
(* scheduler.ts *)
| MsgBanner
| MsgConfiguration (interval : number) (endpointUrl secretPrefix : string)
| MsgStarted (interval : number)
| MsgTriggering (endpointUrl : string) (time : Z)
| MsgTriggerSuccessful (duration : Z) (result : json)
| MsgTriggerFailed (status : Z) (statusText : string) (duration : Z)
                   (errorText : string)
| MsgRequestError (duration : Z) (error : js_error)
| MsgStatistics (total successful failed : Z) (rate : string)
| MsgFatal (error : js_error)
(* the LocalScheduler class *)
| MsgAlreadyRunning
| MsgStarting (checkInterval : number) (symposiumUrl : string)
| MsgNotRunning
| MsgStopped
| MsgChecking
| MsgHttpError (ep : endpoint) (status : Z) (statusText : string)
| MsgExecuted (ep : endpoint) (executedCount : json)
| MsgItem (ep : endpoint) (success : bool) (name id counter : option json)
| MsgItemError (error : json)
| MsgNothingDue (ep : endpoint)
| MsgEnvelopeError (ep : endpoint) (error : option json)
| MsgFailedToTrigger (ep : endpoint) (error : js_error).

Inductive level := Log | Warn | Error.

Inductive event :=
| HttpPost (url : string) (headers : list (string * string))
           (body : option string)
| Console (l : level) (m : message)
| SetInterval (delay : number).

Definition is_http (e : event) : bool :=
  match e with HttpPost _ _ _ => true | _ => false end.

(** The HTTP calls of a trace, in order. *)
Definition http_calls (t : list event) : list event := List.filter is_http t.

(** How a piece of code ends: normally, by a thrown exception, or
    because the process exited ([Deno.exit]). *)
Inductive completion (A : Type) :=
| Normal (a : A)
| Throw (e : js_error)
| Exit (code : Z).
Arguments Normal {A} a.
Arguments Throw {A} e.
Arguments Exit {A} code.

(** A computation over a mutable state [S]: it returns how it ended,
    the state it left (assignments made before a [throw] stay made)
    and the events it emitted. *)
Definition M (S A : Type) : Type := S → completion A * S * list event.

#[global] Instance M_ret {S} : MRet (M S) :=
  λ A a s, (Normal a, s, []).

#[global] Instance M_bind {S} : MBind (M S) :=
  λ A B f m s,
    match m s with
    | (Normal a, s', t) => let '(c, s'', t') := f a s' in (c, s'', t ++ t')
    | (Throw e, s', t) => (Throw e, s', t)
    | (Exit code, s', t) => (Exit code, s', t)
    end.

#[global] Instance M_throw {S} : MThrow js_error (M S) :=
  λ A e s, (Throw e, s, []).

(** [try { m } catch (e) { h e }] *)
Definition try_catch {S A} (m : M S A) (h : js_error → M S A) : M S A :=
  λ s,
    match m s with
    | (Throw e, s', t) => let '(c, s'', t') := h e s' in (c, s'', t ++ t')
    | r => r
    end.

Definition emit {S} (e : event) : M S () := λ s, (Normal (), s, [e]).
Definition console {S} (l : level) (m : message) : M S () := emit (Console l m).
Definition get {S} : M S S := λ s, (Normal s, s, []).
Definition modify {S} (f : S → S) : M S () := λ s, (Normal (), f s, []).
Definition exit {S A} (code : Z) : M S A := λ s, (Exit code, s, []).

(** [await p] *)
Definition await {S A} (p : settled A) : M S A :=
  match p with
  | Fulfilled a => mret a
  | Rejected e => mthrow e
  end.

(** [await fetch(url, {method: 'POST', headers, body})]: the request
    is issued, then the promise settles as the network decides. *)
Definition fetch {S} (url : string) (headers : list (string * string))
    (body : option string) (net : fetch_result) : M S response :=
  emit (HttpPost url headers body) ;; await net.

(** A computation that leaves the state alone, makes no HTTP request
    and does not exit: it reports on the console and returns or throws. *)
Definition quiet {S A} (m : M S A) : Prop :=
  ∀ s, ∃ c t, m s = (c, s, t) ∧ http_calls t = [] ∧ ∀ code, c ≠ Exit code.

(** Runs the monad's plumbing on the goal. *)
Ltac run_M :=
  cbv beta iota zeta delta
    [mbind M_bind mret M_ret mthrow M_throw modify console emit try_catch
     fetch await get exit];
  cbn [app json_body text_body status statusText].

End Effects.

(** ** config.ts *)
Module Config.
Import JS Effects.

Record SchedulerConfig := {
  interval : number;
  schedulerSecret : string;
  appUrl : string;
  appPort : option number
}.

(** The process environment; [Deno.env.get k] is [env !! k]. *)
Abbreviation environment := (gmap string string).

Definition loadConfig {S} (env : environment) : M S SchedulerConfig :=
  let interval := parseInt (or_string (env !! "SCHEDULER_INTERVAL") "30000") (Some 10) in
  let schedulerSecret := or_string (env !! "SCHEDULER_SECRET") "" in
  let appUrl := or_string (env !! "APP_URL") "http://localhost" in
  let appPort :=
    match env !! "APP_PORT" with
    | Some p => if truthy_string p then Some (parseInt p (Some 10)) else None
    | None => None
    end in
  (if negb (truthy_string schedulerSecret) then
     console Error MsgSecretRequired ;;
     exit 1
   else mret ()) ;;
  mret {| interval := interval; schedulerSecret := schedulerSecret;
          appUrl := appUrl; appPort := appPort |}.

Definition buildEndpointUrl (config : SchedulerConfig) : string :=
  let base :=
    match appPort config with
    | Some port =>
        if truthy_number port
        then appUrl config +:+ ":" +:+ Number_toString port
        else appUrl config
    | None => appUrl config
    end in
  base +:+ "/api/scheduler/trigger".

Definition validateConfig {S} (config : SchedulerConfig) : M S () :=
  (if ltb (interval config) (of_Z 1000)
   then console Warn MsgWarnHighLoad else mret ()) ;;
  (if ltb (interval config) (of_Z 5000)
   then console Warn MsgWarnShortInterval else mret ()).

End Config.

(** ** scheduler.ts: the single-endpoint trigger loop *)
Module Scheduler.
Import JS Effects Config.

Inductive trigger_status := success | failed.

(** The module-level statistics.  The counters are JS numbers that
    only ever hold integers; they are exact below [2^53]. *)
Record statistics := {
  totalTriggers : Z;
  successfulTriggers : Z;
  failedTriggers : Z;
  lastTriggerTime : option Z;
  lastStatus : option trigger_status
}.

Definition initial : statistics :=
  {| totalTriggers := 0; successfulTriggers := 0; failedTriggers := 0;
     lastTriggerTime := None; lastStatus := None |}.

(** What one invocation meets: the clock when it starts, the clock
    when the request has settled, and how the request settles. *)
Record attempt := {
  started : Z;
  finished : Z;
  outcome : fetch_result
}.

Definition begin_trigger (now : Z) (st : statistics) : statistics :=
  {| totalTriggers := totalTriggers st + 1;
     successfulTriggers := successfulTriggers st;
     failedTriggers := failedTriggers st;
     lastTriggerTime := Some now;
     lastStatus := lastStatus st |}.

Definition count_success (st : statistics) : statistics :=
  {| totalTriggers := totalTriggers st;
     successfulTriggers := successfulTriggers st + 1;
     failedTriggers := failedTriggers st;
     lastTriggerTime := lastTriggerTime st;
     lastStatus := Some success |}.

Definition count_failure (st : statistics) : statistics :=
  {| totalTriggers := totalTriggers st;
     successfulTriggers := successfulTriggers st;
     failedTriggers := failedTriggers st + 1;
     lastTriggerTime := lastTriggerTime st;
     lastStatus := Some failed |}.

(** [(successfulTriggers / totalTriggers) * 100] *)
Definition percentage (st : statistics) : number :=
  mul (div (of_Z (successfulTriggers st)) (of_Z (totalTriggers st))) (of_Z 100).

(** Bounds, far from tight, on the quotient and on the percentage of
    counters with [successfulTriggers <= totalTriggers < 2^53]. *)
Definition quotient_bound : Q := (Qpower 2 52 + 3)%Q.
Definition percentage_bound : Q := (300 * quotient_bound + 1)%Q.

(** The text after [Success Rate:], without the percent sign:
    [totalTriggers > 0 ? (...).toFixed(1) : 0]. *)
Definition success_rate (st : statistics) : string :=
  if 0 <? totalTriggers st then toFixed1 (percentage st)
  else Number_toString (of_Z 0).

Definition print_statistics : M statistics () :=
  st ← get ;
  console Log (MsgStatistics (totalTriggers st) (successfulTriggers st)
                             (failedTriggers st) (success_rate st)).

Definition request_headers (secret : string) : list (string * string) :=
  [("Content-Type", "application/json"); ("X-Scheduler-Secret", secret)].

Definition triggerScheduler (endpointUrl secret : string) (a : attempt)
  : M statistics () :=
  let startTime := started a in
  modify (begin_trigger (started a)) ;;
  console Log (MsgTriggering endpointUrl (started a)) ;;
  try_catch
    (response ← fetch endpointUrl (request_headers secret) (Some "{}") (outcome a) ;
     let duration := finished a - startTime in
     if ok response then
       result ← await (json_body response) ;
       modify count_success ;;
       console Log (MsgTriggerSuccessful duration result)
     else
       modify count_failure ;;
       errorText ← await (text_body response) ;
       console Error (MsgTriggerFailed (status response) (statusText response)
                                       duration errorText))
    (λ error,
       let duration := finished a - startTime in
       modify count_failure ;;
       console Error (MsgRequestError duration error)) ;;
  print_statistics.

(** [main].  It returns once the repeating timer is armed; the value
    it yields here is the callback it has registered with
    [setInterval]. *)
Definition main (env : environment) (first : attempt)
  : M statistics (attempt → M statistics ()) :=
  console Log MsgBanner ;;
  config ← loadConfig env ;
  let endpointUrl := buildEndpointUrl config in
  validateConfig config ;;
  console Log (MsgConfiguration (interval config) endpointUrl
                 (String.substring 0 10 (schedulerSecret config))) ;;
  console Log (MsgStarted (interval config)) ;;
  triggerScheduler endpointUrl (schedulerSecret config) first ;;
  emit (SetInterval (interval config)) ;;
  mret (λ a, triggerScheduler endpointUrl (schedulerSecret config) a).

(** [main().catch(error => { console.error(...); Deno.exit(1) })] *)
Definition start_service (env : environment) (first : attempt)
  : M statistics (attempt → M statistics ()) :=
  try_catch (main env first)
    (λ error, console Error (MsgFatal error) ;; exit 1).

(** The timer fires once per given attempt, one tick after the other. *)
Fixpoint ticks (callback : attempt → M statistics ()) (l : list attempt)
  : M statistics () :=
  match l with
  | [] => mret ()
  | a :: l' => callback a ;; ticks callback l'
  end.

(** The whole run: start-up, then the timer ticks. *)
Definition service (env : environment) (first : attempt) (rest : list attempt)
  : M statistics () :=
  callback ← start_service env first ;
  ticks callback rest.

(** The statistics invariant. *)
Definition balanced (st : statistics) : Prop :=
  totalTriggers st = successfulTriggers st + failedTriggers st.

(** Every way one invocation can go, with the statistics it leaves. *)
Inductive trigger_case (a : attempt) (st st' : statistics) : Prop :=
| case_success r v :
    outcome a = Fulfilled r → ok r = true → json_body r = Fulfilled v →
    st' = count_success (begin_trigger (started a) st) →
    trigger_case a st st'
| case_bad_body r e :
    outcome a = Fulfilled r → ok r = true → json_body r = Rejected e →
    st' = count_failure (begin_trigger (started a) st) →
    trigger_case a st st'
| case_http_failure r x :
    outcome a = Fulfilled r → ok r = false → text_body r = Fulfilled x →
    st' = count_failure (begin_trigger (started a) st) →
    trigger_case a st st'
| case_http_failure_body_lost r e :
    outcome a = Fulfilled r → ok r = false → text_body r = Rejected e →
    st' = count_failure (count_failure (begin_trigger (started a) st)) →
    trigger_case a st st'
| case_request_error e :
    outcome a = Rejected e →
    st' = count_failure (begin_trigger (started a) st) →
    trigger_case a st st'.

End Scheduler.

(** ** The multi-endpoint variant: the [LocalScheduler] class *)
Module Multi.
Import JS Effects.

Record SchedulerConfig := {
  symposiumUrl : string;
  checkInterval : number;
  authToken : option string
}.

(** [getEnv key] reads [process.env] or [Deno.env], whichever runtime
    is there; both are the process environment [env]. *)
Definition loadConfig (env : gmap string string) : SchedulerConfig :=
  {| symposiumUrl := or_string (env !! "SYMPOSIUM_URL") "http://localhost:80";
     checkInterval := parseInt (or_string (env !! "CHECK_INTERVAL_MS") "60000") None;
     authToken := env !! "AUTH_TOKEN" |}.

(** A JS value read out of a parsed body: a JSON value or [undefined]. *)
Definition value : Type := option json.

(** [ToBoolean] *)
Definition truthy (v : value) : bool :=
  match v with
  | None | Some JNull => false
  | Some (JBool b) => b
  | Some (JNum x) => truthy_number x
  | Some (JStr s) => truthy_string s
  | Some (JArr _) | Some (JObj _) => true
  end.

Fixpoint own_property (k : string) (fields : list (string * json)) : value :=
  match fields with
  | [] => None
  | (k', v) :: fields' => if String.eqb k k' then Some v else own_property k fields'
  end.

(** The messages of the [TypeError]s the runtime throws.  Their
    wording belongs to the engine; the program only passes it on to
    its failure report. *)
Class Engine := {
  (** reading the property [k] of [v], which is [null] or [undefined] *)
  cannot_read : value → string → js_error;
  (** calling [callee], the text of an expression whose value is not
      a function *)
  not_a_function : string → js_error
}.

(** [v.k] for the property names the class reads ([success], [data],
    [executed_count], [results], [error], the item fields): a
    [TypeError] on [null] and [undefined], [undefined] on a primitive
    or an array. *)
Definition get_prop {S} `{Engine} (v : value) (k : string) : M S value :=
  match v with
  | None | Some JNull => mthrow (cannot_read v k)
  | Some (JObj fields) => mret (own_property k fields)
  | Some _ => mret None
  end.

(** [v?.k] *)
Definition get_prop_opt {S} `{Engine} (v : value) (k : string) : M S value :=
  match v with
  | None | Some JNull => mret None
  | _ => get_prop v k
  end.

Definition path (ep : endpoint) : string :=
  match ep with
  | Queries => "/api/scheduler/trigger"
  | Cleanups => "/api/scheduler/trigger-cleanups"
  | Outputs => "/api/scheduler/trigger-outputs"
  end.

(** The item fields each of the three methods reports. *)
Definition name_field (ep : endpoint) : string :=
  match ep with
  | Queries => "query_name" | Cleanups => "cleanup_name" | Outputs => "output_name"
  end.
Definition id_field (ep : endpoint) : string :=
  match ep with
  | Queries => "query_id" | Cleanups => "cleanup_id" | Outputs => "output_id"
  end.
Definition counter_field (ep : endpoint) : option string :=
  match ep with
  | Queries => None | Cleanups => Some "deleted_count" | Outputs => Some "sent_count"
  end.

Definition url_of (config : SchedulerConfig) (ep : endpoint) : string :=
  symposiumUrl config +:+ path ep.

Definition headers_of (config : SchedulerConfig) : list (string * string) :=
  match authToken config with
  | Some token =>
      if truthy_string token then [("Authorization", "Bearer " +:+ token)] else []
  | None => []
  end.

Section Class.
(** [v > 0] for a JSON string, array or object [v]: the runtime
    converts [v] to a primitive, then to a number.  That conversion is
    a parameter of the model. *)
Variable coerced_gt_zero : json → bool.
Context {engine : Engine}.

(** [v > 0] *)
Definition gt_zero (v : json) : bool :=
  match v with
  | JNum x => ltb (of_Z 0) x
  | JBool b => b
  | JNull => false
  | _ => coerced_gt_zero v
  end.

(** The callback given to [results.forEach]. *)
Definition report_item {S} (ep : endpoint) (result : json) : M S () :=
  ok_flag ← get_prop (Some result) "success" ;
  name ← get_prop (Some result) (name_field ep) ;
  id ← get_prop (Some result) (id_field ep) ;
  counter ← match counter_field ep with
            | Some f => get_prop (Some result) f
            | None => mret None
            end ;
  console Log (MsgItem ep (truthy ok_flag) name id counter) ;;
  error ← get_prop (Some result) "error" ;
  match error with
  | Some e => if truthy error then console Log (MsgItemError e) else mret ()
  | None => mret ()
  end.

Fixpoint forEach {S} (f : json → M S ()) (items : list json) : M S () :=
  match items with
  | [] => mret ()
  | x :: items' => f x ;; forEach f items'
  end.

(** The body of the [try] block from the response on. *)
Definition process_response {S} (ep : endpoint) (response : response)
  : M S () :=
  if negb (ok response) then
    console Error (MsgHttpError ep (status response) (statusText response))
  else
    data ← await (json_body response) ;
    success_flag ← get_prop (Some data) "success" ;
    if truthy success_flag then
      inner ← get_prop (Some data) "data" ;
      count ← get_prop_opt inner "executed_count" ;
      let executedCount := if truthy count then default (JNum (of_Z 0)) count
                           else JNum (of_Z 0) in
      if gt_zero executedCount then
        console Log (MsgExecuted ep executedCount) ;;
        results ← get_prop_opt inner "results" ;
        if truthy results then
          match results with
          | Some (JArr items) => forEach (report_item ep) items
          | _ => mthrow (not_a_function "data.data.results.forEach")
          end
        else mret ()
      else console Log (MsgNothingDue ep)
    else
      error ← get_prop (Some data) "error" ;
      console Error (MsgEnvelopeError ep (if truthy error then error else None)).

(** The [catch] block. *)
Definition report_failure {S} (ep : endpoint) (error : js_error) : M S () :=
  console Error (MsgFailedToTrigger ep error).

(** [triggerQueries], [triggerCleanups] and [triggerOutputs]: the
    three methods differ in the path, the label and the item fields. *)
Definition trigger {S} (ep : endpoint) (config : SchedulerConfig)
    (net : fetch_result) : M S () :=
  try_catch
    (response ← fetch (url_of config ep) (headers_of config) None net ;
     process_response ep response)
    (report_failure ep).



(** *** The object and the event loop around it *)

Record LocalScheduler := {
  config : SchedulerConfig;
  running : bool;
  intervalId : option nat
}.

(** The object together with what the runtime keeps for it: the
    interval timers that are set, the handle the next [setInterval]
    returns, and the ticks in flight, each with the endpoint whose
    response it is awaiting. *)
Record runtime := {
  this : LocalScheduler;
  timers : gset nat;
  next_timer : nat;
  pending : list endpoint
}.

(** [new LocalScheduler(config)] in a fresh runtime. *)
Definition construct (c : SchedulerConfig) : runtime :=
  {| this := {| config := c; running := false; intervalId := None |};
     timers := ∅; next_timer := 0; pending := [] |}.

Definition set_running (b : bool) (rt : runtime) : runtime :=
  {| this := {| config := config (this rt); running := b;
                intervalId := intervalId (this rt) |};
     timers := timers rt; next_timer := next_timer rt; pending := pending rt |}.

Definition set_intervalId (i : option nat) (rt : runtime) : runtime :=
  {| this := {| config := config (this rt); running := running (this rt);
                intervalId := i |};
     timers := timers rt; next_timer := next_timer rt; pending := pending rt |}.

Definition set_pending (l : list endpoint) (rt : runtime) : runtime :=
  {| this := this rt; timers := timers rt; next_timer := next_timer rt;
     pending := l |}.

Definition setInterval (delay : number) : M runtime nat :=
  λ rt, (Normal (next_timer rt),
         {| this := this rt; timers := {[ next_timer rt ]} ∪ timers rt;
            next_timer := S (next_timer rt); pending := pending rt |},
         [SetInterval delay]).

Definition clearInterval (id : nat) : M runtime () :=
  modify (λ rt, {| this := this rt; timers := timers rt ∖ {[ id ]};
                   next_timer := next_timer rt; pending := pending rt |}).

(** The request a tick sends when it reaches endpoint [ep]. *)
Definition send (ep : endpoint) : M runtime () :=
  rt ← get ;
  emit (HttpPost (url_of (config (this rt)) ep) (headers_of (config (this rt))) None).

(** [this.triggerCheck()] as far as it runs before it first has to
    wait: it reports the check, sends the queries request and is
    then in flight. *)
Definition begin_tick : M runtime () :=
  console Log MsgChecking ;;
  send Queries ;;
  rt ← get ;
  modify (set_pending (pending rt ++ [Queries])).

Definition start : M runtime () :=
  rt ← get ;
  if running (this rt) then console Log MsgAlreadyRunning
  else
    modify (set_running true) ;;
    console Log (MsgStarting (checkInterval (config (this rt)))
                             (symposiumUrl (config (this rt)))) ;;
    begin_tick ;;
    id ← setInterval (checkInterval (config (this rt))) ;
    modify (set_intervalId (Some id)).

Definition stop : M runtime () :=
  rt ← get ;
  if negb (running (this rt)) then console Log MsgNotRunning
  else
    modify (set_running false) ;;
    match intervalId (this rt) with
    | Some id => clearInterval id ;; modify (set_intervalId None)
    | None => mret ()
    end ;;
    console Log MsgStopped.

Definition isRunning (rt : runtime) : bool := running (this rt).

(** What follows the request to [ep] within a tick. *)
Definition next_endpoint (ep : endpoint) : option endpoint :=
  match ep with
  | Queries => Some Cleanups
  | Cleanups => Some Outputs
  | Outputs => None
  end.

(** The rest of a [trigger] method once its request has settled. *)
Definition resume {S} (ep : endpoint) (net : fetch_result) : M S () :=
  try_catch (response ← await net ; process_response ep response)
            (report_failure ep).

(** The request of the [i]-th tick in flight settles: the method
    that sent it finishes, and [triggerCheck] goes on to the next
    method or ends. *)
Definition settle (i : nat) (net : fetch_result) : M runtime () :=
  rt ← get ;
  match pending rt !! i with
  | None => mret ()
  | Some ep =>
      resume ep net ;;
      match next_endpoint ep with
      | Some ep' => send ep' ;; modify (set_pending (<[ i := ep' ]> (pending rt)))
      | None => modify (set_pending (delete i (pending rt)))
      end
  end.

(** An interval timer fires, if it is still set. *)
Definition fire (id : nat) : M runtime () :=
  rt ← get ;
  if decide (id ∈ timers rt) then begin_tick else mret ().

(** What can happen, one event-loop turn at a time. *)
Inductive action :=
| CallStart
| CallStop
| TimerFires (id : nat)
| Settles (i : nat) (net : fetch_result).

Definition perform (a : action) : M runtime () :=
  match a with
  | CallStart => start
  | CallStop => stop
  | TimerFires id => fire id
  | Settles i net => settle i net
  end.

Fixpoint run (l : list action) : M runtime () :=
  match l with
  | [] => mret ()
  | a :: l' => perform a ;; run l'
  end.

(** The request a tick sends to [ep]. *)
Definition post (c : SchedulerConfig) (ep : endpoint) : event :=
  HttpPost (url_of c ep) (headers_of c) None.

(** The life-cycle invariant: the flag is set exactly when a timer
    handle is held, and that timer is the one the runtime has set. *)
Definition consistent (rt : runtime) : Prop :=
  match intervalId (this rt) with
  | Some id => running (this rt) = true ∧ timers rt = {[ id ]}
  | None => running (this rt) = false ∧ timers rt = ∅
  end.

(** The requests a tick in flight has still to send. *)
Definition remaining (ep : endpoint) : nat :=
  match ep with
  | Queries => 2
  | Cleanups => 1
  | Outputs => 0
  end.

Fixpoint owed (l : list endpoint) : nat :=
  match l with
  | [] => 0
  | ep :: l' => remaining ep + owed l'
  end.

(** A request that continues a tick, as opposed to the queries request
    that begins one. *)
Definition continues_tick (c : SchedulerConfig) (e : event) : Prop :=
  e = post c Cleanups ∨ e = post c Outputs.

(** A running scheduler, started once, with the given ticks in flight. *)
Definition in_flight (c : SchedulerConfig) (l : list endpoint) : runtime :=
  {| this := {| config := c; running := true; intervalId := Some 0%nat |};
     timers := {[ 0%nat ]}; next_timer := 1; pending := l |}.

(** Stopped, with no timer set. *)
Definition idle (rt : runtime) : Prop :=
  running (this rt) = false ∧ timers rt = ∅.

Definition is_start (a : action) : bool :=
  match a with CallStart => true | _ => false end.

End Class.
End Multi.

(** ** Concrete inputs used by the examples below *)
Module Samples.
Import JS Effects.

Definition response_200_empty_object : response :=
  {| status := 200; statusText := "OK";
     json_body := Fulfilled (JObj []); text_body := Fulfilled "{}" |}.

(** A 2xx answer whose body is not JSON. *)
Definition response_200_not_json : response :=
  {| status := 200; statusText := "OK";
     json_body := Rejected "SyntaxError: Unexpected token";
     text_body := Fulfilled "<html>ok</html>" |}.

Definition response_500 : response :=
  {| status := 500; statusText := "Internal Server Error";
     json_body := Rejected "SyntaxError: Unexpected token";
     text_body := Fulfilled "boom" |}.

(** A 500 answer whose body cannot be read: the connection drops
    after the status line. *)
Definition response_500_body_lost : response :=
  {| status := 500; statusText := "Internal Server Error";
     json_body := Rejected "TypeError: error reading a body from connection";
     text_body := Rejected "TypeError: error reading a body from connection" |}.

Definition at_time (t : Z) (o : fetch_result) : Scheduler.attempt :=
  {| Scheduler.started := t; Scheduler.finished := t + 5; Scheduler.outcome := o |}.

Definition env_secret_only : gmap string string :=
  {[ "SCHEDULER_SECRET" := "s3cret" ]}.

Definition env_interval_zero : gmap string string :=
  {[ "SCHEDULER_SECRET" := "s3cret"; "SCHEDULER_INTERVAL" := "0" ]}.

Definition config_port_zero : Config.SchedulerConfig :=
  {| Config.interval := of_Z 30000; Config.schedulerSecret := "s3cret";
     Config.appUrl := "http://localhost"; Config.appPort := Some (of_Z 0) |}.

Definition config_port_3000 : Config.SchedulerConfig :=
  {| Config.interval := of_Z 30000; Config.schedulerSecret := "s3cret";
     Config.appUrl := "http://localhost"; Config.appPort := Some (of_Z 3000) |}.

(** Statistics with [s] successes out of [t] triggers. *)
Definition with_counts (s t : Z) : Scheduler.statistics :=
  {| Scheduler.totalTriggers := t; Scheduler.successfulTriggers := s;
     Scheduler.failedTriggers := t - s; Scheduler.lastTriggerTime := Some 0;
     Scheduler.lastStatus := Some Scheduler.failed |}.

Definition one_of_three : Scheduler.statistics :=
  {| Scheduler.totalTriggers := 3; Scheduler.successfulTriggers := 1;
     Scheduler.failedTriggers := 2; Scheduler.lastTriggerTime := Some 0;
     Scheduler.lastStatus := Some Scheduler.failed |}.

Definition multi_default : Multi.SchedulerConfig := Multi.loadConfig ∅.

(** A stand-in for the conversion of strings, arrays and objects, for
    runs in which no such value is compared. *)
Definition never_positive (v : json) : bool := false.

Definition refused : fetch_result := Rejected "TypeError: connection refused".

(** The messages of V8, the engine under Deno and Node. *)
Definition v8 : Multi.Engine :=
  {| Multi.cannot_read v k :=
       "Cannot read properties of "
       +:+ match v with None => "undefined" | Some _ => "null" end
       +:+ " (reading '" +:+ k +:+ "')";
     Multi.not_a_function callee := callee +:+ " is not a function" |}.

End Samples.

(** ** Notions used to state the properties of whole runs *)
Module Accounting.
Import JS Effects.

(** The environment without the variables set to the empty string. *)
Definition without_empty (env : gmap string string) : gmap string string :=
  filter (λ kv, kv.2 ≠ EmptyString) env.

(** What [parseInt] can return: [NaN], an integer or an infinity. *)
Definition integral (x : number) : Prop :=
  x = NaN ∨ is_integer x = true ∨ ∃ sgn, x = S754_infinity sgn.

(** The attempt ends in a 2xx response whose body parses. *)
Definition succeeds (a : Scheduler.attempt) : bool :=
  match Scheduler.outcome a with
  | Fulfilled r =>
      ok r && match json_body r with Fulfilled _ => true | Rejected _ => false end
  | Rejected _ => false
  end.

(** The attempt ends in a non-2xx response whose body cannot be read. *)
Definition error_body_lost (a : Scheduler.attempt) : bool :=
  match Scheduler.outcome a with
  | Fulfilled r =>
      negb (ok r)
      && match text_body r with Fulfilled _ => false | Rejected _ => true end
  | Rejected _ => false
  end.

(** The line one invocation writes about the outcome of its request. *)
Definition outcome_report (a : Scheduler.attempt) : event :=
  let duration := Scheduler.finished a - Scheduler.started a in
  match Scheduler.outcome a with
  | Fulfilled r =>
      if ok r then
        match json_body r with
        | Fulfilled v => Console Log (MsgTriggerSuccessful duration v)
        | Rejected e => Console Error (MsgRequestError duration e)
        end
      else
        match text_body r with
        | Fulfilled x =>
            Console Error (MsgTriggerFailed (status r) (statusText r) duration x)
        | Rejected e => Console Error (MsgRequestError duration e)
        end
  | Rejected e => Console Error (MsgRequestError duration e)
  end.

(** [successfulTriggers / totalTriggers * 100] in exact arithmetic. *)
Definition exact_percentage (st : Scheduler.statistics) : Q :=
  (inject_Z (Scheduler.successfulTriggers st)
   / inject_Z (Scheduler.totalTriggers st) * 100)%Q.

(** How far the computed percentage can be from the exact one. *)
Definition percentage_error : Q := Qpower 2 (-44).

(** The tenths of [x] rounded to one decimal place, a tie going to the
    even digit. *)
Definition nearest_tenths_even (x : Q) : Z :=
  let n := Qfloor (x * 10)%Q in
  match (x * 10 - inject_Z n ?= 1 # 2)%Q with
  | Lt => n
  | Gt => n + 1
  | Eq => if Z.even n then n else n + 1
  end.

(** The success rate as the specification words it: the exact
    percentage rounded to one decimal place, a tie going up or, with
    [ties_to_even], to the even digit. *)
Definition rounded_exact_rate (ties_to_even : bool) (st : Scheduler.statistics)
  : string :=
  if Scheduler.totalTriggers st =? 0 then "0"
  else tenths_text ((if ties_to_even then nearest_tenths_even else nearest_tenths)
                      (exact_percentage st)).

(** The delays of the interval timers armed in a trace. *)
Definition intervals_armed (t : list event) : list number :=
  omap (λ e, match e with SetInterval d => Some d | _ => None end) t.

(** The report of the [catch] handler of [main]. *)
Definition is_fatal (e : event) : bool :=
  match e with
  | Console _ (MsgFatal _) => true
  | _ => false
  end.

(** The report that opens a tick of the [LocalScheduler] class. *)
Definition is_check (e : event) : bool :=
  match e with
  | Console Log MsgChecking => true
  | _ => false
  end.

(** The ticks begun in a trace. *)
Definition ticks_begun (t : list event) : nat := length (List.filter is_check t).

(** A console report other than the one that opens a tick. *)
Definition is_report (e : event) : bool :=
  match e with
  | Console _ MsgChecking => false
  | Console _ _ => true
  | _ => false
  end.

(** A computation that leaves the state alone and only reports on the
    console before it returns or throws. *)
Definition reports_only {S A} (m : M S A) : Prop :=
  ∀ s, ∃ c t, m s = (c, s, t) ∧ forallb is_report t = true ∧ ∀ code, c ≠ Exit code.

(** [item.k] for an item that is not [null]. *)
Definition prop_of (item : json) (k : string) : Multi.value :=
  match item with
  | JObj fields => Multi.own_property k fields
  | _ => None
  end.

(** The lines printed for one item of [results]. *)
Definition item_lines (ep : endpoint) (item : json) : list event :=
  Console Log (MsgItem ep (Multi.truthy (prop_of item "success"))
                 (prop_of item (Multi.name_field ep))
                 (prop_of item (Multi.id_field ep))
                 (match Multi.counter_field ep with
                  | Some f => prop_of item f
                  | None => None
                  end))
  :: match prop_of item "error" with
     | Some e => if Multi.truthy (Some e) then [Console Log (MsgItemError e)] else []
     | None => []
     end.

(** [data.data?.executed_count || 0] for a parsed body with the given
    fields. *)
Definition executed_count (fields : list (string * json)) : json :=
  let count := match Multi.own_property "data" fields with
               | Some (JObj inner) => Multi.own_property "executed_count" inner
               | _ => None
               end in
  if Multi.truthy count then default (JNum (of_Z 0)) count else JNum (of_Z 0).

(** [data.data?.results] *)
Definition results_of (fields : list (string * json)) : Multi.value :=
  match Multi.own_property "data" fields with
  | Some (JObj inner) => Multi.own_property "results" inner
  | _ => None
  end.

End Accounting.

(** ** Further concrete inputs *)
Module Cases.
Import JS Effects.

Definition env_with_port : gmap string string :=
  {[ "SCHEDULER_SECRET" := "s3cret"; "APP_PORT" := "3000" ]}.

Definition config_interval_500 : Config.SchedulerConfig :=
  {| Config.interval := of_Z 500; Config.schedulerSecret := "s3cret";
     Config.appUrl := "http://localhost"; Config.appPort := None |}.

(** What [SCHEDULER_INTERVAL=abc] loads. *)
Definition config_interval_nan : Config.SchedulerConfig :=
  {| Config.interval := NaN; Config.schedulerSecret := "s3cret";
     Config.appUrl := "http://localhost"; Config.appPort := None |}.

(** A 200 answer whose body parses to [data]. *)
Definition answer (data : json) : response :=
  {| status := 200; statusText := "OK";
     json_body := Fulfilled data;
     text_body := Rejected "TypeError: body stream already read" |}.

Definition item_done : json :=
  JObj [("success", JBool true); ("query_name", JStr "daily");
        ("query_id", JStr "q1")].

Definition item_failed : json :=
  JObj [("success", JBool false); ("query_name", JStr "weekly");
        ("query_id", JStr "q2"); ("error", JStr "timeout")].

(** The fields of an envelope reporting [count] executions with the
    given [results]. *)
Definition executed (count : Z) (results : json) : list (string * json) :=
  [("success", JBool true);
   ("data", JObj [("executed_count", JNum (of_Z count)); ("results", results)])].

Definition envelope_unauthorized : list (string * json) :=
  [("success", JBool false); ("error", JStr "unauthorized")].

End Cases.

(** ** The runtime model on known values *)
Module JSFacts.
Import JS.

Example parseInt_decimal :
  parseInt "30000" (Some 10) = of_Z 30000
  ∧ parseInt "  -12px" (Some 10) = of_Z (-12)
  ∧ parseInt "abc" (Some 10) = NaN
  ∧ parseInt "" (Some 10) = NaN
  ∧ parseInt "0x10" (Some 10) = S754_zero false
  ∧ parseInt "0x10" None = of_Z 16
  ∧ parseInt "9007199254740993" (Some 10) = of_Z 9007199254740992.
Proof. vm_compute. repeat split. Qed.

Example Number_toString_integers :
  Number_toString (of_Z 3000) = "3000"
  ∧ Number_toString (of_Z (-8080)) = "-8080"
  ∧ Number_toString (of_Z (2 ^ 60)) = "1152921504606847000"
  ∧ Number_toString (of_Z (10 ^ 21)) = "1e+21"
  ∧ Number_toString (of_Z (10 ^ 23)) = "1e+23"
  ∧ Number_toString (of_Z (2 ^ 70)) = "1.1805916207174113e+21".
Proof. vm_compute. repeat split. Qed.

Example Number_toString_fractions :
  Number_toString (div (of_Z 1) (of_Z 10)) = "0.1"
  ∧ Number_toString (div (of_Z 1) (of_Z 3)) = "0.3333333333333333"
  ∧ Number_toString (div (of_Z 6001) (of_Z 2)) = "3000.5"
  ∧ Number_toString (div (of_Z 1) (of_Z 10000000)) = "1e-7"
  ∧ Number_toString (div (of_Z 1) (of_Z 0)) = "Infinity"
  ∧ Number_toString (div (of_Z 0) (of_Z 0)) = "NaN".
Proof. vm_compute. repeat split. Qed.

Example toFixed1_percentages :
  toFixed1 (mul (div (of_Z 1) (of_Z 1)) (of_Z 100)) = "100.0"
  ∧ toFixed1 (mul (div (of_Z 1) (of_Z 3)) (of_Z 100)) = "33.3"
  ∧ toFixed1 (mul (div (of_Z 2) (of_Z 3)) (of_Z 100)) = "66.7"
  ∧ toFixed1 (mul (div (of_Z 1) (of_Z 16)) (of_Z 100)) = "6.3"
  ∧ toFixed1 (mul (div (of_Z 0) (of_Z 5)) (of_Z 100)) = "0.0".
Proof. vm_compute. repeat split. Qed.

End JSFacts.

(** ** Binary64 arithmetic on the counters *)
Module FloatFacts.
Import JS Scheduler.

Lemma digits_bounds (p : positive) :
  2 ^ (Z.pos (digits2_pos p) - 1) <= Z.pos p < 2 ^ Z.pos (digits2_pos p).
Proof.
  induction p as [p IH|p IH|]; cbn [digits2_pos].
  - rewrite Pos2Z.inj_succ. change (Z.pos p~1) with (2 * Z.pos p + 1).
    replace (Z.succ (Z.pos (digits2_pos p)) - 1) with (Z.succ (Z.pos (digits2_pos p) - 1)) by lia.
    rewrite !Z.pow_succ_r by lia. lia.
  - rewrite Pos2Z.inj_succ. change (Z.pos p~0) with (2 * Z.pos p).
    replace (Z.succ (Z.pos (digits2_pos p)) - 1) with (Z.succ (Z.pos (digits2_pos p) - 1)) by lia.
    rewrite !Z.pow_succ_r by lia. lia.
  - cbn. lia.
Qed.

Lemma two_pow_pos (e : Z) : (0 < Qpower 2 e)%Q.
Proof. apply Qpower_0_lt. reflexivity. Qed.

Lemma two_pow_add (a b : Z) : (Qpower 2 (a + b) == Qpower 2 a * Qpower 2 b)%Q.
Proof. apply Qpower_plus. discriminate. Qed.

Lemma two_pow_le (a b : Z) : a <= b → (Qpower 2 a <= Qpower 2 b)%Q.
Proof. intros H. apply Qpower_le_compat_l; [exact H | discriminate]. Qed.

Lemma two_pow_Z (n : Z) : 0 <= n → (Qpower 2 n == inject_Z (2 ^ n))%Q.
Proof.
  intros H. pattern n. apply natlike_ind; [reflexivity| |exact H].
  intros x Hx IH. unfold Z.succ.
  rewrite two_pow_add, IH, Z.pow_add_r, inject_Z_mult by lia. reflexivity.
Qed.

Lemma dyadic_mono (a b e : Z) : a <= b → (dyadic a e <= dyadic b e)%Q.
Proof.
  intros H. unfold dyadic. apply Qmult_le_compat_r.
  - rewrite <- Zle_Qle. exact H.
  - apply Qlt_le_weak, two_pow_pos.
Qed.

(** Dropping [n] low bits does not increase the value. *)
Lemma dyadic_shift (m e n : Z) : 0 <= m → 0 <= n → (dyadic (m / 2 ^ n) (e + n) <= dyadic m e)%Q.
Proof.
  intros Hm Hn. unfold dyadic. rewrite two_pow_add, (two_pow_Z n Hn).
  rewrite (Qmult_comm (Qpower 2 e)), Qmult_assoc, <- inject_Z_mult.
  apply Qmult_le_compat_r; [|apply Qlt_le_weak, two_pow_pos].
  rewrite <- Zle_Qle. rewrite Z.mul_comm. apply Z.mul_div_le. lia.
Qed.

Lemma shr_1_m (mrs : shr_record) :
  0 <= shr_m mrs → shr_m (shr_1 mrs) = shr_m mrs / 2.
Proof.
  destruct mrs as [m r s]. cbn [shr_m]. intros Hm.
  rewrite <- Z.div2_div.
  destruct m as [|[p|p|]|p]; try reflexivity; lia.
Qed.

Lemma iter_shr_1_m (p : positive) :
  ∀ mrs, 0 <= shr_m mrs →
         shr_m (SpecFloat.iter_pos shr_1 p mrs) = shr_m mrs / 2 ^ Z.pos p.
Proof.
  induction p as [p IH|p IH|]; intros mrs Hm; cbn [SpecFloat.iter_pos].
  - assert (H1 : 0 <= shr_m (shr_1 mrs)).
    { rewrite shr_1_m by exact Hm. apply Z.div_pos; lia. }
    assert (H2 : 0 <= shr_m (SpecFloat.iter_pos shr_1 p (shr_1 mrs))).
    { rewrite IH by exact H1. apply Z.div_pos; lia. }
    rewrite IH, IH, shr_1_m by assumption.
    rewrite !Z.div_div by lia. f_equal.
    change (Z.pos p~1) with (2 * Z.pos p + 1).
    replace (2 * Z.pos p + 1) with (1 + Z.pos p + Z.pos p) by lia.
    rewrite !Z.pow_add_r by lia. change (2 ^ 1) with 2. lia.
  - assert (H2 : 0 <= shr_m (SpecFloat.iter_pos shr_1 p mrs)).
    { rewrite IH by exact Hm. apply Z.div_pos; lia. }
    rewrite IH, IH by assumption.
    rewrite Z.div_div by lia. f_equal.
    change (Z.pos p~0) with (2 * Z.pos p).
    replace (2 * Z.pos p) with (Z.pos p + Z.pos p) by lia.
    rewrite Z.pow_add_r by lia. reflexivity.
  - rewrite shr_1_m by exact Hm. reflexivity.
Qed.

(** What [shr_fexp] does to a non-negative mantissa: it drops [n] low
    bits, and when it drops any, the new exponent is the one the
    format prescribes. *)
Lemma shr_fexp_spec (m e : Z) (l : location) :
  0 <= m →
  ∃ n, 0 <= n
       ∧ snd (shr_fexp prec emax m e l) = e + n
       ∧ shr_m (fst (shr_fexp prec emax m e l)) = m / 2 ^ n
       ∧ (n = 0 ∨ e + n = fexp prec emax (Zdigits2 m + e)).
Proof.
  intros Hm. unfold shr_fexp, shr.
  assert (Hrec : shr_m (shr_record_of_loc m l) = m)
    by (destruct l as [|[]]; reflexivity).
  destruct (fexp prec emax (Zdigits2 m + e) - e) as [|p|p] eqn:Hn.
  - exists 0. cbn [fst snd]. rewrite Hrec, Z.div_1_r. repeat split; auto; lia.
  - exists (Z.pos p). cbn [fst snd].
    rewrite iter_shr_1_m, Hrec by (rewrite Hrec; exact Hm).
    repeat split; auto; lia.
  - exists 0. cbn [fst snd]. rewrite Hrec, Z.div_1_r. repeat split; auto; lia.
Qed.

Lemma round_nearest_even_bounds (m : Z) (l : location) :
  m <= round_nearest_even m l <= m + 1.
Proof. destruct l as [|[]]; cbn; try lia. destruct (Z.even m); lia. Qed.

(** The exponent a mantissa is shifted to is not far above its value. *)
Lemma two_pow_fexp (m e : Z) :
  0 <= m →
  (Qpower 2 (fexp prec emax (Zdigits2 m + e)) <= dyadic m e + Qpower 2 e + 1)%Q.
Proof.
  intros Hm. unfold fexp, SpecFloat.emin, prec, emax.
  pose proof (two_pow_pos e) as He.
  assert (HF : (0 <= dyadic m e)%Q).
  { unfold dyadic. apply Qmult_le_0_compat; [|lra].
    change 0%Q with (inject_Z 0). rewrite <- Zle_Qle. exact Hm. }
  destruct (Z.max_spec (Zdigits2 m + e - 53) (3 - 1024 - 53)) as [[_ ->]|[_ ->]].
  - assert ((Qpower 2 (3 - 1024 - 53) <= Qpower 2 0)%Q) by (apply two_pow_le; lia).
    change (Qpower 2 0) with 1%Q in *. lra.
  - destruct m as [|p|p]; [| |lia].
    + cbn [Zdigits2].
      assert ((Qpower 2 (0 + e - 53) <= Qpower 2 e)%Q) by (apply two_pow_le; lia).
      lra.
    + cbn [Zdigits2].
      assert ((Qpower 2 (Z.pos (digits2_pos p) + e - 53)
               <= Qpower 2 (Z.pos (digits2_pos p) - 1 + e))%Q)
        by (apply two_pow_le; lia).
      assert ((Qpower 2 (Z.pos (digits2_pos p) - 1 + e) <= dyadic (Z.pos p) e)%Q).
      { rewrite two_pow_add. unfold dyadic. apply Qmult_le_compat_r; [|lra].
        rewrite two_pow_Z by lia. rewrite <- Zle_Qle.
        apply (digits_bounds p). }
      lra.
Qed.

Lemma dyadic_nonneg (m e : Z) : 0 <= m → (0 <= dyadic m e)%Q.
Proof.
  intros Hm. unfold dyadic. apply Qmult_le_0_compat.
  - change 0%Q with (inject_Z 0). rewrite <- Zle_Qle. exact Hm.
  - apply Qlt_le_weak, two_pow_pos.
Qed.

Lemma dyadic_succ (m e : Z) : (dyadic (m + 1) e == dyadic m e + Qpower 2 e)%Q.
Proof. unfold dyadic. rewrite inject_Z_plus. change (inject_Z 1) with 1%Q. ring. Qed.

(** The shape and the size of what [binary_round_aux] returns: a
    mantissa [m] and an exponent [e] with [m * 2^e] at most about twice
    the value that was to be rounded. *)
Lemma binary_round_aux_bound (sx : bool) (mx ex : Z) (lx : location) :
  0 <= mx →
  ∃ m e,
    0 <= m
    ∧ (dyadic m e <= 2 * dyadic mx ex + Qpower 2 ex + 1)%Q
    ∧ binary_round_aux prec emax sx mx ex lx
      = match m with
        | Z0 => S754_zero sx
        | Zpos p => if e <=? emax - prec then S754_finite sx p e
                    else S754_infinity sx
        | Zneg _ => S754_nan
        end.
Proof.
  intros Hm. unfold binary_round_aux.
  destruct (shr_fexp_spec mx ex lx Hm) as (n1 & Hn1 & He1 & Hm1 & Hc1).
  destruct (shr_fexp prec emax mx ex lx) as [mrs' e'].
  cbn [fst snd] in He1, Hm1.
  pose proof (round_nearest_even_bounds (shr_m mrs') (loc_of_shr_record mrs')) as Hr.
  set (m1 := round_nearest_even (shr_m mrs') (loc_of_shr_record mrs')) in *.
  assert (Hm0 : 0 <= shr_m mrs') by (rewrite Hm1; apply Z.div_pos; lia).
  assert (Hm1' : 0 <= m1) by lia.
  destruct (shr_fexp_spec m1 e' loc_Exact Hm1') as (n2 & Hn2 & He2 & Hm2 & _).
  destruct (shr_fexp prec emax m1 e' loc_Exact) as [mrs'' e''].
  cbn [fst snd] in He2, Hm2.
  exists (shr_m mrs''), e''.
  split; [rewrite Hm2; apply Z.div_pos; lia|].
  split; [|reflexivity].
  assert (H1 : (dyadic (shr_m mrs'') e'' <= dyadic m1 e')%Q)
    by (rewrite Hm2, He2; apply dyadic_shift; lia).
  assert (H2 : (dyadic m1 e' <= dyadic (shr_m mrs') e' + Qpower 2 e')%Q)
    by (rewrite <- dyadic_succ; apply dyadic_mono; lia).
  assert (H3 : (dyadic (shr_m mrs') e' <= dyadic mx ex)%Q)
    by (rewrite Hm1, He1; apply dyadic_shift; lia).
  assert (H4 : (Qpower 2 e' <= dyadic mx ex + Qpower 2 ex + 1)%Q).
  { pose proof (dyadic_nonneg mx ex Hm). destruct Hc1 as [-> | Hc1].
    - rewrite He1, Z.add_0_r. lra.
    - rewrite He1, Hc1. apply two_pow_fexp, Hm. }
  lra.
Qed.

Lemma iter_xO_spec (p k : positive) :
  Z.pos (Pos.iter xO p k) = Z.pos p * 2 ^ Z.pos k
  ∧ digits2_pos (Pos.iter xO p k) = (digits2_pos p + k)%positive.
Proof.
  pattern k, (Pos.iter xO p k). apply Pos.iter_ind.
  - split; [change (Z.pos p~0) with (2 * Z.pos p); lia|].
    cbn [digits2_pos]. lia.
  - intros k' q [Hv Hd]. split.
    + change (Z.pos q~0) with (2 * Z.pos q).
      rewrite Hv, Pos2Z.inj_succ, Z.pow_succ_r by lia. lia.
    + cbn [digits2_pos]. rewrite Hd. lia.
Qed.

(** A mantissa of 53 bits with an exponent in range is left as it is. *)
Lemma binary_round_aux_canonical (sx : bool) (m : positive) (e : Z) :
  Z.pos (digits2_pos m) = 53 → -1074 <= e <= 971 →
  binary_round_aux prec emax sx (Z.pos m) e loc_Exact = S754_finite sx m e.
Proof.
  intros Hd He. unfold binary_round_aux, shr_fexp. cbn [Zdigits2].
  rewrite Hd.
  replace (fexp prec emax (53 + e) - e) with 0
    by (unfold fexp, SpecFloat.emin, prec, emax; lia).
  cbn [shr shr_record_of_loc shr_m loc_of_shr_record round_nearest_even Zdigits2].
  rewrite Hd.
  replace (fexp prec emax (53 + e) - e) with 0
    by (unfold fexp, SpecFloat.emin, prec, emax; lia).
  cbn [shr shr_record_of_loc shr_m].
  replace (e <=? emax - prec) with true
    by (symmetry; apply Z.leb_le; unfold prec, emax; lia).
  reflexivity.
Qed.

(** Integers below [2^53] are numbers: [of_Z] is exact on them. *)
Lemma of_Z_exact (p : positive) :
  Z.pos p < 2 ^ 53 →
  ∃ m e, of_Z (Z.pos p) = S754_finite false m e
         ∧ -52 <= e <= 0
         ∧ (dyadic (Z.pos m) e == inject_Z (Z.pos p))%Q.
Proof.
  intros Hp. unfold of_Z, binary_normalize, binary_round.
  pose proof (digits_bounds p) as [Hlo _].
  assert (Hd : Z.pos (digits2_pos p) <= 53).
  { destruct (Z_le_gt_dec (Z.pos (digits2_pos p)) 53) as [H|H]; [exact H|].
    assert (2 ^ 53 <= 2 ^ (Z.pos (digits2_pos p) - 1))
      by (apply Z.pow_le_mono_r; lia).
    lia. }
  replace (fexp prec emax (Z.pos (digits2_pos p) + 0))
    with (Z.pos (digits2_pos p) - 53)
    by (unfold fexp, SpecFloat.emin, prec, emax; lia).
  unfold shl_align.
  destruct (Z.pos (digits2_pos p) - 53 - 0) as [|k|k] eqn:Hk; [|lia|].
  - rewrite binary_round_aux_canonical by lia.
    exists p, 0. split; [reflexivity|]. split; [lia|].
    unfold dyadic. change (Qpower 2 0) with 1%Q. ring.
  - destruct (iter_xO_spec p k) as [Hv Hdig].
    rewrite binary_round_aux_canonical by (rewrite ?Hdig; lia).
    exists (Pos.iter xO p k), (Z.pos (digits2_pos p) - 53).
    split; [reflexivity|]. split; [lia|].
    unfold dyadic. rewrite Hv, inject_Z_mult, <- two_pow_Z by lia.
    rewrite <- Qmult_assoc, <- two_pow_add.
    replace (Z.pos k + (Z.pos (digits2_pos p) - 53)) with 0 by lia.
    change (Qpower 2 0) with 1%Q. ring.
Qed.

(** A rounded result of moderate size is zero or finite, never an
    infinity or [NaN]. *)
Lemma binary_round_aux_small (sx : bool) (mx ex : Z) (lx : location) (B : Q) :
  0 <= mx →
  (2 * dyadic mx ex + Qpower 2 ex + 1 <= B)%Q → (B <= Qpower 2 971)%Q →
  binary_round_aux prec emax sx mx ex lx = S754_zero sx
  ∨ ∃ m e, binary_round_aux prec emax sx mx ex lx = S754_finite sx m e
           ∧ (dyadic (Z.pos m) e <= B)%Q.
Proof.
  intros Hm HB Hmax.
  destruct (binary_round_aux_bound sx mx ex lx Hm) as (m & e & Hm' & Hb & ->).
  destruct m as [|p|p]; [left; reflexivity| |lia].
  right. exists p, e.
  destruct (e <=? emax - prec) eqn:He; [split; [reflexivity | lra]|].
  exfalso. apply Z.leb_gt in He. unfold emax, prec in He.
  assert (H1 : (Qpower 2 972 <= Qpower 2 e)%Q) by (apply two_pow_le; lia).
  assert (H2 : (Qpower 2 e <= dyadic (Z.pos p) e)%Q).
  { unfold dyadic. rewrite <- (Qmult_1_l (Qpower 2 e)) at 1.
    apply Qmult_le_compat_r; [|apply Qlt_le_weak, two_pow_pos].
    change 1%Q with (inject_Z 1). rewrite <- Zle_Qle. lia. }
  assert (H3 : (Qpower 2 972 == 2 * Qpower 2 971)%Q)
    by (change 972 with (1 + 971); rewrite two_pow_add; reflexivity).
  pose proof (two_pow_pos 971). lra.
Qed.

(** The quotient [SFdiv_core_binary] hands to the rounding: it is not
    above the exact quotient, and its exponent not above the
    difference of the exponents. *)
Lemma div_core_bound (m1 m2 : positive) (e1 e2 : Z) :
  ∃ q e' l,
    SFdiv_core_binary prec emax (Z.pos m1) e1 (Z.pos m2) e2 = (q, e', l)
    ∧ 0 <= q ∧ e' <= e1 - e2
    ∧ (dyadic q e' * dyadic (Z.pos m2) e2 <= dyadic (Z.pos m1) e1)%Q.
Proof.
  unfold SFdiv_core_binary.
  set (e' := Z.min _ _).
  assert (He' : e' <= e1 - e2) by (subst e'; apply Z.le_min_r).
  set (m' := match e1 - e2 - e' with
             | 0 => Z.pos m1 | Z.pos _ => Z.shiftl (Z.pos m1) (e1 - e2 - e')
             | Z.neg _ => 0 end).
  assert (Hm' : m' = Z.pos m1 * 2 ^ (e1 - e2 - e')).
  { subst m'. destruct (e1 - e2 - e') as [|s|s] eqn:Hs; [cbn; lia| |lia].
    apply Z.shiftl_mul_pow2. lia. }
  pose proof (Z_div_mod m' (Z.pos m2) eq_refl) as Hdiv.
  destruct (Z.div_eucl m' (Z.pos m2)) as [q r]. destruct Hdiv as [Hq Hr].
  assert (Hq0 : 0 <= q) by nia.
  exists q, e', (new_location (Z.pos m2) r). split; [reflexivity|].
  split; [exact Hq0|]. split; [exact He'|].
  assert (Hle : q * Z.pos m2 <= m') by lia.
  assert (E1 : (dyadic q e' * dyadic (Z.pos m2) e2 == dyadic (q * Z.pos m2) (e' + e2))%Q)
    by (unfold dyadic; rewrite inject_Z_mult, two_pow_add; ring).
  assert (E2 : (dyadic (Z.pos m1) e1 == dyadic m' (e' + e2))%Q).
  { unfold dyadic. rewrite Hm', inject_Z_mult, <- two_pow_Z by lia.
    rewrite <- Qmult_assoc, <- two_pow_add.
    replace (e1 - e2 - e' + (e' + e2)) with e1 by lia. reflexivity. }
  rewrite E1, E2. apply dyadic_mono, Hle.
Qed.

Lemma closed_Qle (x y : Q) : Qle_bool x y = true → (x <= y)%Q.
Proof. apply Qle_bool_iff. Qed.

(** The quotient of two integers below [2^53], the first not above the
    second, is a finite number of moderate size. *)
Lemma div_in_range (p t : positive) :
  Z.pos p <= Z.pos t → Z.pos t < 2 ^ 53 →
  div (of_Z (Z.pos p)) (of_Z (Z.pos t)) = S754_zero false
  ∨ ∃ m e, div (of_Z (Z.pos p)) (of_Z (Z.pos t)) = S754_finite false m e
           ∧ (dyadic (Z.pos m) e <= quotient_bound)%Q.
Proof.
  intros Hpt Ht.
  destruct (of_Z_exact p) as (m1 & e1 & -> & He1 & Hv1); [lia|].
  destruct (of_Z_exact t Ht) as (m2 & e2 & -> & He2 & Hv2).
  unfold div, SFdiv.
  destruct (div_core_bound m1 m2 e1 e2) as (q & e' & l & -> & Hq & He' & Hb).
  cbn [xorb]. apply binary_round_aux_small; [exact Hq| |].
  - assert (H2 : (0 < dyadic (Z.pos m2) e2)%Q).
    { rewrite Hv2. change 0%Q with (inject_Z 0). rewrite <- Zlt_Qlt. lia. }
    assert (H1 : (dyadic q e' <= 1)%Q).
    { apply (Qmult_le_r _ _ _ H2). rewrite Qmult_1_l.
      apply (Qle_trans _ _ _ Hb). rewrite Hv1, Hv2, <- Zle_Qle. exact Hpt. }
    assert (H3 : (Qpower 2 e' <= Qpower 2 52)%Q) by (apply two_pow_le; lia).
    unfold quotient_bound. lra.
  - apply closed_Qle. vm_compute. reflexivity.
Qed.

Lemma hundred_exact : of_Z 100 = S754_finite false 7036874417766400 (-46)
                  ∧ (dyadic 7036874417766400 (-46) == 100)%Q.
Proof. split; [vm_compute; reflexivity | reflexivity]. Qed.

(** With [0 <= successfulTriggers <= totalTriggers], a positive total
    and counters below [2^53], the percentage is zero or a positive
    finite number, far below [10^21]. *)
Lemma percentage_in_range (st : statistics) :
  0 <= successfulTriggers st <= totalTriggers st →
  0 < totalTriggers st < 2 ^ 53 →
  match percentage st with
  | S754_zero _ => True
  | S754_finite false _ _ => (to_Q (percentage st) < pow10 21)%Q
  | _ => False
  end.
Proof.
  intros Hs Ht. unfold percentage.
  destruct (totalTriggers st) as [|t|t]; [lia| |lia].
  destruct hundred_exact as [E100 V100].
  destruct (successfulTriggers st) as [|p|p]; [| |lia].
  - destruct (of_Z_exact t) as (m2 & e2 & -> & _); [lia|].
    rewrite E100. exact I.
  - destruct (div_in_range p t) as [-> | (m & e & -> & Hb)]; [lia..| |].
    + rewrite E100. exact I.
    + rewrite E100. unfold mul, SFmul. cbn [xorb].
      destruct (binary_round_aux_small false
                  (Z.pos (m * 7036874417766400)) (e + -46) loc_Exact
                  percentage_bound) as [-> | (m' & e' & -> & Hb')];
        [lia| | |exact I|].
      * assert (E : (dyadic (Z.pos (m * 7036874417766400)) (e + -46)
                     == dyadic (Z.pos m) e * 100)%Q).
        { rewrite <- V100. unfold dyadic.
          rewrite Pos2Z.inj_mul, inject_Z_mult, two_pow_add. ring. }
        assert (H1 : (Qpower 2 (e + -46)
                      <= dyadic (Z.pos (m * 7036874417766400)) (e + -46))%Q).
        { unfold dyadic. rewrite <- (Qmult_1_l (Qpower 2 (e + -46))) at 1.
          apply Qmult_le_compat_r; [|apply Qlt_le_weak, two_pow_pos].
          change 1%Q with (inject_Z 1). rewrite <- Zle_Qle. lia. }
        unfold percentage_bound. lra.
      * apply closed_Qle. vm_compute. reflexivity.
      * cbn [to_Q]. fold (dyadic (Z.pos m') e').
        apply (Qle_lt_trans _ _ _ Hb'). reflexivity.
Qed.

End FloatFacts.

(** ** Integers as binary64 numbers *)
Module NumberFacts.
Import JS FloatFacts.

(** The number an integer below [2^53] in size is: its bits, shifted to
    53 digits. *)
Lemma binary_round_small (sx : bool) (p : positive) :
  Z.pos p < 2 ^ 53 →
  ∃ m, binary_round prec emax sx p 0
       = S754_finite sx m (Z.pos (digits2_pos p) - 53)
       ∧ Z.pos m = Z.pos p * 2 ^ (53 - Z.pos (digits2_pos p))
       ∧ Z.pos (digits2_pos p) <= 53.
Proof.
  intros Hp. unfold binary_round.
  pose proof (digits_bounds p) as [Hlo _].
  assert (Hd : Z.pos (digits2_pos p) <= 53).
  { destruct (Z_le_gt_dec (Z.pos (digits2_pos p)) 53) as [H|H]; [exact H|].
    assert (2 ^ 53 <= 2 ^ (Z.pos (digits2_pos p) - 1))
      by (apply Z.pow_le_mono_r; lia).
    lia. }
  replace (fexp prec emax (Z.pos (digits2_pos p) + 0))
    with (Z.pos (digits2_pos p) - 53)
    by (unfold fexp, SpecFloat.emin, prec, emax; lia).
  unfold shl_align.
  destruct (Z.pos (digits2_pos p) - 53 - 0) as [|k|k] eqn:Hk; [|lia|].
  - rewrite binary_round_aux_canonical by lia.
    exists p. replace (Z.pos (digits2_pos p) - 53) with 0 by lia.
    split; [reflexivity|]. split; [|exact Hd].
    replace (53 - Z.pos (digits2_pos p)) with 0 by lia. lia.
  - destruct (iter_xO_spec p k) as [Hv Hdig].
    rewrite binary_round_aux_canonical by (rewrite ?Hdig; lia).
    exists (Pos.iter xO p k). split; [reflexivity|]. split; [|exact Hd].
    rewrite Hv. f_equal. f_equal. lia.
Qed.

(** Comparing two such numbers compares the integers. *)
Lemma compare_small (p q m1 m2 : positive) :
  Z.pos p < 2 ^ 53 → Z.pos q < 2 ^ 53 →
  Z.pos m1 = Z.pos p * 2 ^ (53 - Z.pos (digits2_pos p)) →
  Z.pos m2 = Z.pos q * 2 ^ (53 - Z.pos (digits2_pos q)) →
  Z.pos (digits2_pos p) <= 53 → Z.pos (digits2_pos q) <= 53 →
  match Z.pos (digits2_pos p) - 53 ?= Z.pos (digits2_pos q) - 53 with
  | Lt => Lt
  | Gt => Gt
  | Eq => (Z.pos m1 ?= Z.pos m2)
  end = (Z.pos p ?= Z.pos q).
Proof.
  intros Hp Hq H1 H2 Hdp Hdq.
  pose proof (digits_bounds p) as [Hplo Pphi].
  pose proof (digits_bounds q) as [Hqlo Hqhi].
  destruct (Z.compare_spec (Z.pos (digits2_pos p) - 53) (Z.pos (digits2_pos q) - 53))
    as [He|He|He].
  - assert (Hd : Z.pos (digits2_pos p) = Z.pos (digits2_pos q)) by lia.
    rewrite H1, H2, Hd.
    assert (Hc : 0 < 2 ^ (53 - Z.pos (digits2_pos q)))
      by (apply Z.pow_pos_nonneg; lia).
    destruct (Z.compare_spec (Z.pos p) (Z.pos q)) as [E|E|E];
      [apply Z.compare_eq_iff | apply Z.compare_lt_iff | apply Z.compare_gt_iff];
      nia.
  - symmetry. apply Z.compare_lt_iff.
    assert (2 ^ Z.pos (digits2_pos p) <= 2 ^ (Z.pos (digits2_pos q) - 1))
      by (apply Z.pow_le_mono_r; lia).
    lia.
  - symmetry. apply Z.compare_gt_iff.
    assert (2 ^ Z.pos (digits2_pos q) <= 2 ^ (Z.pos (digits2_pos p) - 1))
      by (apply Z.pow_le_mono_r; lia).
    lia.
Qed.

(** On integers that numbers hold exactly, [<] is the integers' [<]. *)
Lemma ltb_of_Z (a b : Z) :
  - 2 ^ 53 < a < 2 ^ 53 → - 2 ^ 53 < b < 2 ^ 53 →
  ltb (of_Z a) (of_Z b) = (a <? b).
Proof.
  intros Ha Hb. unfold ltb, SFltb, of_Z, binary_normalize.
  destruct a as [|p|p], b as [|q|q];
    repeat match goal with
    | |- context [binary_round prec emax ?s ?x 0] =>
        let m := fresh "m" in let E := fresh "E" in
        let V := fresh "V" in let D := fresh "D" in
        destruct (binary_round_small s x) as (m & E & V & D); [lia|];
        rewrite E; clear E
    end; cbn [SFcompare]; try reflexivity.
  - pose proof (compare_small p q m m0) as C.
    unfold Z.ltb. rewrite <- C by (assumption || lia). reflexivity.
  - pose proof (compare_small p q m m0) as C.
    transitivity (match CompOpp (Z.pos p ?= Z.pos q) with
                  | Lt => true | _ => false end); [|reflexivity].
    rewrite <- C by (assumption || lia).
    destruct (Z.pos (digits2_pos p) - 53 ?= Z.pos (digits2_pos q) - 53);
      reflexivity.
Qed.

(** Rounding never lowers the exponent. *)
Lemma binary_round_aux_exponent (sx : bool) (mx ex : Z) (lx : location) :
  0 <= mx →
  ∃ m e,
    0 <= m ∧ ex <= e
    ∧ binary_round_aux prec emax sx mx ex lx
      = match m with
        | Z0 => S754_zero sx
        | Zpos p => if e <=? emax - prec then S754_finite sx p e
                    else S754_infinity sx
        | Zneg _ => S754_nan
        end.
Proof.
  intros Hm. unfold binary_round_aux.
  destruct (shr_fexp_spec mx ex lx Hm) as (n1 & Hn1 & He1 & Hm1 & _).
  destruct (shr_fexp prec emax mx ex lx) as [mrs' e'].
  cbn [fst snd] in He1, Hm1.
  pose proof (round_nearest_even_bounds (shr_m mrs') (loc_of_shr_record mrs')) as Hr.
  set (m1 := round_nearest_even (shr_m mrs') (loc_of_shr_record mrs')) in *.
  assert (Hm0 : 0 <= shr_m mrs') by (rewrite Hm1; apply Z.div_pos; lia).
  assert (Hm1' : 0 <= m1) by lia.
  destruct (shr_fexp_spec m1 e' loc_Exact Hm1') as (n2 & Hn2 & He2 & Hm2 & _).
  destruct (shr_fexp prec emax m1 e' loc_Exact) as [mrs'' e''].
  cbn [fst snd] in He2, Hm2.
  exists (shr_m mrs''), e''.
  split; [rewrite Hm2; apply Z.div_pos; lia|].
  split; [lia | reflexivity].
Qed.

(** An integer converted to a number is an integer, or an infinity
    when it is too large. *)
Lemma of_Z_integer (z : Z) :
  is_integer (of_Z z) = true ∨ ∃ s, of_Z z = S754_infinity s.
Proof.
  assert (H : ∀ sx p, is_integer (binary_round prec emax sx p 0) = true
                      ∨ ∃ s, binary_round prec emax sx p 0 = S754_infinity s).
  { intros sx p. destruct (Z_lt_ge_dec (Z.pos p) (2 ^ 53)) as [Hp|Hp].
    - destruct (binary_round_small sx p Hp) as (m & -> & Hv & Hd).
      left. cbn [is_integer]. apply orb_true_iff. right. apply Z.eqb_eq.
      rewrite Hv. replace (- (Z.pos (digits2_pos p) - 53))
        with (53 - Z.pos (digits2_pos p)) by lia.
      apply Z.mod_mul. apply Z.pow_nonzero; lia.
    - unfold binary_round.
      pose proof (digits_bounds p) as [_ Hhi].
      assert (Hd : 53 < Z.pos (digits2_pos p)).
      { destruct (Z_lt_ge_dec 53 (Z.pos (digits2_pos p))) as [H|H]; [exact H|].
        assert (2 ^ Z.pos (digits2_pos p) <= 2 ^ 53)
          by (apply Z.pow_le_mono_r; lia).
        lia. }
      replace (fexp prec emax (Z.pos (digits2_pos p) + 0))
        with (Z.pos (digits2_pos p) - 53)
        by (unfold fexp, SpecFloat.emin, prec, emax; lia).
      unfold shl_align.
      destruct (Z.pos (digits2_pos p) - 53 - 0) as [|k|k] eqn:Hk; [lia| |lia].
      destruct (binary_round_aux_exponent sx (Z.pos p) 0 loc_Exact)
        as (m & e & Hm & He & ->); [lia|].
      destruct m as [|q|q]; [left; reflexivity| |lia].
      destruct (e <=? emax - prec); [|right; eauto].
      left. cbn [is_integer]. apply orb_true_iff. left. apply Z.leb_le. exact He. }
  unfold of_Z, binary_normalize. destruct z as [|p|p]; [left; reflexivity|apply H..].
Qed.

(** What [parseInt] returns is never a fraction. *)
Lemma parseInt_integer (s : string) (radix : option Z) :
  parseInt s radix = NaN
  ∨ is_integer (parseInt s radix) = true
  ∨ ∃ sgn, parseInt s radix = S754_infinity sgn.
Proof.
  unfold parseInt.
  set (inputString := trim_start s).
  destruct (match inputString with
            | String "-"%char s' => (true, s')
            | String "+"%char s' => (false, s')
            | _ => (false, inputString)
            end) as [neg rest].
  cbv zeta.
  destruct (negb _ && _); [left; reflexivity|].
  match goal with
  | |- context [let '(R, rest) := ?p in _] => destruct p as [R rest']
  end.
  destruct (read_digits R rest' None) as [[|n|n]|]; [| | |left; reflexivity];
    right.
  - left. reflexivity.
  - destruct (of_Z_integer (if neg then - Z.pos n else Z.pos n)); auto.
  - destruct (of_Z_integer (if neg then - Z.neg n else Z.neg n)); auto.
Qed.

End NumberFacts.

(** ** How close the computed percentage is to the exact one *)
Module RoundingFacts.
Import JS Scheduler Accounting FloatFacts NumberFacts.

Lemma digits_unique (p : positive) (k : Z) :
  2 ^ (k - 1) <= Z.pos p < 2 ^ k → Z.pos (digits2_pos p) = k.
Proof.
  intros [Hlo Hhi]. pose proof (digits_bounds p) as [Dlo Dhi].
  assert (Hk : 0 < k).
  { destruct (Z_lt_le_dec 0 k) as [H|H]; [exact H|].
    destruct (Z.eq_dec k 0) as [->|Hk0]; [change (2 ^ 0) with 1 in Hhi; lia|].
    rewrite Z.pow_neg_r in Hhi by lia. lia. }
  assert (H1 : Z.pos (digits2_pos p) - 1 < k).
  { apply (Z.pow_lt_mono_r_iff 2); lia. }
  assert (H2 : k - 1 < Z.pos (digits2_pos p)).
  { apply (Z.pow_lt_mono_r_iff 2); lia. }
  lia.
Qed.

(** [shr_fexp] drops exactly the bits the format has no room for. *)
Lemma shr_fexp_exact (m e : Z) (l : location) :
  0 <= m →
  snd (shr_fexp prec emax m e l)
  = e + Z.max 0 (fexp prec emax (Zdigits2 m + e) - e)
  ∧ shr_m (fst (shr_fexp prec emax m e l))
    = m / 2 ^ Z.max 0 (fexp prec emax (Zdigits2 m + e) - e).
Proof.
  intros Hm. unfold shr_fexp, shr.
  assert (Hrec : shr_m (shr_record_of_loc m l) = m)
    by (destruct l as [|[]]; reflexivity).
  destruct (fexp prec emax (Zdigits2 m + e) - e) as [|p|p] eqn:Hn.
  - cbn [fst snd Z.max]. rewrite Hrec. cbn. rewrite Z.div_1_r. split; [lia|reflexivity].
  - cbn [fst snd]. rewrite iter_shr_1_m, Hrec by (rewrite Hrec; exact Hm).
    rewrite Z.max_r by lia. split; reflexivity.
  - cbn [fst snd]. rewrite Hrec. rewrite Z.max_l by lia.
    rewrite Z.div_1_r. split; [lia|reflexivity].
Qed.

(** Rounding a mantissa of at least 53 bits, in the normal range: the
    result is a number with a 53-bit mantissa, between the truncated
    value and the next one up. *)
Lemma binary_round_aux_normal (sx : bool) (mx : positive) (ex : Z) (lx : location) :
  let d := Z.pos (digits2_pos mx) in
  53 <= d → -1074 <= ex + d - 53 → ex + d - 53 < 971 →
  ∃ m e m1,
    binary_round_aux prec emax sx (Z.pos mx) ex lx = S754_finite sx m e
    ∧ 2 ^ 52 <= Z.pos m < 2 ^ 53
    ∧ ex + d - 53 <= e <= ex + d - 52
    ∧ Z.pos mx / 2 ^ (d - 53) <= m1 <= Z.pos mx / 2 ^ (d - 53) + 1
    ∧ Z.pos m * 2 ^ (e - (ex + d - 53)) = m1.
Proof.
  intros d Hd Hnorm Hover. unfold binary_round_aux.
  pose proof (digits_bounds mx) as [Dlo Dhi]. fold d in Dlo, Dhi.
  destruct (shr_fexp_exact (Z.pos mx) ex lx) as [He1 Hm1]; [lia|].
  cbn [Zdigits2] in He1, Hm1. fold d in He1, Hm1.
  replace (fexp prec emax (d + ex) - ex) with (d - 53) in He1, Hm1
    by (unfold fexp, SpecFloat.emin, prec, emax; lia).
  rewrite Z.max_r in He1, Hm1 by lia.
  destruct (shr_fexp prec emax (Z.pos mx) ex lx) as [mrs' e'].
  cbn [fst snd] in He1, Hm1. subst e'.
  set (m0 := Z.pos mx / 2 ^ (d - 53)) in *.
  assert (Hm0 : 2 ^ 52 <= m0 < 2 ^ 53).
  { assert (Hp : 0 < 2 ^ (d - 53)) by (apply Z.pow_pos_nonneg; lia).
    assert (E1 : 2 ^ (d - 1) = 2 ^ 52 * 2 ^ (d - 53))
      by (rewrite <- Z.pow_add_r by lia; f_equal; lia).
    assert (E2 : 2 ^ d = 2 ^ 53 * 2 ^ (d - 53))
      by (rewrite <- Z.pow_add_r by lia; f_equal; lia).
    subst m0. split.
    - apply Z.div_le_lower_bound; lia.
    - apply Z.div_lt_upper_bound; lia. }
  pose proof (round_nearest_even_bounds (shr_m mrs') (loc_of_shr_record mrs')) as Hr.
  rewrite Hm1 in *.
  set (m1 := round_nearest_even m0 (loc_of_shr_record mrs')) in *.
  destruct (shr_fexp_exact m1 (ex + (d - 53)) loc_Exact) as [He2 Hm2]; [lia|].
  destruct (shr_fexp prec emax m1 (ex + (d - 53)) loc_Exact) as [mrs'' e''].
  cbn [fst snd] in He2, Hm2.
  destruct m1 as [|q|q] eqn:Eq; [lia| |lia].
  cbn [Zdigits2] in He2, Hm2.
  destruct (Z_lt_le_dec (Z.pos q) (2 ^ 53)) as [Hq|Hq].
  - rewrite (digits_unique q 53) in He2, Hm2 by lia.
    replace (fexp prec emax (53 + (ex + (d - 53))) - (ex + (d - 53))) with 0
      in He2, Hm2 by (unfold fexp, SpecFloat.emin, prec, emax; lia).
    change (Z.max 0 0) with 0 in He2, Hm2. change (2 ^ 0) with 1 in Hm2.
    rewrite Z.div_1_r in Hm2. rewrite Hm2, He2.
    replace (ex + (d - 53) + 0 <=? emax - prec) with true
      by (symmetry; apply Z.leb_le; unfold emax, prec; lia).
    exists q, (ex + (d - 53) + 0), (Z.pos q).
    split; [reflexivity|]. split; [lia|]. split; [lia|]. split; [lia|].
    replace (ex + (d - 53) + 0 - (ex + d - 53)) with 0 by lia. lia.
  - assert (Eq53 : Z.pos q = 2 ^ 53) by lia.
    rewrite (digits_unique q 54) in He2, Hm2 by (rewrite Eq53; cbn; lia).
    replace (fexp prec emax (54 + (ex + (d - 53))) - (ex + (d - 53))) with 1
      in He2, Hm2 by (unfold fexp, SpecFloat.emin, prec, emax; lia).
    change (Z.max 0 1) with 1 in He2, Hm2. rewrite Eq53 in Hm2.
    change (2 ^ 53 / 2 ^ 1) with (2 ^ 52) in Hm2. rewrite Hm2, He2.
    change (2 ^ 52) with (Z.pos 4503599627370496).
    replace (ex + (d - 53) + 1 <=? emax - prec) with true
      by (symmetry; apply Z.leb_le; unfold emax, prec; lia).
    exists 4503599627370496%positive, (ex + (d - 53) + 1), (Z.pos q).
    split; [reflexivity|]. split; [cbn; lia|]. split; [lia|]. split; [lia|].
    replace (ex + (d - 53) + 1 - (ex + d - 53)) with 1 by lia.
    rewrite Eq53. reflexivity.
Qed.

Lemma dyadic_scale (m k e : Z) :
  0 <= k → (dyadic (m * 2 ^ k) e == dyadic m (e + k))%Q.
Proof.
  intros Hk. unfold dyadic.
  rewrite inject_Z_mult, <- two_pow_Z, two_pow_add by lia. ring.
Qed.

(** Rounding a value bracketed by a mantissa of at least 53 bits, in
    the normal range: the result is within [2^-52] of the value,
    relatively. *)
Lemma binary_round_aux_close (sx : bool) (mx : positive) (ex : Z) (lx : location)
    (x : Q) :
  let d := Z.pos (digits2_pos mx) in
  53 <= d → -1074 <= ex + d - 53 → ex + d - 53 < 971 →
  (dyadic (Z.pos mx) ex <= x ∧ x <= dyadic (Z.pos mx + 1) ex)%Q →
  ∃ m e,
    binary_round_aux prec emax sx (Z.pos mx) ex lx = S754_finite sx m e
    ∧ 2 ^ 52 <= Z.pos m < 2 ^ 53
    ∧ ex + d - 53 <= e <= ex + d - 52
    ∧ (x - x * Qpower 2 (-52) <= dyadic (Z.pos m) e
       ∧ dyadic (Z.pos m) e <= x + x * Qpower 2 (-52))%Q.
Proof.
  intros d Hd Hnorm Hover [Hlo Hhi].
  destruct (binary_round_aux_normal sx mx ex lx Hd Hnorm Hover)
    as (m & e & m1 & Hres & Hm & He & Hm1 & Hv).
  fold d in He, Hm1, Hv.
  exists m, e. split; [exact Hres|]. split; [exact Hm|]. split; [exact He|].
  set (n := d - 53) in *. set (m0 := Z.pos mx / 2 ^ n) in *.
  assert (Hn : 0 <= n) by (subst n; lia).
  assert (Hp : 0 < 2 ^ n) by (apply Z.pow_pos_nonneg; lia).
  assert (Hdiv : m0 * 2 ^ n <= Z.pos mx < (m0 + 1) * 2 ^ n).
  { pose proof (Z.div_mod (Z.pos mx) (2 ^ n)) as E.
    pose proof (Z.mod_pos_bound (Z.pos mx) (2 ^ n) Hp) as B.
    subst m0. nia. }
  pose proof (digits_bounds mx) as [Dlo Dhi]. fold d in Dlo, Dhi.
  assert (Hm0 : 2 ^ 52 <= m0).
  { assert (E1 : 2 ^ (d - 1) = 2 ^ 52 * 2 ^ n)
      by (rewrite <- Z.pow_add_r by lia; f_equal; subst n; lia).
    subst m0. apply Z.div_le_lower_bound; lia. }
  assert (Er : (dyadic (Z.pos m) e == dyadic m1 (ex + n))%Q).
  { rewrite <- Hv, dyadic_scale by (unfold n; lia).
    replace (ex + n + (e - (ex + d - 53))) with e by (unfold n; lia).
    reflexivity. }
  assert (T1 : (dyadic m0 (ex + n) <= dyadic (Z.pos mx) ex)%Q).
  { rewrite <- dyadic_scale by lia. apply dyadic_mono. lia. }
  assert (T2 : (dyadic (Z.pos mx + 1) ex <= dyadic (m0 + 1) (ex + n))%Q).
  { rewrite <- (dyadic_scale (m0 + 1)) by lia. apply dyadic_mono. lia. }
  assert (R1 : (dyadic m0 (ex + n) <= dyadic m1 (ex + n))%Q)
    by (apply dyadic_mono; lia).
  assert (R2 : (dyadic m1 (ex + n) <= dyadic (m0 + 1) (ex + n))%Q)
    by (apply dyadic_mono; lia).
  assert (U : (dyadic (2 ^ 52) (ex + n) <= dyadic m0 (ex + n))%Q)
    by (apply dyadic_mono; lia).
  rewrite (dyadic_succ m0) in T2, R2.
  assert (EU : (dyadic (2 ^ 52) (ex + n) == 4503599627370496 * Qpower 2 (ex + n))%Q)
    by reflexivity.
  rewrite EU in U.
  change (Qpower 2 (-52)) with (1 # 4503599627370496)%Q.
  rewrite Er.
  pose proof (two_pow_pos (ex + n)).
  split; lra.
Qed.

(** An integer below [2^53] as a number: a 53-bit mantissa. *)
Lemma of_Z_pos (p : positive) :
  Z.pos p < 2 ^ 53 →
  ∃ m e, of_Z (Z.pos p) = S754_finite false m e
         ∧ Z.pos (digits2_pos m) = 53
         ∧ -52 <= e <= 0
         ∧ (dyadic (Z.pos m) e == inject_Z (Z.pos p))%Q.
Proof.
  intros Hp.
  destruct (binary_round_small false p Hp) as (m & E & Hv & Hd).
  pose proof (digits_bounds p) as [Dlo Dhi].
  set (dp := Z.pos (digits2_pos p)) in *.
  assert (Hdp : 1 <= dp) by (subst dp; lia).
  exists m, (dp - 53).
  split; [exact E|]. split; [|split; [lia|]].
  - apply digits_unique. rewrite Hv.
    assert (Hc : 0 < 2 ^ (53 - dp)) by (apply Z.pow_pos_nonneg; lia).
    assert (E1 : 2 ^ 52 = 2 ^ (dp - 1) * 2 ^ (53 - dp))
      by (rewrite <- Z.pow_add_r by lia; f_equal; lia).
    assert (E2 : 2 ^ 53 = 2 ^ dp * 2 ^ (53 - dp))
      by (rewrite <- Z.pow_add_r by lia; f_equal; lia).
    change (53 - 1) with 52. rewrite E1, E2. split; nia.
  - rewrite Hv, dyadic_scale by lia.
    replace (dp - 53 + (53 - dp)) with 0 by lia.
    unfold dyadic. change (Qpower 2 0) with 1%Q. ring.
Qed.

(** The quotient handed to the rounding when both mantissas have 53
    bits: it has 53 or 54 bits and brackets the exact quotient. *)
Lemma div_core_normal (m1 m2 : positive) (e1 e2 : Z) :
  Z.pos (digits2_pos m1) = 53 → Z.pos (digits2_pos m2) = 53 →
  -1021 <= e1 - e2 →
  ∃ q l,
    SFdiv_core_binary prec emax (Z.pos m1) e1 (Z.pos m2) e2
    = (Z.pos q, e1 - e2 - 53, l)
    ∧ 53 <= Z.pos (digits2_pos q) <= 54
    ∧ (dyadic (Z.pos q) (e1 - e2 - 53) * dyadic (Z.pos m2) e2
       <= dyadic (Z.pos m1) e1)%Q
    ∧ (dyadic (Z.pos m1) e1
       <= dyadic (Z.pos q + 1) (e1 - e2 - 53) * dyadic (Z.pos m2) e2)%Q.
Proof.
  intros D1 D2 He. unfold SFdiv_core_binary. cbn [Zdigits2]. rewrite D1, D2.
  replace (Z.min (fexp prec emax (53 + e1 - (53 + e2))) (e1 - e2))
    with (e1 - e2 - 53)
    by (unfold fexp, SpecFloat.emin, prec, emax; lia).
  replace (e1 - e2 - (e1 - e2 - 53)) with 53 by lia.
  rewrite Z.shiftl_mul_pow2 by lia.
  pose proof (digits_bounds m1) as [L1 H1]. rewrite D1 in L1, H1.
  pose proof (digits_bounds m2) as [L2 H2]. rewrite D2 in L2, H2.
  change (53 - 1) with 52 in L1, L2.
  pose proof (Z_div_mod (Z.pos m1 * 2 ^ 53) (Z.pos m2) eq_refl) as Hdiv.
  destruct (Z.div_eucl (Z.pos m1 * 2 ^ 53) (Z.pos m2)) as [q r].
  destruct Hdiv as [Hq Hr].
  assert (Hq52 : 2 ^ 52 <= q < 2 ^ 54) by (split; nia).
  destruct q as [|q|q]; [lia| |lia].
  exists q, (new_location (Z.pos m2) r). split; [reflexivity|].
  split.
  - pose proof (digits_bounds q) as [Lq Uq].
    assert (52 < Z.pos (digits2_pos q))
      by (apply (Z.pow_lt_mono_r_iff 2); lia).
    assert (Z.pos (digits2_pos q) - 1 < 54)
      by (apply (Z.pow_lt_mono_r_iff 2); lia).
    lia.
  - assert (E1 : ∀ k, (dyadic k (e1 - e2 - 53) * dyadic (Z.pos m2) e2
                       == dyadic (k * Z.pos m2) (e1 - 53))%Q).
    { intros k. unfold dyadic. rewrite inject_Z_mult.
      replace (e1 - 53) with ((e1 - e2 - 53) + e2) by lia.
      rewrite two_pow_add. ring. }
    assert (E2 : (dyadic (Z.pos m1) e1 == dyadic (Z.pos m1 * 2 ^ 53) (e1 - 53))%Q).
    { rewrite dyadic_scale by lia. replace (e1 - 53 + 53) with e1 by lia.
      reflexivity. }
    rewrite !E1, E2. split; apply dyadic_mono; lia.
Qed.

(** The quotient of two integers below [2^53], the first not above the
    second: a number within [2^-52], relatively, of the exact quotient. *)
Lemma div_close (p t : positive) :
  Z.pos p <= Z.pos t → Z.pos t < 2 ^ 53 →
  ∃ m e, div (of_Z (Z.pos p)) (of_Z (Z.pos t)) = S754_finite false m e
         ∧ 2 ^ 52 <= Z.pos m < 2 ^ 53
         ∧ -105 <= e <= 1
         ∧ (inject_Z (Z.pos p) / inject_Z (Z.pos t)
            - inject_Z (Z.pos p) / inject_Z (Z.pos t) * Qpower 2 (-52)
            <= dyadic (Z.pos m) e
            ∧ dyadic (Z.pos m) e
              <= inject_Z (Z.pos p) / inject_Z (Z.pos t)
                 + inject_Z (Z.pos p) / inject_Z (Z.pos t) * Qpower 2 (-52))%Q.
Proof.
  intros Hpt Ht.
  destruct (of_Z_pos p) as (m1 & e1 & -> & D1 & He1 & V1); [lia|].
  destruct (of_Z_pos t Ht) as (m2 & e2 & -> & D2 & He2 & V2).
  unfold div, SFdiv.
  destruct (div_core_normal m1 m2 e1 e2 D1 D2) as (q & l & -> & Dq & Lo & Hi);
    [lia|].
  cbn [xorb].
  assert (Ht0 : (0 < inject_Z (Z.pos t))%Q)
    by (change 0%Q with (inject_Z 0); rewrite <- Zlt_Qlt; lia).
  set (x := (inject_Z (Z.pos p) / inject_Z (Z.pos t))%Q).
  assert (Hx : (x * inject_Z (Z.pos t) == inject_Z (Z.pos p))%Q).
  { subst x. field. intros H0. rewrite H0 in Ht0. apply (Qlt_irrefl 0), Ht0. }
  rewrite V1, V2, <- Hx in Lo, Hi.
  apply Qmult_le_r in Lo; [|exact Ht0]. apply Qmult_le_r in Hi; [|exact Ht0].
  destruct (binary_round_aux_close false q (e1 - e2 - 53) l x)
    as (m & e & -> & Hm & He & Hc); [lia..|split; assumption|].
  exists m, e. split; [reflexivity|]. split; [exact Hm|]. split; [lia|].
  exact Hc.
Qed.

(** A number with a 53-bit mantissa, of moderate size, times 100: a
    number within [2^-52], relatively, of the exact product. *)
Lemma mul_hundred_close (m : positive) (e : Z) :
  2 ^ 52 <= Z.pos m < 2 ^ 53 → -105 <= e <= 1 →
  ∃ m' e', mul (S754_finite false m e) (of_Z 100) = S754_finite false m' e'
           ∧ (dyadic (Z.pos m) e * 100 - dyadic (Z.pos m) e * 100 * Qpower 2 (-52)
              <= dyadic (Z.pos m') e'
              ∧ dyadic (Z.pos m') e'
                <= dyadic (Z.pos m) e * 100
                   + dyadic (Z.pos m) e * 100 * Qpower 2 (-52))%Q.
Proof.
  intros Hm He. destruct hundred_exact as [E100 V100]. rewrite E100.
  unfold mul, SFmul. cbn [xorb].
  set (mx := (m * 7036874417766400)%positive).
  assert (Hmx : 2 ^ 104 <= Z.pos mx < 2 ^ 106).
  { subst mx. rewrite Pos2Z.inj_mul.
    change (2 ^ 104) with (2 ^ 52 * 4503599627370496).
    change (2 ^ 106) with (2 ^ 53 * 9007199254740992). split; nia. }
  pose proof (digits_bounds mx) as [Lq Uq].
  assert (104 < Z.pos (digits2_pos mx))
    by (apply (Z.pow_lt_mono_r_iff 2); lia).
  assert (Z.pos (digits2_pos mx) - 1 < 106)
    by (apply (Z.pow_lt_mono_r_iff 2); lia).
  assert (E : (dyadic (Z.pos mx) (e + -46) == dyadic (Z.pos m) e * 100)%Q).
  { rewrite <- V100. subst mx. unfold dyadic.
    rewrite Pos2Z.inj_mul, inject_Z_mult, two_pow_add. ring. }
  destruct (binary_round_aux_close false mx (e + -46) loc_Exact
              (dyadic (Z.pos m) e * 100)%Q)
    as (m' & e' & -> & _ & _ & Hc); [lia..| |].
  - rewrite <- E. split; [apply Qle_refl|]. apply dyadic_mono. lia.
  - exists m', e'. split; [reflexivity | exact Hc].
Qed.

(** The computed percentage is within [2^-44] of the exact one. *)
Lemma percentage_close (st : statistics) :
  0 <= successfulTriggers st <= totalTriggers st →
  0 < totalTriggers st < 2 ^ 53 →
  (exact_percentage st - percentage_error <= to_Q (percentage st)
   ∧ to_Q (percentage st) <= exact_percentage st + percentage_error)%Q.
Proof.
  intros Hs Ht. unfold percentage, exact_percentage, percentage_error.
  destruct (totalTriggers st) as [|t|t]; [lia| |lia].
  destruct (successfulTriggers st) as [|p|p]; [| |lia].
  - destruct (of_Z_pos t) as (m2 & e2 & -> & _); [lia|].
    destruct hundred_exact as [-> _]. cbn [of_Z to_Q].
    change (to_Q (mul (div (of_Z 0) (S754_finite false m2 e2))
                    (S754_finite false 7036874417766400 (-46)))) with 0%Q.
    assert (E : (inject_Z 0 / inject_Z (Z.pos t) * 100 == 0)%Q)
      by (unfold Qdiv; change (inject_Z 0) with 0%Q; ring).
    rewrite E. split; [apply closed_Qle | apply closed_Qle]; reflexivity.
  - destruct (div_close p t) as (m & e & -> & Hm & He & Hd); [lia..|].
    destruct (mul_hundred_close m e Hm He) as (m' & e' & -> & Hp).
    cbn [to_Q]. fold (dyadic (Z.pos m') e').
    set (x := (inject_Z (Z.pos p) / inject_Z (Z.pos t))%Q) in *.
    assert (Ht0 : (0 < inject_Z (Z.pos t))%Q)
      by (change 0%Q with (inject_Z 0); rewrite <- Zlt_Qlt; lia).
    assert (Hx0 : (0 <= x)%Q).
    { subst x. apply Qle_shift_div_l; [exact Ht0|]. rewrite Qmult_0_l.
      change 0%Q with (inject_Z 0). rewrite <- Zle_Qle. lia. }
    assert (Hx1 : (x <= 1)%Q).
    { subst x. apply Qle_shift_div_r; [exact Ht0|]. rewrite Qmult_1_l.
      rewrite <- Zle_Qle. lia. }
    change (Qpower 2 (-52)) with (1 # 4503599627370496)%Q in *.
    change (Qpower 2 (-44)) with (1 # 17592186044416)%Q.
    destruct Hd as [Hd1 Hd2]. destruct Hp as [Hp1 Hp2].
    split; lra.
Qed.

End RoundingFacts.

(** ** Properties of the effect model *)
Module EffectsFacts.
Import JS Effects.

Lemma http_calls_app (t1 t2 : list event) :
  http_calls (t1 ++ t2) = http_calls t1 ++ http_calls t2.
Proof. apply List.filter_app. Qed.

Lemma http_calls_post url headers body (t : list event) :
  http_calls (HttpPost url headers body :: t)
  = HttpPost url headers body :: http_calls t.
Proof. reflexivity. Qed.

Lemma http_calls_console l m (t : list event) :
  http_calls (Console l m :: t) = http_calls t.
Proof. reflexivity. Qed.

Section Quiet.
Context {S : Type}.

Lemma quiet_ret {A} (a : A) : quiet (mret a : M S A).
Proof. intros s. exists (Normal a), []. repeat split; discriminate. Qed.

Lemma quiet_throw {A} (e : js_error) : quiet (mthrow e : M S A).
Proof. intros s. exists (Throw e), []. repeat split; discriminate. Qed.

Lemma quiet_console (l : level) (m : message) : quiet (console l m : M S ()).
Proof. intros s. exists (Normal ()), [Console l m]. repeat split; discriminate. Qed.

Lemma quiet_await {A} (p : settled A) : quiet (await p : M S A).
Proof. destruct p; [apply quiet_ret | apply quiet_throw]. Qed.

Lemma quiet_bind {A B} (m : M S A) (f : A → M S B) :
  quiet m → (∀ a, quiet (f a)) → quiet (m ≫= f).
Proof.
  intros Hm Hf s. destruct (Hm s) as (c & t & Em & Hq & Hx).
  unfold mbind, M_bind. rewrite Em. destruct c as [a|e|code].
  - destruct (Hf a s) as (c' & t' & Ef & Hq' & Hx'). rewrite Ef.
    exists c', (t ++ t'). split; [reflexivity|]. split; [|exact Hx'].
    rewrite http_calls_app, Hq, Hq'. reflexivity.
  - exists (Throw e), t. repeat split; [exact Hq | discriminate].
  - exfalso. exact (Hx code eq_refl).
Qed.

(** A quiet [try] block with a quiet handler that returns: the whole
    statement returns. *)
Lemma try_catch_returns (m : M S ()) (h : js_error → M S ()) (s : S) :
  quiet m →
  (∀ e s', ∃ t, h e s' = (Normal (), s', t) ∧ http_calls t = []) →
  ∃ t, try_catch m h s = (Normal (), s, t) ∧ http_calls t = [].
Proof.
  intros Hm Hh. destruct (Hm s) as (c & t & Em & Hq & Hx).
  unfold try_catch. rewrite Em. destruct c as [[]|e|code].
  - exists t. split; [reflexivity | exact Hq].
  - destruct (Hh e s) as (t' & Eh & Hq'). rewrite Eh.
    exists (t ++ t'). split; [reflexivity|].
    rewrite http_calls_app, Hq, Hq'. reflexivity.
  - exfalso. exact (Hx code eq_refl).
Qed.

End Quiet.
End EffectsFacts.

(** ** Properties of the single-endpoint variant *)
Module SchedulerFacts.
Import JS Effects Config Scheduler Samples Accounting.
Import EffectsFacts FloatFacts RoundingFacts.

Lemma triggerScheduler_cases (endpointUrl secret : string) (a : attempt)
    (st : statistics) :
  ∃ st' t,
    triggerScheduler endpointUrl secret a st
      = (Normal (), st',
         [Console Log (MsgTriggering endpointUrl (started a));
          HttpPost endpointUrl (request_headers secret) (Some "{}")] ++ t
         ++ [Console Log (MsgStatistics (totalTriggers st') (successfulTriggers st')
                                        (failedTriggers st') (success_rate st'))])
    ∧ http_calls t = []
    ∧ trigger_case a st st'.
Proof.
  destruct a as [t0 t1 [r|e]]; unfold triggerScheduler, print_statistics;
    cbn [outcome started finished].
  - destruct r as [code txt body_j body_t]; run_M.
    destruct (ok _) eqn:Hok; run_M.
    + destruct body_j as [v|e]; run_M.
      * eexists _, [_]; split; [reflexivity|]. split; [reflexivity|].
        eapply case_success; eauto.
      * eexists _, [_]; split; [reflexivity|]. split; [reflexivity|].
        eapply case_bad_body; eauto.
    + destruct body_t as [x|e]; run_M.
      * eexists _, [_]; split; [reflexivity|]. split; [reflexivity|].
        eapply case_http_failure; eauto.
      * eexists _, [_]; split; [reflexivity|]. split; [reflexivity|].
        eapply case_http_failure_body_lost; eauto.
  - run_M. eexists _, [_]; split; [reflexivity|]. split; [reflexivity|].
    eapply case_request_error; eauto.
Qed.

Lemma trigger_case_total (a : attempt) (st st' : statistics) :
  trigger_case a st st' → totalTriggers st' = totalTriggers st + 1.
Proof. destruct 1; subst; reflexivity. Qed.

(** Away from the lost error body, one invocation keeps the counters
    balanced. *)
Lemma balanced_preserved (a : attempt) (st st' : statistics) :
  trigger_case a st st' →
  (∀ r e, outcome a = Fulfilled r → ok r = false → text_body r ≠ Rejected e) →
  balanced st → balanced st'.
Proof.
  unfold balanced. intros Hcase Hbody Hbal.
  destruct Hcase as [r v ? ? ? ->|r e ? ? ? ->|r x ? ? ? ->|r e Ho Hk Ht ->|e ? ->];
    cbn; try lia.
  exfalso. exact (Hbody r e Ho Hk Ht).
Qed.

(** With the error body lost, the failure is counted twice. *)
Lemma body_lost_counts_twice (a : attempt) (st st' : statistics) r e :
  trigger_case a st st' →
  outcome a = Fulfilled r → ok r = false → text_body r = Rejected e →
  totalTriggers st' = totalTriggers st + 1
  ∧ successfulTriggers st' = successfulTriggers st
  ∧ failedTriggers st' = failedTriggers st + 2.
Proof.
  intros Hcase Ho Hk Ht.
  destruct Hcase as [r' v Ho' Hk' ? ->|r' e' Ho' Hk' ? ->|r' x Ho' Hk' Ht' ->
                    |r' e' Ho' Hk' Ht' ->|e' Ho' ->];
    rewrite Ho in Ho'; try discriminate; injection Ho' as <-;
    try congruence; cbn; repeat split; lia.
Qed.

(** C1 (the code departs from the claim): a non-2xx response whose
    body cannot be read is counted as two failures for one trigger.
    After that single invocation [totalTriggers] is 1 and
    [failedTriggers] is 2, so [totalTriggers] is not
    [successfulTriggers + failedTriggers]. *)
Theorem failed_body_read_counted_twice :
  ∃ st' t,
    triggerScheduler "http://localhost/api/scheduler/trigger" "s3cret"
      (at_time 0 (Fulfilled response_500_body_lost)) initial
    = (Normal (), st', t)
    ∧ totalTriggers st' = 1
    ∧ successfulTriggers st' = 0
    ∧ failedTriggers st' = 2
    ∧ ¬ balanced st'.
Proof.
  eexists _, _. split; [vm_compute; reflexivity|].
  unfold balanced; cbn. repeat split; lia.
Qed.

Lemma ticks_return (endpointUrl secret : string) (l : list attempt) :
  ∀ st, ∃ st' t,
    ticks (triggerScheduler endpointUrl secret) l st = (Normal (), st', t)
    ∧ length (http_calls t) = length l.
Proof.
  induction l as [|a l IH]; intros st.
  - exists st, []. split; reflexivity.
  - destruct (triggerScheduler_cases endpointUrl secret a st)
      as (st1 & t1 & Hrun & Hquiet & _).
    destruct (IH st1) as (st2 & t2 & Hrest & Hlen).
    cbn [ticks]. run_M. rewrite Hrun, Hrest.
    eexists _, _. split; [reflexivity|].
    rewrite !http_calls_app, Hquiet. cbn. rewrite Hlen. reflexivity.
Qed.

(** After [N] ticks the total has grown by [N]. *)
Lemma ticks_total (endpointUrl secret : string) (l : list attempt) :
  ∀ st st' t,
    ticks (triggerScheduler endpointUrl secret) l st = (Normal (), st', t) →
    totalTriggers st' = totalTriggers st + Z.of_nat (length l).
Proof.
  induction l as [|a l IH]; intros st st' t.
  - cbn. intros [= <- _]. lia.
  - destruct (triggerScheduler_cases endpointUrl secret a st)
      as (st1 & t1 & Hrun & _ & Hcase).
    cbn [ticks]. run_M. rewrite Hrun.
    destruct (ticks _ l st1) as [[c st2] t2] eqn:Hrest. intros [= -> -> _].
    rewrite (IH _ _ _ Hrest), (trigger_case_total _ _ _ Hcase).
    cbn [length]. lia.
Qed.

(** As long as no error body is lost, the counters stay balanced over
    any number of ticks. *)
Lemma ticks_balanced (endpointUrl secret : string) (l : list attempt) :
  Forall (λ a, ∀ r e, outcome a = Fulfilled r → ok r = false →
                      text_body r ≠ Rejected e) l →
  ∀ st st' t,
    ticks (triggerScheduler endpointUrl secret) l st = (Normal (), st', t) →
    balanced st → balanced st'.
Proof.
  induction 1 as [|a l Ha _ IH]; intros st st' t.
  - cbn. intros [= <- _]. auto.
  - destruct (triggerScheduler_cases endpointUrl secret a st)
      as (st1 & t1 & Hrun & _ & Hcase).
    cbn [ticks]. run_M. rewrite Hrun.
    destruct (ticks _ l st1) as [[c st2] t2] eqn:Hrest. intros [= -> -> _] Hbal.
    eapply IH; [exact Hrest|]. eapply balanced_preserved; eauto.
Qed.

(** C2: [triggerScheduler] never throws, and every failure becomes a
    statistics update and a diagnostic line.  Whatever the request does
    (transport error, any status, unreadable or malformed body), the
    call returns normally after four events: the announcement, its one
    HTTP request, the line about the outcome, and the statistics as
    they now stand.  The total has grown by one and the time of the
    attempt is recorded.  After a 2xx response whose body parsed the
    outcome line is the success report and the successes have grown by
    one; after anything else the outcome line is written to the error
    stream, the status is [failed], the successes are unchanged and the
    failures have grown (by one, by two when the body of a non-2xx
    response could not be read).  Hence any number of timer ticks run
    one after the other all return normally, each makes its request
    and each is counted: no tick ends the process or keeps a later one
    from running. *)
Theorem triggerScheduler_never_throws (endpointUrl secret : string) :
  (∀ a st, ∃ st' t,
      triggerScheduler endpointUrl secret a st = (Normal (), st', t)
      ∧ http_calls t = [HttpPost endpointUrl (request_headers secret) (Some "{}")]
      ∧ t = [Console Log (MsgTriggering endpointUrl (started a));
             HttpPost endpointUrl (request_headers secret) (Some "{}");
             outcome_report a;
             Console Log (MsgStatistics (totalTriggers st') (successfulTriggers st')
                            (failedTriggers st') (success_rate st'))]
      ∧ totalTriggers st' = totalTriggers st + 1
      ∧ lastTriggerTime st' = Some (started a)
      ∧ if succeeds a
        then (∃ v, outcome_report a
                   = Console Log (MsgTriggerSuccessful (finished a - started a) v))
             ∧ lastStatus st' = Some success
             ∧ successfulTriggers st' = successfulTriggers st + 1
             ∧ failedTriggers st' = failedTriggers st
        else (∃ m, outcome_report a = Console Error m)
             ∧ lastStatus st' = Some failed
             ∧ successfulTriggers st' = successfulTriggers st
             ∧ failedTriggers st'
               = failedTriggers st + 1 + (if error_body_lost a then 1 else 0))
  ∧ (∀ l st, ∃ st' t,
        ticks (triggerScheduler endpointUrl secret) l st = (Normal (), st', t)
        ∧ length (http_calls t) = length l
        ∧ totalTriggers st' = totalTriggers st + Z.of_nat (length l)).
Proof.
  split.
  - intros a st.
    destruct a as [t0 t1 [r|e]];
      unfold triggerScheduler, print_statistics, outcome_report, succeeds,
        error_body_lost;
      cbn [outcome started finished].
    + destruct r as [code txt body_j body_t]; run_M.
      destruct (ok _) eqn:Hok; run_M.
      * destruct body_j as [v|e]; run_M; eexists _, _;
          (split; [reflexivity|]); (split; [reflexivity|]);
          (split; [reflexivity|]); (split; [reflexivity|]);
          (split; [reflexivity|]); cbn; repeat split; eauto; lia.
      * destruct body_t as [x|e]; run_M; eexists _, _;
          (split; [reflexivity|]); (split; [reflexivity|]);
          (split; [reflexivity|]); (split; [reflexivity|]);
          (split; [reflexivity|]); cbn; repeat split; eauto; lia.
    + run_M. eexists _, _.
      (split; [reflexivity|]); (split; [reflexivity|]);
      (split; [reflexivity|]); (split; [reflexivity|]);
      (split; [reflexivity|]); cbn; repeat split; eauto; lia.
  - intros l st. destruct (ticks_return endpointUrl secret l st)
      as (st' & t & Hrun & Hlen).
    exists st', t. split; [exact Hrun|]. split; [exact Hlen|].
    eapply ticks_total, Hrun.
Qed.

(** C4 as stated fails: a 200 response whose body is not JSON is
    counted as a failure, not as a success. *)
Lemma not_json_200_counted_failed :
  ∃ st' t,
    triggerScheduler "http://localhost/api/scheduler/trigger" "s3cret"
      (at_time 0 (Fulfilled response_200_not_json)) initial
    = (Normal (), st', t)
    ∧ ok response_200_not_json = true
    ∧ successfulTriggers st' = 0
    ∧ failedTriggers st' = 1
    ∧ lastStatus st' = Some failed.
Proof. eexists _, _. split; [vm_compute; reflexivity|]. repeat split. Qed.

(** C4, amended: for every 2xx response whose body parses as JSON,
    whatever the parsed value is, the attempt is counted as a success
    ([successfulTriggers] one more, [failedTriggers] unchanged,
    [lastStatus] success); a 2xx response whose body does not parse
    is counted as a failure. *)
Theorem ok_response_counted_by_body (endpointUrl secret : string)
    (a : attempt) (st : statistics) (r : response) :
  outcome a = Fulfilled r → ok r = true →
  ∃ st' t,
    triggerScheduler endpointUrl secret a st = (Normal (), st', t)
    ∧ totalTriggers st' = totalTriggers st + 1
    ∧ match json_body r with
      | Fulfilled _ =>
          successfulTriggers st' = successfulTriggers st + 1
          ∧ failedTriggers st' = failedTriggers st
          ∧ lastStatus st' = Some success
      | Rejected _ =>
          successfulTriggers st' = successfulTriggers st
          ∧ failedTriggers st' = failedTriggers st + 1
          ∧ lastStatus st' = Some failed
      end.
Proof.
  intros Ho Hk.
  destruct (triggerScheduler_cases endpointUrl secret a st)
    as (st' & t & Hrun & _ & Hcase).
  exists st'. eexists. split; [exact Hrun|].
  split; [eapply trigger_case_total; eassumption|].
  destruct Hcase as [r' v Ho' Hk' Hj ->|r' e' Ho' Hk' Hj ->|r' x Ho' Hk' Ht' ->
                    |r' e' Ho' Hk' Ht' ->|e' Ho' ->];
    rewrite Ho in Ho'; try discriminate; injection Ho' as <-;
    try congruence; rewrite Hj; cbn; auto.
Qed.

Lemma ok_response_counted_by_body_witness :
  ∃ st' t,
    triggerScheduler "u" "s" (at_time 0 (Fulfilled response_200_empty_object)) initial
    = (Normal (), st', t)
    ∧ totalTriggers st' = totalTriggers initial + 1
    ∧ successfulTriggers st' = successfulTriggers initial + 1
    ∧ failedTriggers st' = failedTriggers initial
    ∧ lastStatus st' = Some success.
Proof.
  exact (ok_response_counted_by_body "u" "s"
           (at_time 0 (Fulfilled response_200_empty_object)) initial
           response_200_empty_object eq_refl eq_refl).
Defined.

(** [nearest_tenths q] is the integer nearest to [10 q], the larger
    one when two are equally near. *)
Lemma nearest_tenths_spec (q : Q) :
  (inject_Z (nearest_tenths q) - (1 # 2) <= q * 10
   ∧ q * 10 < inject_Z (nearest_tenths q) + (1 # 2))%Q.
Proof.
  unfold nearest_tenths.
  pose proof (Qfloor_le (q * 10 + (1 # 2))) as Hle.
  pose proof (Qlt_floor (q * 10 + (1 # 2))) as Hlt.
  rewrite inject_Z_plus in Hlt. change (inject_Z 1) with 1%Q in Hlt.
  split; lra.
Qed.

Lemma toFixed1_rounds (x : number) :
  match x with
  | S754_zero _ => True
  | S754_finite false _ _ => (to_Q x < pow10 21)%Q
  | _ => False
  end →
  toFixed1 x = tenths_text (nearest_tenths (to_Q x)).
Proof.
  destruct x as [sgn| | |[|] m e]; try contradiction.
  - intros _. reflexivity.
  - intros Hlt. unfold toFixed1, to_Q in *.
    destruct (Qle_bool _ _) eqn:Hle; [|reflexivity].
    apply Qle_bool_iff in Hle. exfalso. lra.
Qed.

(** The rate follows the binary64 product, not the exact quotient: 1
    of 16 is exactly 6.25 and prints as 6.3 (a tie goes up), while 23
    of 80, 28.75 in exact arithmetic, is a product just below 28.75 and
    prints as 28.7. *)
Example success_rate_at_ties :
  success_rate (with_counts 1 16) = "6.3"
  ∧ success_rate (with_counts 23 80) = "28.7"
  ∧ (to_Q (percentage (with_counts 23 80)) < 2875 # 100)%Q.
Proof. vm_compute. repeat split. Qed.

(** One invocation keeps the successes within the total. *)
Lemma trigger_case_successes (a : attempt) (st st' : statistics) :
  trigger_case a st st' →
  0 <= successfulTriggers st <= totalTriggers st →
  0 <= successfulTriggers st' <= totalTriggers st'.
Proof. destruct 1; subst; cbn; lia. Qed.

Lemma tenths_unique (q : Q) (n : Z) :
  (inject_Z n - (1 # 2) <= q * 10 ∧ q * 10 < inject_Z n + (1 # 2))%Q →
  nearest_tenths q = n.
Proof.
  intros [Hlo Hhi]. unfold nearest_tenths.
  pose proof (Qfloor_le (q * 10 + (1 # 2))) as Fle.
  pose proof (Qlt_floor (q * 10 + (1 # 2))) as Flt.
  set (f := Qfloor (q * 10 + (1 # 2))) in *.
  assert (H1 : (inject_Z f < inject_Z (n + 1))%Q)
    by (rewrite inject_Z_plus; change (inject_Z 1) with 1%Q; lra).
  assert (H2 : (inject_Z n < inject_Z (f + 1))%Q) by lra.
  rewrite <- Zlt_Qlt in H1, H2. lia.
Qed.

(** C5, amended: the reported success rate is [0] when [totalTriggers]
    is 0, the division being evaluated only when [totalTriggers > 0].
    Otherwise, for counters with [successfulTriggers <= totalTriggers]
    that numbers hold exactly (below [2^53]), the rate shows the tenths
    [n] nearest to the value the program computes for
    [(successfulTriggers / totalTriggers) * 100] on binary64 numbers,
    the larger at a tie.  That computed value is within [2^-44] of the
    exact percentage, so the rate shown is within [0.05 + 2^-44] of the
    exact percentage; and it is the exact percentage rounded to one
    decimal place whenever the exact percentage lies at least [2^-44]
    away from the two ends of its rounding interval.  Every report
    made by [triggerScheduler] has a positive total and shows such a
    rate. *)
Theorem success_rate_rounded :
  (∀ st, totalTriggers st = 0 → success_rate st = "0")
  ∧ (∀ st, 0 <= successfulTriggers st <= totalTriggers st →
           0 < totalTriggers st < 2 ^ 53 →
       ∃ n, success_rate st = tenths_text n
            ∧ (inject_Z n - (1 # 2) <= to_Q (percentage st) * 10
               ∧ to_Q (percentage st) * 10 < inject_Z n + (1 # 2))%Q
            ∧ (exact_percentage st - percentage_error <= to_Q (percentage st)
               ∧ to_Q (percentage st) <= exact_percentage st + percentage_error)%Q
            ∧ (inject_Z n - (1 # 2) - 10 * percentage_error
               <= exact_percentage st * 10
               ∧ exact_percentage st * 10
                 < inject_Z n + (1 # 2) + 10 * percentage_error)%Q
            ∧ ∀ k, (inject_Z k - (1 # 2) + 10 * percentage_error
                    <= exact_percentage st * 10
                    ∧ exact_percentage st * 10
                      < inject_Z k + (1 # 2) - 10 * percentage_error)%Q →
                   n = k ∧ success_rate st = rounded_exact_rate false st)
  ∧ (∀ endpointUrl secret a st,
       0 <= successfulTriggers st <= totalTriggers st →
       totalTriggers st + 1 < 2 ^ 53 →
       ∃ st' t n,
         triggerScheduler endpointUrl secret a st
         = (Normal (), st',
            t ++ [Console Log (MsgStatistics (totalTriggers st')
                    (successfulTriggers st') (failedTriggers st')
                    (tenths_text n))])
         ∧ 0 < totalTriggers st'
         ∧ (inject_Z n - (1 # 2) <= to_Q (percentage st') * 10
            ∧ to_Q (percentage st') * 10 < inject_Z n + (1 # 2))%Q
         ∧ (inject_Z n - (1 # 2) - 10 * percentage_error
            <= exact_percentage st' * 10
            ∧ exact_percentage st' * 10
              < inject_Z n + (1 # 2) + 10 * percentage_error)%Q).
Proof.
  assert (Hpos : ∀ st, 0 <= successfulTriggers st <= totalTriggers st →
                       0 < totalTriggers st < 2 ^ 53 →
                       success_rate st
                       = tenths_text (nearest_tenths (to_Q (percentage st)))).
  { intros st Hs Ht. unfold success_rate.
    destruct (0 <? totalTriggers st) eqn:E; [|apply Z.ltb_ge in E; lia].
    apply toFixed1_rounds. pose proof (percentage_in_range st Hs Ht) as Hr.
    destruct (percentage st) as [| | |[|] m e]; auto. }
  assert (Hnear : ∀ st, 0 <= successfulTriggers st <= totalTriggers st →
                        0 < totalTriggers st < 2 ^ 53 →
                        (inject_Z (nearest_tenths (to_Q (percentage st))) - (1 # 2)
                           - 10 * percentage_error
                         <= exact_percentage st * 10
                         ∧ exact_percentage st * 10
                           < inject_Z (nearest_tenths (to_Q (percentage st)))
                             + (1 # 2) + 10 * percentage_error)%Q).
  { intros st Hs Ht.
    pose proof (nearest_tenths_spec (to_Q (percentage st))) as [N1 N2].
    pose proof (percentage_close st Hs Ht) as [C1 C2].
    split; lra. }
  split; [|split].
  - intros st H0. unfold success_rate. rewrite H0. reflexivity.
  - intros st Hs Ht. eexists. split; [apply Hpos; assumption|].
    split; [apply nearest_tenths_spec|].
    split; [apply percentage_close; assumption|].
    split; [apply Hnear; assumption|].
    intros k [K1 K2].
    pose proof (percentage_close st Hs Ht) as [C1 C2].
    assert (Hk : nearest_tenths (to_Q (percentage st)) = k)
      by (apply tenths_unique; split; lra).
    split; [exact Hk|].
    rewrite Hpos, Hk by assumption. unfold rounded_exact_rate.
    destruct (totalTriggers st =? 0) eqn:E0; [apply Z.eqb_eq in E0; lia|].
    f_equal. symmetry. apply tenths_unique.
    assert (0 < percentage_error)%Q by reflexivity.
    split; lra.
  - intros endpointUrl secret a st Hs Ht.
    destruct (triggerScheduler_cases endpointUrl secret a st)
      as (st' & t & Hrun & _ & Hcase).
    pose proof (trigger_case_successes a st st' Hcase Hs) as Hs'.
    apply trigger_case_total in Hcase.
    exists st'. eexists. exists (nearest_tenths (to_Q (percentage st'))).
    split; [|split; [lia | split; [apply nearest_tenths_spec|apply Hnear; lia]]].
    rewrite Hrun, app_assoc, Hpos by lia. reflexivity.
Qed.

Lemma success_rate_rounded_witness :
  success_rate initial = "0"
  ∧ (∃ n, success_rate one_of_three = tenths_text n
          ∧ (inject_Z n - (1 # 2) <= to_Q (percentage one_of_three) * 10
             ∧ to_Q (percentage one_of_three) * 10 < inject_Z n + (1 # 2))%Q
          ∧ (exact_percentage one_of_three - percentage_error
             <= to_Q (percentage one_of_three)
             ∧ to_Q (percentage one_of_three)
               <= exact_percentage one_of_three + percentage_error)%Q
          ∧ (inject_Z n - (1 # 2) - 10 * percentage_error
             <= exact_percentage one_of_three * 10
             ∧ exact_percentage one_of_three * 10
               < inject_Z n + (1 # 2) + 10 * percentage_error)%Q
          ∧ n = 333
          ∧ success_rate one_of_three = rounded_exact_rate false one_of_three)
  ∧ ∃ st' t n,
      triggerScheduler "u" "s" (at_time 0 (Fulfilled response_500)) one_of_three
      = (Normal (), st',
         t ++ [Console Log (MsgStatistics (totalTriggers st')
                 (successfulTriggers st') (failedTriggers st')
                 (tenths_text n))])
      ∧ 0 < totalTriggers st'
      ∧ (inject_Z n - (1 # 2) <= to_Q (percentage st') * 10
         ∧ to_Q (percentage st') * 10 < inject_Z n + (1 # 2))%Q
      ∧ (inject_Z n - (1 # 2) - 10 * percentage_error
         <= exact_percentage st' * 10
         ∧ exact_percentage st' * 10
           < inject_Z n + (1 # 2) + 10 * percentage_error)%Q.
Proof.
  destruct success_rate_rounded as (Hzero & Hpos & Hreport).
  split; [apply Hzero; reflexivity|].
  split.
  - destruct (Hpos one_of_three) as (n & Hn & Hc & Hx & Hb & Hk);
      [cbn; lia | cbn; lia |].
    exists n. do 4 (split; [assumption|]).
    apply (Hk 333). split; [apply closed_Qle|]; vm_compute; reflexivity.
  - apply Hreport; cbn; lia.
Defined.

(** C5 as stated fails: the rate is not the exact percentage rounded
    to one decimal place.  23 successes out of 80 are 28.75 percent
    exactly, which rounds to 28.8 whether a tie goes up or to the even
    digit, but the program computes a product just below 28.75 and
    shows 28.7; 1 out of 16 is 6.25 exactly and is shown as 6.3, not
    as the 6.2 of rounding to even.  The counters 23 of 80 are reached
    by 23 successful and 57 refused requests. *)
Lemma rate_not_exact_rounding :
  (exact_percentage (with_counts 23 80) == 2875 # 100)%Q
  ∧ success_rate (with_counts 23 80) = "28.7"
  ∧ rounded_exact_rate false (with_counts 23 80) = "28.8"
  ∧ rounded_exact_rate true (with_counts 23 80) = "28.8"
  ∧ (exact_percentage (with_counts 1 16) == 625 # 100)%Q
  ∧ success_rate (with_counts 1 16) = "6.3"
  ∧ rounded_exact_rate true (with_counts 1 16) = "6.2"
  ∧ ∃ st' t,
      ticks (triggerScheduler "u" "s")
        (repeat (at_time 0 (Fulfilled response_200_empty_object)) 23
         ++ repeat (at_time 0 refused) 57) initial
      = (Normal (), st', t)
      ∧ totalTriggers st' = 80 ∧ successfulTriggers st' = 23
      ∧ List.last t (Console Log MsgBanner)
        = Console Log (MsgStatistics 80 23 57 "28.7").
Proof.
  split; [reflexivity|]. split; [vm_compute; reflexivity|].
  split; [vm_compute; reflexivity|]. split; [vm_compute; reflexivity|].
  split; [reflexivity|]. split; [vm_compute; reflexivity|].
  split; [vm_compute; reflexivity|].
  eexists _, _. split; [vm_compute; reflexivity|].
  split; [reflexivity|]. split; [reflexivity|]. vm_compute. reflexivity.
Qed.

(** C3: with [SCHEDULER_SECRET] unset or empty, [loadConfig] ends the
    process with exit code 1, and so does the whole service, before any
    HTTP request is made; with a non-empty secret, [loadConfig] returns
    a configuration that holds that secret. *)
Theorem loadConfig_requires_secret (env : gmap string string)
    (first : attempt) (rest : list attempt) (st : statistics) :
  (env !! "SCHEDULER_SECRET" = None ∨ env !! "SCHEDULER_SECRET" = Some "" →
   loadConfig env st = (Exit 1, st, [Console Error MsgSecretRequired])
   ∧ ∃ t, service env first rest st = (Exit 1, st, t) ∧ http_calls t = [])
  ∧ (∀ secret, env !! "SCHEDULER_SECRET" = Some secret → secret ≠ "" →
     ∃ config, loadConfig env st = (Normal config, st, [])
               ∧ schedulerSecret config = secret).
Proof.
  split.
  - intros Hsecret.
    assert (Hexit : loadConfig env st
                    = (Exit 1, st, [Console Error MsgSecretRequired])).
    { unfold loadConfig. destruct Hsecret as [-> | ->]; reflexivity. }
    split; [exact Hexit|].
    unfold service, start_service, main. run_M. rewrite Hexit.
    eexists. split; reflexivity.
  - intros secret Hsecret Hne. unfold loadConfig. rewrite Hsecret.
    destruct secret as [|c secret]; [congruence|].
    eexists. split; reflexivity.
Qed.

Lemma loadConfig_requires_secret_witness :
  (loadConfig ∅ initial = (Exit 1, initial, [Console Error MsgSecretRequired])
   ∧ ∃ t, service ∅ (at_time 0 (Fulfilled response_200_empty_object)) [] initial
          = (Exit 1, initial, t) ∧ http_calls t = [])
  ∧ ∃ config, loadConfig env_secret_only initial = (Normal config, initial, [])
              ∧ schedulerSecret config = "s3cret".
Proof.
  split.
  - apply (proj1 (loadConfig_requires_secret ∅
              (at_time 0 (Fulfilled response_200_empty_object)) [] initial)).
    left. reflexivity.
  - apply (proj2 (loadConfig_requires_secret env_secret_only
              (at_time 0 (Fulfilled response_200_empty_object)) [] initial)).
    + vm_compute. reflexivity.
    + discriminate.
Defined.

End SchedulerFacts.

(** ** Properties of the configuration loaders *)
Module ConfigFacts.
Import JS Effects Config Samples.

Lemma truthy_number_spec (x : number) :
  truthy_number x = true ↔ (∀ b, x ≠ S754_zero b) ∧ x ≠ S754_nan.
Proof.
  destruct x; cbn; split; try (intros [H1 H2]); try congruence;
    try (intros _; split; [intros b0|]; discriminate).
Qed.

(** C6 as stated fails: with [appPort] present and equal to 0 the URL
    is built from [appUrl] alone; the port is not in it. *)
Lemma port_zero_left_out :
  appPort config_port_zero = Some (of_Z 0)
  ∧ buildEndpointUrl config_port_zero = "http://localhost/api/scheduler/trigger"
  ∧ buildEndpointUrl config_port_zero
    ≠ (appUrl config_port_zero +:+ ":" +:+ Number_toString (of_Z 0))
      +:+ "/api/scheduler/trigger".
Proof.
  split; [reflexivity|]. split; [reflexivity|].
  apply String.eqb_neq. vm_compute. reflexivity.
Qed.

(** C6, amended: [buildEndpointUrl] returns
    [<resolved-base>/api/scheduler/trigger], where the resolved base is
    [appUrl:appPort] when [appPort] is present and is neither 0 nor
    [NaN], and [appUrl] unmodified when [appPort] is absent, 0 or [NaN]. *)
Theorem buildEndpointUrl_resolved_base (config : SchedulerConfig) :
  (∀ port, appPort config = Some port →
     (∀ b, port ≠ S754_zero b) → port ≠ S754_nan →
     buildEndpointUrl config
     = (appUrl config +:+ ":" +:+ Number_toString port) +:+ "/api/scheduler/trigger")
  ∧ (appPort config = None →
     buildEndpointUrl config = appUrl config +:+ "/api/scheduler/trigger")
  ∧ (∀ port, appPort config = Some port →
     (∃ b, port = S754_zero b) ∨ port = S754_nan →
     buildEndpointUrl config = appUrl config +:+ "/api/scheduler/trigger").
Proof.
  unfold buildEndpointUrl. split; [|split].
  - intros port -> Hzero Hnan.
    assert (truthy_number port = true) as -> by (apply truthy_number_spec; auto).
    reflexivity.
  - intros ->. reflexivity.
  - intros port -> [[b ->] | ->]; reflexivity.
Qed.

Lemma buildEndpointUrl_resolved_base_witness :
  buildEndpointUrl config_port_3000 = "http://localhost:3000/api/scheduler/trigger"
  ∧ buildEndpointUrl config_port_zero = "http://localhost/api/scheduler/trigger".
Proof.
  split.
  - apply (proj1 (buildEndpointUrl_resolved_base config_port_3000) (of_Z 3000));
      [reflexivity | discriminate | discriminate].
  - apply (proj2 (proj2 (buildEndpointUrl_resolved_base config_port_zero)) (of_Z 0));
      [reflexivity | left; exists false; reflexivity].
Defined.

(** C9 as stated fails: with [SCHEDULER_INTERVAL=0] the loaded interval
    is 0, which is not positive; and with no variable set the
    multi-endpoint loader's base URL is [http://localhost:80], not
    [http://localhost]. *)
Lemma interval_zero_loaded :
  (∃ config,
     loadConfig env_interval_zero Scheduler.initial
     = (Normal config, Scheduler.initial, [])
     ∧ interval config = S754_zero false
     ∧ is_positive (interval config) = false)
  ∧ Multi.symposiumUrl (Multi.loadConfig ∅) = "http://localhost:80"
  ∧ Multi.symposiumUrl (Multi.loadConfig ∅) ≠ "http://localhost".
Proof.
  split.
  - eexists. split; [vm_compute; reflexivity|]. split; reflexivity.
  - split; [reflexivity|]. apply String.eqb_neq. vm_compute. reflexivity.
Qed.

(** C9, amended: the loaded interval is what [parseInt] makes of the
    variable (of the default text when the variable is absent or
    empty); it is the positive integer 30000 in the single-endpoint
    variant and 60000 in the multi-endpoint variant when the variable is
    absent, and nothing makes it positive or an integer otherwise.  The
    base URL defaults to [http://localhost] in the single-endpoint
    variant and to [http://localhost:80] in the multi-endpoint variant
    when its variable is absent. *)
Theorem loaded_interval_and_base_url (env : gmap string string) :
  (∀ (st st' : Scheduler.statistics) config t,
     loadConfig env st = (Normal config, st', t) →
     interval config
     = parseInt (or_string (env !! "SCHEDULER_INTERVAL") "30000") (Some 10)
     ∧ (env !! "SCHEDULER_INTERVAL" = None →
        interval config = of_Z 30000
        ∧ is_integer (interval config) = true
        ∧ is_positive (interval config) = true)
     ∧ (env !! "APP_URL" = None → appUrl config = "http://localhost"))
  ∧ Multi.checkInterval (Multi.loadConfig env)
    = parseInt (or_string (env !! "CHECK_INTERVAL_MS") "60000") None
  ∧ (env !! "CHECK_INTERVAL_MS" = None →
     Multi.checkInterval (Multi.loadConfig env) = of_Z 60000
     ∧ is_integer (Multi.checkInterval (Multi.loadConfig env)) = true
     ∧ is_positive (Multi.checkInterval (Multi.loadConfig env)) = true)
  ∧ (env !! "SYMPOSIUM_URL" = None →
     Multi.symposiumUrl (Multi.loadConfig env) = "http://localhost:80").
Proof.
  split; [|split; [|split]].
  - intros st st' config t. unfold loadConfig. run_M.
    destruct (negb _); [discriminate|].
    cbn. intros [= <- _ _]. cbn.
    split; [reflexivity|]. split.
    + intros ->. vm_compute. auto.
    + intros ->. reflexivity.
  - reflexivity.
  - intros H. unfold Multi.loadConfig. cbn. rewrite H. vm_compute. auto.
  - intros H. unfold Multi.loadConfig. cbn. rewrite H. reflexivity.
Qed.

Lemma loaded_interval_and_base_url_witness :
  ∃ config,
    loadConfig env_secret_only Scheduler.initial
    = (Normal config, Scheduler.initial, [])
    ∧ interval config = of_Z 30000
    ∧ is_integer (interval config) = true
    ∧ is_positive (interval config) = true
    ∧ appUrl config = "http://localhost"
    ∧ Multi.checkInterval (Multi.loadConfig env_secret_only) = of_Z 60000
    ∧ Multi.symposiumUrl (Multi.loadConfig env_secret_only) = "http://localhost:80".
Proof.
  destruct (loaded_interval_and_base_url env_secret_only)
    as (Hsingle & _ & Hmulti & Hurl).
  exists {| interval := of_Z 30000; schedulerSecret := "s3cret";
            appUrl := "http://localhost"; appPort := None |}.
  assert (Hload : loadConfig env_secret_only Scheduler.initial
                  = (Normal {| interval := of_Z 30000; schedulerSecret := "s3cret";
                               appUrl := "http://localhost"; appPort := None |},
                     Scheduler.initial, []))
    by (vm_compute; reflexivity).
  split; [exact Hload|].
  destruct (Hsingle _ _ _ _ Hload) as (_ & Hdefault & Happ).
  destruct Hdefault as (Hi & Hint & Hpos); [vm_compute; reflexivity|].
  split; [exact Hi|]. split; [exact Hint|]. split; [exact Hpos|].
  split; [apply Happ; vm_compute; reflexivity|].
  split; [apply Hmulti; vm_compute; reflexivity|].
  apply Hurl. vm_compute. reflexivity.
Defined.

End ConfigFacts.

(** ** Properties of the multi-endpoint variant *)
Module MultiFacts.
Import JS Effects Multi Samples EffectsFacts.

Section Class.
Variable coerced_gt_zero : json → bool.
Context {engine : Engine}.

Lemma quiet_get_prop {S} (v : value) (k : string) : quiet (get_prop v k : M S value).
Proof. destruct v as [[]|]; first [apply quiet_ret | apply quiet_throw]. Qed.

Lemma quiet_get_prop_opt {S} (v : value) (k : string) :
  quiet (get_prop_opt v k : M S value).
Proof. destruct v as [[]|]; first [apply quiet_ret | apply quiet_get_prop]. Qed.

Lemma quiet_forEach {S} (f : json → M S ()) (items : list json) :
  (∀ x, quiet (f x)) → quiet (forEach f items).
Proof.
  intros Hf. induction items as [|x items IH]; cbn [forEach].
  - apply quiet_ret.
  - apply quiet_bind; [apply Hf | intros _; exact IH].
Qed.

(** One step of showing that a computation is quiet. *)
Ltac quiet_step :=
  lazymatch goal with
  | |- quiet (_ ≫= _) => apply quiet_bind; [|intros ?]
  | |- quiet (mret _) => apply quiet_ret
  | |- quiet (mthrow _) => apply quiet_throw
  | |- quiet (console _ _) => apply quiet_console
  | |- quiet (await _) => apply quiet_await
  | |- quiet (get_prop _ _) => apply quiet_get_prop
  | |- quiet (get_prop_opt _ _) => apply quiet_get_prop_opt
  | |- quiet (if ?b then _ else _) => destruct b
  | |- quiet (match ?x with _ => _ end) => destruct x
  end.

Lemma quiet_report_item {S} (ep : endpoint) (result : json) :
  quiet (report_item ep result : M S ()).
Proof. unfold report_item. repeat quiet_step. Qed.

Lemma quiet_process_response {S} (ep : endpoint) (r : response) :
  quiet (process_response coerced_gt_zero ep r : M S ()).
Proof.
  unfold process_response. repeat quiet_step.
  apply quiet_forEach. intros x. apply quiet_report_item.
Qed.

(** Once its request has settled, a [trigger] method returns, whatever
    the outcome was, without a further request. *)
Lemma resume_returns {S} (ep : endpoint) (net : fetch_result) (s : S) :
  ∃ t, resume coerced_gt_zero ep net s = (Normal (), s, t) ∧ http_calls t = [].
Proof.
  unfold resume. apply try_catch_returns.
  - apply quiet_bind; [apply quiet_await | intros r; apply quiet_process_response].
  - intros e s'. exists [Console Error (MsgFailedToTrigger ep e)].
    split; reflexivity.
Qed.



(** *** The event loop, one action at a time *)

Lemma begin_tick_eq (rt : runtime) :
  begin_tick rt
  = (Normal (), set_pending (pending rt ++ [Queries]) rt,
     [Console Log MsgChecking; post (config (this rt)) Queries]).
Proof. reflexivity. Qed.

Lemma fire_eq (id : nat) (rt : runtime) :
  fire id rt = if decide (id ∈ timers rt) then begin_tick rt
               else (Normal (), rt, []).
Proof. unfold fire. run_M. destruct (decide _); reflexivity. Qed.

Lemma start_running (rt : runtime) :
  running (this rt) = true →
  start rt = (Normal (), rt, [Console Log MsgAlreadyRunning]).
Proof. intros H. unfold start. run_M. rewrite H. reflexivity. Qed.

Lemma start_stopped (rt : runtime) :
  running (this rt) = false →
  start rt
  = (Normal (),
     {| this := {| config := config (this rt); running := true;
                   intervalId := Some (next_timer rt) |};
        timers := {[ next_timer rt ]} ∪ timers rt;
        next_timer := S (next_timer rt);
        pending := pending rt ++ [Queries] |},
     [Console Log (MsgStarting (checkInterval (config (this rt)))
                               (symposiumUrl (config (this rt))));
      Console Log MsgChecking;
      post (config (this rt)) Queries;
      SetInterval (checkInterval (config (this rt)))]).
Proof. intros H. unfold start. run_M. rewrite H. reflexivity. Qed.

Lemma stop_stopped (rt : runtime) :
  running (this rt) = false →
  stop rt = (Normal (), rt, [Console Log MsgNotRunning]).
Proof. intros H. unfold stop. run_M. rewrite H. reflexivity. Qed.

Lemma stop_running (rt : runtime) :
  running (this rt) = true →
  stop rt
  = (Normal (),
     {| this := {| config := config (this rt); running := false;
                   intervalId := None |};
        timers := match intervalId (this rt) with
                  | Some id => timers rt ∖ {[ id ]}
                  | None => timers rt
                  end;
        next_timer := next_timer rt;
        pending := pending rt |},
     [Console Log MsgStopped]).
Proof.
  intros H. unfold stop. run_M. rewrite H. cbn.
  destruct rt as [[c r [id|]] ts n p]; reflexivity.
Qed.

Lemma settle_absent (i : nat) (net : fetch_result) (rt : runtime) :
  pending rt !! i = None → settle coerced_gt_zero i net rt = (Normal (), rt, []).
Proof. intros H. unfold settle. run_M. rewrite H. reflexivity. Qed.

Lemma settle_present (i : nat) (net : fetch_result) (rt : runtime) (ep : endpoint) :
  pending rt !! i = Some ep →
  ∃ t, http_calls t = []
       ∧ settle coerced_gt_zero i net rt
         = (Normal (),
            set_pending (match next_endpoint ep with
                         | Some ep' => <[ i := ep' ]> (pending rt)
                         | None => delete i (pending rt)
                         end) rt,
            t ++ match next_endpoint ep with
                 | Some ep' => [post (config (this rt)) ep']
                 | None => []
                 end).
Proof.
  intros H. destruct (resume_returns ep net rt) as (t & Hres & Hq).
  exists t. split; [exact Hq|].
  unfold settle. run_M. rewrite H, Hres.
  destruct ep; cbn; rewrite ?app_nil_r; reflexivity.
Qed.


(** *** The life cycle *)

Lemma perform_consistent (a : action) (rt : runtime) :
  consistent rt →
  ∃ rt' t, perform coerced_gt_zero a rt = (Normal (), rt', t)
           ∧ consistent rt'
           ∧ config (this rt') = config (this rt).
Proof.
  unfold consistent. intros Hc. destruct a as [| |id|i net]; cbn [perform].
  - destruct (running (this rt)) eqn:Hr.
    + rewrite (start_running rt Hr). eexists _, _. split; [reflexivity|].
      rewrite Hr. auto.
    + rewrite (start_stopped rt Hr). eexists _, _. split; [reflexivity|]. cbn.
      destruct (intervalId (this rt)) as [id|]; destruct Hc as [Hr' Ht];
        [congruence|].
      rewrite Ht. split; [|reflexivity]. split; [reflexivity|].
      apply union_empty_r_L.
  - destruct (running (this rt)) eqn:Hr.
    + rewrite (stop_running rt Hr). eexists _, _. split; [reflexivity|]. cbn.
      destruct (intervalId (this rt)) as [id|]; destruct Hc as [Hr' Ht];
        [|congruence].
      rewrite Ht. split; [|reflexivity]. split; [reflexivity|].
      apply difference_diag_L.
    + rewrite (stop_stopped rt Hr). eexists _, _. split; [reflexivity|].
      rewrite Hr. auto.
  - rewrite fire_eq. destruct (decide _).
    + rewrite begin_tick_eq. eexists _, _. split; [reflexivity|]. cbn. auto.
    + eexists _, _. split; [reflexivity|]. auto.
  - destruct (pending rt !! i) as [ep|] eqn:Hp.
    + destruct (settle_present i net rt ep Hp) as (t & _ & ->).
      eexists _, _. split; [reflexivity|]. cbn. auto.
    + rewrite (settle_absent i net rt Hp). eexists _, _. split; [reflexivity|]. auto.
Qed.

Lemma run_consistent (l : list action) :
  ∀ rt, consistent rt →
        ∃ rt' t, run coerced_gt_zero l rt = (Normal (), rt', t) ∧ consistent rt'.
Proof.
  induction l as [|a l IH]; intros rt Hc; cbn [run].
  - exists rt, []. split; [reflexivity | exact Hc].
  - destruct (perform_consistent a rt Hc) as (rt1 & t1 & E1 & Hc1 & _).
    destruct (IH rt1 Hc1) as (rt2 & t2 & E2 & Hc2).
    run_M. rewrite E1, E2. eexists _, _. split; [reflexivity | exact Hc2].
Qed.

Lemma construct_consistent (c : SchedulerConfig) : consistent (construct c).
Proof. split; reflexivity. Qed.

(** C10: after construction and after any sequence of [start()] and
    [stop()] calls, interleaved in any way with timer firings and
    settling requests, the running flag is set exactly when a timer
    handle is held, and [isRunning()] returns the flag. *)
Theorem running_iff_timer_held (c : SchedulerConfig) (l : list action) :
  ∃ rt t,
    run coerced_gt_zero l (construct c) = (Normal (), rt, t)
    ∧ (running (this rt) = true ↔ is_Some (intervalId (this rt)))
    ∧ isRunning rt = running (this rt).
Proof.
  destruct (run_consistent l (construct c) (construct_consistent c))
    as (rt & t & E & Hc).
  exists rt, t. split; [exact E|]. split; [|reflexivity].
  unfold consistent in Hc.
  destruct (intervalId (this rt)) as [id|]; destruct Hc as [Hr _]; rewrite Hr.
  - split; eauto.
  - split; [discriminate | intros [x Hx]; discriminate].
Qed.

Lemma owed_insert (l : list endpoint) (i : nat) (ep ep' : endpoint) :
  l !! i = Some ep →
  (owed (<[ i := ep' ]> l) + remaining ep = owed l + remaining ep')%nat.
Proof.
  revert i. induction l as [|x l IH]; intros [|i] H; try discriminate.
  - injection H as ->. simpl. lia.
  - simpl in *. specialize (IH i H). lia.
Qed.

Lemma owed_delete (l : list endpoint) (i : nat) (ep : endpoint) :
  l !! i = Some ep → (owed (delete i l) + remaining ep = owed l)%nat.
Proof.
  revert i. induction l as [|x l IH]; intros [|i] H; try discriminate.
  - injection H as ->. simpl. lia.
  - simpl in *. specialize (IH i H). lia.
Qed.

(** While the scheduler is stopped and [start()] is not called, an
    action sends at most one request, and only to carry on a tick that
    is in flight. *)
Lemma perform_idle (a : action) (rt : runtime) :
  idle rt → is_start a = false →
  ∃ rt' t, perform coerced_gt_zero a rt = (Normal (), rt', t)
           ∧ idle rt'
           ∧ config (this rt') = config (this rt)
           ∧ Forall (continues_tick (config (this rt))) (http_calls t)
           ∧ (length (http_calls t) + owed (pending rt') = owed (pending rt))%nat.
Proof.
  intros [Hr Ht] Ha. destruct a as [| |id|i net]; cbn [perform]; try discriminate.
  - rewrite (stop_stopped rt Hr). eexists _, _. split; [reflexivity|].
    split; [split; assumption|]. split; [reflexivity|].
    split; [constructor | reflexivity].
  - rewrite fire_eq. destruct (decide _) as [Hin|_].
    + rewrite Ht in Hin. set_solver.
    + eexists _, _. split; [reflexivity|].
      split; [split; assumption|]. split; [reflexivity|].
      split; [constructor | reflexivity].
  - destruct (pending rt !! i) as [ep|] eqn:Hp.
    + destruct (settle_present i net rt ep Hp) as (t & Hq & ->).
      eexists _, _. split; [reflexivity|].
      split; [split; assumption|]. split; [reflexivity|].
      rewrite http_calls_app, Hq. cbn [app set_pending pending].
      destruct ep; cbn [next_endpoint http_calls List.filter is_http post length].
      * split; [repeat constructor; left; reflexivity|].
        pose proof (owed_insert _ _ _ Cleanups Hp). cbn in *. lia.
      * split; [repeat constructor; right; reflexivity|].
        pose proof (owed_insert _ _ _ Outputs Hp). cbn in *. lia.
      * split; [constructor|].
        pose proof (owed_delete _ _ _ Hp). cbn in *. lia.
    + rewrite (settle_absent i net rt Hp). eexists _, _. split; [reflexivity|].
      split; [split; assumption|]. split; [reflexivity|].
      split; [constructor | reflexivity].
Qed.

Lemma run_idle (l : list action) :
  ∀ rt, idle rt → forallb (λ a, negb (is_start a)) l = true →
        ∃ rt' t, run coerced_gt_zero l rt = (Normal (), rt', t)
                 ∧ idle rt'
                 ∧ Forall (continues_tick (config (this rt))) (http_calls t)
                 ∧ (length (http_calls t) + owed (pending rt') = owed (pending rt))%nat.
Proof.
  induction l as [|a l IH]; intros rt Hi Hl; cbn [run].
  - exists rt, []. split; [reflexivity|]. split; [exact Hi|].
    split; [constructor | reflexivity].
  - cbn [forallb] in Hl. apply andb_prop in Hl as [Ha Hl].
    apply negb_true_iff in Ha.
    destruct (perform_idle a rt Hi Ha) as (rt1 & t1 & E1 & Hi1 & Hcfg & Hf1 & Hn1).
    destruct (IH rt1 Hi1 Hl) as (rt2 & t2 & E2 & Hi2 & Hf2 & Hn2).
    run_M. rewrite E1, E2. eexists _, _. split; [reflexivity|].
    split; [exact Hi2|]. rewrite http_calls_app. split.
    + apply Forall_app. split; [exact Hf1|]. rewrite <- Hcfg. exact Hf2.
    + rewrite length_app. lia.
Qed.

(** C8, amended: the scheduler object is either stopped or running.
    [start()] on a running scheduler only logs a notice, and so does
    [stop()] on a stopped one: the flag, the timer handle, the timers
    and the ticks in flight stay as they are.  [start()] on a stopped
    scheduler sets the flag, begins a tick and holds a new timer.
    [stop()] on a running scheduler clears the flag and the handle and
    cancels the timer, so no tick begins after it has returned as long
    as [start()] is not called again: the only requests made from then
    on are the cleanups and outputs requests of ticks that were in
    flight when [stop()] was called, at most two for a tick awaiting
    its queries response and one for a tick awaiting its cleanups
    response. *)
Theorem start_stop_life_cycle (rt : runtime) :
  consistent rt →
  (running (this rt) = true →
   start rt = (Normal (), rt, [Console Log MsgAlreadyRunning]))
  ∧ (running (this rt) = false →
     stop rt = (Normal (), rt, [Console Log MsgNotRunning]))
  ∧ (running (this rt) = false →
     ∃ rt' t, start rt = (Normal (), rt', t)
              ∧ running (this rt') = true
              ∧ intervalId (this rt') = Some (next_timer rt)
              ∧ timers rt' = {[ next_timer rt ]}
              ∧ pending rt' = pending rt ++ [Queries]
              ∧ http_calls t = [post (config (this rt)) Queries])
  ∧ (running (this rt) = true →
     ∃ rt', stop rt = (Normal (), rt', [Console Log MsgStopped])
            ∧ running (this rt') = false
            ∧ intervalId (this rt') = None
            ∧ timers rt' = ∅
            ∧ pending rt' = pending rt
            ∧ ∀ l, forallb (λ a, negb (is_start a)) l = true →
                   ∃ rt'' t, run coerced_gt_zero l rt' = (Normal (), rt'', t)
                             ∧ running (this rt'') = false
                             ∧ Forall (continues_tick (config (this rt)))
                                      (http_calls t)
                             ∧ (length (http_calls t) ≤ owed (pending rt))%nat).
Proof.
  intros Hc. split; [|split; [|split]].
  - apply start_running.
  - apply stop_stopped.
  - intros Hr. rewrite (start_stopped rt Hr). eexists _, _.
    split; [reflexivity|]. cbn.
    unfold consistent in Hc.
    destruct (intervalId (this rt)) as [id|]; destruct Hc as [Hr' Ht];
      [congruence|].
    rewrite Ht, union_empty_r_L. repeat split.
  - intros Hr. rewrite (stop_running rt Hr). eexists. split; [reflexivity|]. cbn.
    unfold consistent in Hc.
    destruct (intervalId (this rt)) as [id|]; destruct Hc as [Hr' Ht];
      [|congruence].
    rewrite Ht, difference_diag_L. do 4 (split; [reflexivity|]).
    intros l Hl.
    match goal with
    | |- context [run _ l ?r] =>
        destruct (run_idle l r (conj eq_refl eq_refl) Hl)
          as (rt'' & t & E & [Hr'' _] & Hf & Hn)
    end.
    exists rt'', t. split; [exact E|]. split; [exact Hr''|].
    split; [exact Hf|]. cbn in Hn. lia.
Qed.

End Class.

#[local] Existing Instance v8.

(** C8 as stated fails: [stop()] is called right after [start()], while
    the first tick awaits its queries response.  [stop()] returns with
    the flag cleared and the timer cancelled; when the queries request
    then settles, the tick goes on and posts to the cleanups endpoint. *)
Lemma request_sent_after_stop :
  ∃ rt1 t1 rt2 t2 rt3 t3,
    start (construct multi_default) = (Normal (), rt1, t1)
    ∧ stop rt1 = (Normal (), rt2, t2)
    ∧ running (this rt2) = false
    ∧ intervalId (this rt2) = None
    ∧ settle never_positive 0 refused rt2 = (Normal (), rt3, t3)
    ∧ http_calls t3
      = [HttpPost "http://localhost:80/api/scheduler/trigger-cleanups" [] None].
Proof.
  eexists _, _, _, _, _, _.
  split; [vm_compute; reflexivity|]. split; [vm_compute; reflexivity|].
  split; [reflexivity|]. split; [reflexivity|].
  split; [vm_compute; reflexivity|]. reflexivity.
Qed.

Lemma start_stop_life_cycle_witness :
  start (in_flight multi_default [Queries])
  = (Normal (), in_flight multi_default [Queries], [Console Log MsgAlreadyRunning])
  ∧ stop (construct multi_default)
    = (Normal (), construct multi_default, [Console Log MsgNotRunning])
  ∧ (∃ rt' t, start (construct multi_default) = (Normal (), rt', t)
              ∧ running (this rt') = true
              ∧ intervalId (this rt') = Some 0%nat
              ∧ timers rt' = {[ 0%nat ]}
              ∧ pending rt' = [Queries]
              ∧ http_calls t = [post multi_default Queries])
  ∧ ∃ rt', stop (in_flight multi_default [Queries])
           = (Normal (), rt', [Console Log MsgStopped])
           ∧ running (this rt') = false
           ∧ intervalId (this rt') = None
           ∧ timers rt' = ∅
           ∧ pending rt' = [Queries]
           ∧ ∃ rt'' t, run never_positive [Settles 0 refused; TimerFires 0] rt'
                       = (Normal (), rt'', t)
                       ∧ running (this rt'') = false
                       ∧ Forall (continues_tick multi_default) (http_calls t)
                       ∧ (length (http_calls t) ≤ 2)%nat.
Proof.
  pose proof (start_stop_life_cycle never_positive (in_flight multi_default [Queries])
                (conj eq_refl eq_refl)) as (Hstart & _ & _ & Hstop).
  pose proof (start_stop_life_cycle never_positive (construct multi_default)
                (conj eq_refl eq_refl)) as (_ & Hnoop & Hbegin & _).
  split; [exact (Hstart eq_refl)|].
  split; [exact (Hnoop eq_refl)|].
  split; [exact (Hbegin eq_refl)|].
  destruct (Hstop eq_refl) as (rt' & E & Hr & Hi & Ht & Hp & Hrun).
  exists rt'. do 5 (split; [assumption|]).
  exact (Hrun [Settles 0 refused; TimerFires 0%nat] eq_refl).
Defined.

End MultiFacts.

(** ** The single-endpoint variant as a whole: start-up, ticks, counters *)
Module ServiceFacts.
Import JS Effects Config Scheduler Samples Accounting Cases.
Import EffectsFacts FloatFacts SchedulerFacts NumberFacts.

Lemma validateConfig_of_Z {S} (config : SchedulerConfig) (n : Z) (s : S) :
  interval config = of_Z n → - 2 ^ 53 < n < 2 ^ 53 →
  validateConfig config s
  = (Normal (), s,
     (if n <? 1000 then [Console Warn MsgWarnHighLoad] else [])
     ++ (if n <? 5000 then [Console Warn MsgWarnShortInterval] else [])).
Proof.
  intros Hi Hn. unfold validateConfig. rewrite Hi.
  rewrite !ltb_of_Z by lia.
  destruct (n <? 1000), (n <? 5000); reflexivity.
Qed.

(** X1: [validateConfig] never stops the service.  For an interval
    that is an integer [n] it warns about high load exactly when
    [n < 1000] and about a short interval exactly when [n < 5000], in
    that order, so that an interval of 0 or below draws both warnings
    and nothing else; for an interval that is [NaN] it warns about
    nothing. *)
Theorem validateConfig_advisory (config : SchedulerConfig) (st : statistics) :
  (∀ n, interval config = of_Z n → - 2 ^ 53 < n < 2 ^ 53 →
        validateConfig config st
        = (Normal (), st,
           (if n <? 1000 then [Console Warn MsgWarnHighLoad] else [])
           ++ (if n <? 5000 then [Console Warn MsgWarnShortInterval] else [])))
  ∧ (interval config = NaN → validateConfig config st = (Normal (), st, [])).
Proof.
  split.
  - intros n. apply validateConfig_of_Z.
  - intros Hi. unfold validateConfig. rewrite Hi. reflexivity.
Qed.

(** *** Start-up *)

Lemma loadConfig_returns {S} (env : gmap string string) (secret : string) (s : S) :
  env !! "SCHEDULER_SECRET" = Some secret → secret ≠ "" →
  ∃ config, loadConfig env s = (Normal config, s, [])
            ∧ schedulerSecret config = secret.
Proof.
  intros Hsecret Hne. unfold loadConfig. rewrite Hsecret.
  destruct secret as [|c secret]; [congruence|].
  eexists. split; reflexivity.
Qed.

Lemma validateConfig_returns {S} (config : SchedulerConfig) (s : S) :
  ∃ w, validateConfig config s = (Normal (), s, w)
       ∧ Forall (λ e, ∃ m, e = Console Warn m) w.
Proof.
  unfold validateConfig.
  destruct (ltb (interval config) (of_Z 1000)), (ltb (interval config) (of_Z 5000));
    eexists; (split; [reflexivity|]); repeat constructor; eauto.
Qed.

(** One invocation reports four things: the attempt, the request, one
    line about the outcome and the statistics. *)
Lemma triggerScheduler_trace (endpointUrl secret : string) (a : attempt)
    (st : statistics) :
  ∃ st' l m,
    triggerScheduler endpointUrl secret a st
    = (Normal (), st',
       [Console Log (MsgTriggering endpointUrl (started a));
        HttpPost endpointUrl (request_headers secret) (Some "{}");
        Console l m;
        Console Log (MsgStatistics (totalTriggers st') (successfulTriggers st')
                       (failedTriggers st') (success_rate st'))])
    ∧ trigger_case a st st'
    ∧ (l = Log ↔ lastStatus st' = Some success).
Proof.
  destruct a as [t0 t1 [r|e]]; unfold triggerScheduler, print_statistics;
    cbn [outcome started finished].
  - destruct r as [code txt body_j body_t]; run_M.
    destruct (ok _) eqn:Hok; run_M.
    + destruct body_j as [v|e]; run_M.
      * eexists _, _, _. split; [reflexivity|]. split; [|cbn; tauto].
        eapply case_success; eauto.
      * eexists _, _, _. split; [reflexivity|].
        split; [|cbn; split; discriminate].
        eapply case_bad_body; eauto.
    + destruct body_t as [x|e]; run_M.
      * eexists _, _, _. split; [reflexivity|].
        split; [|cbn; split; discriminate].
        eapply case_http_failure; eauto.
      * eexists _, _, _. split; [reflexivity|].
        split; [|cbn; split; discriminate].
        eapply case_http_failure_body_lost; eauto.
  - run_M. eexists _, _, _. split; [reflexivity|].
    split; [|cbn; split; discriminate].
    eapply case_request_error; eauto.
Qed.

Lemma main_trace (env : gmap string string) (first : attempt)
    (st : statistics) (config : SchedulerConfig) :
  loadConfig env st = (Normal config, st, []) →
  ∃ w st' l m,
    main env first st
    = (Normal (λ a, triggerScheduler (buildEndpointUrl config)
                      (schedulerSecret config) a),
       st',
       [Console Log MsgBanner] ++ w
       ++ [Console Log (MsgConfiguration (interval config) (buildEndpointUrl config)
                          (String.substring 0 10 (schedulerSecret config)));
           Console Log (MsgStarted (interval config));
           Console Log (MsgTriggering (buildEndpointUrl config) (started first));
           HttpPost (buildEndpointUrl config)
             (request_headers (schedulerSecret config)) (Some "{}");
           Console l m;
           Console Log (MsgStatistics (totalTriggers st') (successfulTriggers st')
                          (failedTriggers st') (success_rate st'));
           SetInterval (interval config)])
    ∧ Forall (λ e, ∃ m', e = Console Warn m') w
    ∧ trigger_case first st st'.
Proof.
  intros Hload.
  destruct (validateConfig_returns config st) as (w & Hw & Hwarn).
  destruct (triggerScheduler_trace (buildEndpointUrl config)
              (schedulerSecret config) first st) as (st' & l & m & Hrun & Hcase & _).
  exists w, st', l, m. split; [|split; assumption].
  unfold main. run_M. rewrite Hload, Hw, Hrun. cbn [app].
  reflexivity.
Qed.

Lemma http_calls_warnings (w : list event) :
  Forall (λ e, ∃ m, e = Console Warn m) w → http_calls w = [].
Proof.
  induction 1 as [|e w [m ->] _ IH]; [reflexivity|].
  rewrite http_calls_console. exact IH.
Qed.

Lemma intervals_armed_app (t1 t2 : list event) :
  intervals_armed (t1 ++ t2) = intervals_armed t1 ++ intervals_armed t2.
Proof. apply omap_app. Qed.

Lemma intervals_armed_warnings (w : list event) :
  Forall (λ e, ∃ m, e = Console Warn m) w → intervals_armed w = [].
Proof.
  induction 1 as [|e w [m ->] _ IH]; [reflexivity | exact IH].
Qed.

(** X2: with a secret set, [main] loads the configuration, makes the
    first request at once and only then arms the timer, once, as its
    last step and with the loaded interval whatever it is; the callback
    it registers triggers the endpoint and the secret resolved at
    start-up.  No failure of the first request keeps the timer from
    being armed. *)
Theorem main_triggers_then_arms (env : gmap string string) (first : attempt)
    (st : statistics) (secret : string) :
  env !! "SCHEDULER_SECRET" = Some secret → secret ≠ "" →
  ∃ config callback st' t,
    loadConfig env st = (Normal config, st, [])
    ∧ main env first st = (Normal callback, st', t ++ [SetInterval (interval config)])
    ∧ start_service env first st = main env first st
    ∧ http_calls t
      = [HttpPost (buildEndpointUrl config) (request_headers secret) (Some "{}")]
    ∧ intervals_armed t = []
    ∧ totalTriggers st' = totalTriggers st + 1
    ∧ callback = (λ a, triggerScheduler (buildEndpointUrl config) secret a).
Proof.
  intros Hsecret Hne.
  destruct (loadConfig_returns env secret st Hsecret Hne) as (config & Hload & <-).
  destruct (main_trace env first st config Hload)
    as (w & st' & l & m & Hmain & Hwarn & Hcase).
  eexists config, _, st', _. split; [exact Hload|].
  assert (Hshape : ∀ (x : list event) a b c d e f g,
             [a] ++ x ++ [b; c; d; e; f; g; SetInterval (interval config)]
             = ([a] ++ x ++ [b; c; d; e; f; g]) ++ [SetInterval (interval config)]).
  { intros. cbn. rewrite <- app_assoc. reflexivity. }
  rewrite Hshape in Hmain.
  split; [exact Hmain|].
  split; [unfold start_service, try_catch; rewrite Hmain; reflexivity|].
  split; [|split; [|split; [|reflexivity]]].
  - rewrite !http_calls_app, (http_calls_warnings w Hwarn). reflexivity.
  - rewrite !intervals_armed_app, (intervals_armed_warnings w Hwarn).
    reflexivity.
  - eapply trigger_case_total, Hcase.
Qed.




(** The requests of the timer ticks: one each, all alike. *)
Lemma ticks_calls (endpointUrl secret : string) (l : list attempt) :
  ∀ st, ∃ st' t,
    ticks (λ a, triggerScheduler endpointUrl secret a) l st = (Normal (), st', t)
    ∧ http_calls t
      = repeat (HttpPost endpointUrl (request_headers secret) (Some "{}")) (length l)
    ∧ totalTriggers st' = totalTriggers st + Z.of_nat (length l).
Proof.
  induction l as [|a l IH]; intros st.
  - exists st, []. repeat split. cbn. lia.
  - destruct (triggerScheduler_cases endpointUrl secret a st)
      as (st1 & t1 & Hrun & Hquiet & Hcase).
    destruct (IH st1) as (st2 & t2 & Hrest & Hcalls & Htotal).
    cbn [ticks]. run_M. rewrite Hrun, Hrest.
    eexists _, _. split; [reflexivity|]. split.
    + rewrite !http_calls_app, Hquiet, Hcalls. reflexivity.
    + rewrite Htotal, (trigger_case_total _ _ _ Hcase). cbn [length]. lia.
Qed.

(** X4: with a secret set the service runs on whatever the requests
    come to: the start-up trigger and every timer tick return, each
    posting the same request (the endpoint resolved at start-up, the
    secret read at start-up, the body [{}]), and the total counts them
    all. *)
Theorem service_posts_every_tick (env : gmap string string) (first : attempt)
    (rest : list attempt) (st : statistics) (secret : string) :
  env !! "SCHEDULER_SECRET" = Some secret → secret ≠ "" →
  ∃ config st' t,
    loadConfig env st = (Normal config, st, [])
    ∧ service env first rest st = (Normal (), st', t)
    ∧ http_calls t
      = repeat (HttpPost (buildEndpointUrl config) (request_headers secret) (Some "{}"))
          (S (length rest))
    ∧ totalTriggers st' = totalTriggers st + 1 + Z.of_nat (length rest).
Proof.
  intros Hsecret Hne.
  destruct (loadConfig_returns env secret st Hsecret Hne) as (config & Hload & <-).
  destruct (main_trace env first st config Hload)
    as (w & st1 & l & m & Hmain & Hwarn & Hcase).
  destruct (ticks_calls (buildEndpointUrl config) (schedulerSecret config) rest st1)
    as (st2 & t2 & Hticks & Hcalls & Htotal).
  exists config, st2. eexists. split; [exact Hload|].
  split; [|split].
  - unfold service, start_service, try_catch. run_M. rewrite Hmain, Hticks.
    reflexivity.
  - rewrite !http_calls_app, (http_calls_warnings w Hwarn), Hcalls. reflexivity.
  - rewrite Htotal, (trigger_case_total _ _ _ Hcase). lia.
Qed.

(** X5: a request that fails in transport, and a non-2xx response
    whose body can be read, are each counted as exactly one failure:
    the invocation returns, reports the error (with the time taken, and
    for a response its status line and body text) on the error stream,
    then the statistics, and leaves the time of the attempt and the
    status [failed] behind. *)
Theorem failure_counted_and_reported (endpointUrl secret : string)
    (a : attempt) (st : statistics) :
  (∀ e, outcome a = Rejected e →
     ∃ st', triggerScheduler endpointUrl secret a st
            = (Normal (), st',
               [Console Log (MsgTriggering endpointUrl (started a));
                HttpPost endpointUrl (request_headers secret) (Some "{}");
                Console Error (MsgRequestError (finished a - started a) e);
                Console Log (MsgStatistics (totalTriggers st + 1)
                               (successfulTriggers st) (failedTriggers st + 1)
                               (success_rate st'))])
            ∧ totalTriggers st' = totalTriggers st + 1
            ∧ successfulTriggers st' = successfulTriggers st
            ∧ failedTriggers st' = failedTriggers st + 1
            ∧ lastStatus st' = Some failed
            ∧ lastTriggerTime st' = Some (started a))
  ∧ (∀ r x, outcome a = Fulfilled r → ok r = false → text_body r = Fulfilled x →
     ∃ st', triggerScheduler endpointUrl secret a st
            = (Normal (), st',
               [Console Log (MsgTriggering endpointUrl (started a));
                HttpPost endpointUrl (request_headers secret) (Some "{}");
                Console Error (MsgTriggerFailed (status r) (statusText r)
                                 (finished a - started a) x);
                Console Log (MsgStatistics (totalTriggers st + 1)
                               (successfulTriggers st) (failedTriggers st + 1)
                               (success_rate st'))])
            ∧ totalTriggers st' = totalTriggers st + 1
            ∧ successfulTriggers st' = successfulTriggers st
            ∧ failedTriggers st' = failedTriggers st + 1
            ∧ lastStatus st' = Some failed
            ∧ lastTriggerTime st' = Some (started a)).
Proof.
  split.
  - intros e Ho. destruct a as [t0 t1 o]. cbn [outcome] in Ho. subst o.
    unfold triggerScheduler, print_statistics. cbn [outcome started finished].
    run_M. eexists. split; [reflexivity|]. repeat split.
  - intros r x Ho Hk Hx. destruct a as [t0 t1 o]. cbn [outcome] in Ho. subst o.
    unfold triggerScheduler, print_statistics. cbn [outcome started finished].
    run_M. rewrite Hk. run_M. rewrite Hx. run_M.
    eexists. split; [reflexivity|]. repeat split.
Qed.

Lemma trigger_case_counts (a : attempt) (st st' : statistics) :
  trigger_case a st st' →
  successfulTriggers st'
  = successfulTriggers st + (if succeeds a then 1 else 0)
  ∧ failedTriggers st'
    = failedTriggers st + (if succeeds a then 0 else 1)
      + (if error_body_lost a then 1 else 0)
  ∧ lastTriggerTime st' = Some (started a).
Proof.
  unfold succeeds, error_body_lost.
  destruct 1 as [r v Ho Hk Hb ->|r e Ho Hk Hb ->|r x Ho Hk Hb ->|r e Ho Hk Hb ->
                |e Ho ->];
    rewrite Ho; try rewrite Hk; try rewrite Hb; cbn; repeat split; lia.
Qed.

Lemma last_cons_default {A} (l : list A) :
  ∀ x d, List.last (x :: l) d = List.last l x.
Proof.
  induction l as [|y l IH]; intros x d; [reflexivity|].
  change (List.last (x :: y :: l) d) with (List.last (y :: l) d).
  rewrite !IH. reflexivity.
Qed.

(** X6: the exact account of any number of invocations.  The total
    grows by one per invocation; the successes grow by the number of
    2xx responses whose body parsed; the failures grow by the number of
    all other invocations plus one more for each non-2xx response whose
    body could not be read; the last trigger time is the start of the
    last invocation. *)
Theorem ticks_counted (endpointUrl secret : string) (l : list attempt) :
  ∀ st, ∃ st' t,
    ticks (triggerScheduler endpointUrl secret) l st = (Normal (), st', t)
    ∧ totalTriggers st' = totalTriggers st + Z.of_nat (length l)
    ∧ successfulTriggers st'
      = successfulTriggers st + Z.of_nat (length (List.filter succeeds l))
    ∧ failedTriggers st'
      = failedTriggers st
        + Z.of_nat (length l - length (List.filter succeeds l))
        + Z.of_nat (length (List.filter error_body_lost l))
    ∧ lastTriggerTime st'
      = List.last (map (λ a, Some (started a)) l) (lastTriggerTime st).
Proof.
  induction l as [|a l IH]; intros st.
  - exists st, []. split; [reflexivity|]. cbn. repeat split; try lia.
  - destruct (triggerScheduler_cases endpointUrl secret a st)
      as (st1 & t1 & Hrun & _ & Hcase).
    destruct (IH st1) as (st2 & t2 & Hrest & Htot & Hs & Hf & Hlast).
    destruct (trigger_case_counts a st st1 Hcase) as (Hs1 & Hf1 & Hl1).
    cbn [ticks]. run_M. rewrite Hrun, Hrest.
    eexists _, _. split; [reflexivity|].
    rewrite Htot, (trigger_case_total _ _ _ Hcase), Hs, Hf, Hs1, Hf1, Hlast, Hl1.
    pose proof (List.filter_length_le succeeds l) as Hle.
    cbn [length List.filter map]. rewrite last_cons_default.
    destruct (succeeds a), (error_body_lost a); cbn [length];
      repeat split; lia.
Qed.

Lemma lookup_without_empty (env : gmap string string) (k : string) :
  without_empty env !! k
  = match env !! k with
    | Some v => if truthy_string v then Some v else None
    | None => None
    end.
Proof.
  unfold without_empty. destruct (env !! k) as [v|] eqn:Hk.
  - destruct v as [|c v]; cbn [truthy_string].
    + apply map_lookup_filter_None. right. intros x Hx. cbn.
      rewrite Hk in Hx. injection Hx as <-. tauto.
    + apply map_lookup_filter_Some. split; [exact Hk | cbn; discriminate].
  - apply map_lookup_filter_None. left. exact Hk.
Qed.

Lemma or_string_without_empty (env : gmap string string) (k d : string) :
  or_string (without_empty env !! k) d = or_string (env !! k) d.
Proof.
  rewrite lookup_without_empty. destruct (env !! k) as [[|c v]|]; reflexivity.
Qed.

(** X7: a variable set to the empty string is read like one that is
    not set, by the loader and hence by the whole service; the same
    holds for the requests and the check interval of the multi-endpoint
    variant. *)
Theorem empty_variables_ignored (env : gmap string string) :
  (∀ st : statistics, loadConfig (without_empty env) st = loadConfig env st)
  ∧ (∀ first rest st,
       service (without_empty env) first rest st = service env first rest st)
  ∧ (∀ ep, Multi.post (Multi.loadConfig (without_empty env)) ep
           = Multi.post (Multi.loadConfig env) ep)
  ∧ Multi.checkInterval (Multi.loadConfig (without_empty env))
    = Multi.checkInterval (Multi.loadConfig env).
Proof.
  assert (Hload : ∀ st : statistics,
             loadConfig (without_empty env) st = loadConfig env st).
  { intros st. unfold loadConfig. rewrite !or_string_without_empty.
    rewrite (lookup_without_empty env "APP_PORT").
    destruct (env !! "APP_PORT") as [[|c v]|]; reflexivity. }
  split; [exact Hload|]. split; [|split].
  - intros first rest st. unfold service, start_service, main, try_catch.
    run_M. rewrite Hload. reflexivity.
  - intros ep.
    unfold Multi.post, Multi.url_of, Multi.headers_of, Multi.loadConfig.
    cbn [Multi.symposiumUrl Multi.authToken].
    rewrite or_string_without_empty, (lookup_without_empty env "AUTH_TOKEN").
    destruct (env !! "AUTH_TOKEN") as [[|c v]|]; reflexivity.
  - unfold Multi.loadConfig. cbn [Multi.checkInterval].
    rewrite or_string_without_empty. reflexivity.
Qed.

(** X8: the numbers read from the environment are never fractions:
    the loaded interval, the loaded port when there is one, and the
    check interval of the multi-endpoint variant are each [NaN], an
    integer or an infinity. *)
Theorem loaded_numbers_integral (env : gmap string string) :
  (∀ (st st' : statistics) config t,
     loadConfig env st = (Normal config, st', t) →
     integral (interval config)
     ∧ ∀ port, appPort config = Some port → integral port)
  ∧ integral (Multi.checkInterval (Multi.loadConfig env)).
Proof.
  split; [|apply parseInt_integer].
  intros st st' config t. unfold loadConfig. run_M.
  destruct (negb _); [discriminate|].
  intros [= <- _ _]. cbn [interval appPort]. split; [apply parseInt_integer|].
  intros port. destruct (env !! "APP_PORT") as [p|]; [|discriminate].
  destruct (truthy_string p); [|discriminate].
  intros [= <-]. apply parseInt_integer.
Qed.

Lemma triggerScheduler_not_fatal (endpointUrl secret : string) (a : attempt)
    (st : statistics) :
  ∃ st' t, triggerScheduler endpointUrl secret a st = (Normal (), st', t)
           ∧ List.filter is_fatal t = [].
Proof.
  destruct a as [t0 t1 [r|e]]; unfold triggerScheduler, print_statistics;
    cbn [outcome started finished].
  - destruct r as [code txt body_j body_t]; run_M.
    destruct (ok _); run_M.
    + destruct body_j as [v|e]; run_M; eexists _, _; split; reflexivity.
    + destruct body_t as [x|e]; run_M; eexists _, _; split; reflexivity.
  - run_M. eexists _, _; split; reflexivity.
Qed.

Lemma ticks_not_fatal (endpointUrl secret : string) (l : list attempt) :
  ∀ st, ∃ st' t,
    ticks (λ a, triggerScheduler endpointUrl secret a) l st = (Normal (), st', t)
    ∧ List.filter is_fatal t = [].
Proof.
  induction l as [|a l IH]; intros st.
  - exists st, []. split; reflexivity.
  - destruct (triggerScheduler_not_fatal endpointUrl secret a st)
      as (st1 & t1 & E1 & F1).
    destruct (IH st1) as (st2 & t2 & E2 & F2).
    cbn [ticks]. run_M. rewrite E1, E2. eexists _, _. split; [reflexivity|].
    rewrite List.filter_app, F1, F2. reflexivity.
Qed.

Lemma validateConfig_not_fatal {S} (config : SchedulerConfig) (s : S) :
  ∃ w, validateConfig config s = (Normal (), s, w) ∧ List.filter is_fatal w = [].
Proof.
  unfold validateConfig.
  destruct (ltb (interval config) (of_Z 1000)), (ltb (interval config) (of_Z 5000));
    eexists; split; reflexivity.
Qed.

(** X16: the [catch] handler of [main] never runs.  [main] does not
    throw, so starting the service is running [main]; no run of the
    service reports a fatal error; and the service ends either
    normally or with exit code 1 from the loader, which happens only
    when the secret is unset or empty, before any request and with the
    counters untouched. *)
Theorem fatal_handler_never_runs (env : gmap string string) (first : attempt)
    (rest : list attempt) (st : statistics) :
  start_service env first st = main env first st
  ∧ ∃ c st' t,
      service env first rest st = (c, st', t)
      ∧ List.filter is_fatal t = []
      ∧ (c = Normal ()
         ∨ c = Exit 1
           ∧ or_string (env !! "SCHEDULER_SECRET") "" = ""
           ∧ st' = st
           ∧ t = [Console Log MsgBanner; Console Error MsgSecretRequired]).
Proof.
  destruct (env !! "SCHEDULER_SECRET") as [[|ch secret]|] eqn:Henv.
  - split.
    + unfold start_service, main, try_catch, loadConfig. run_M. rewrite Henv.
      reflexivity.
    + eexists _, _, _. split.
      * unfold service, start_service, main, try_catch, loadConfig. run_M.
        rewrite Henv. reflexivity.
      * split; [reflexivity|]. right. repeat split.
  - destruct (loadConfig_returns env (String ch secret) st Henv)
      as (config & Hload & Hsecret); [discriminate|].
    destruct (validateConfig_not_fatal config st) as (w & Hw & Fw).
    destruct (triggerScheduler_not_fatal (buildEndpointUrl config)
                (schedulerSecret config) first st) as (st1 & t1 & E1 & F1).
    destruct (ticks_not_fatal (buildEndpointUrl config) (schedulerSecret config)
                rest st1) as (st2 & t2 & E2 & F2).
    split.
    + unfold start_service, main, try_catch. run_M. rewrite Hload, Hw, E1.
      reflexivity.
    + eexists _, _, _. split.
      * unfold service, start_service, main, try_catch. run_M.
        rewrite Hload, Hw, E1. cbn [app]. rewrite E2. reflexivity.
      * split; [|left; reflexivity].
        repeat first [rewrite List.filter_app
                     | progress cbn [List.filter is_fatal]].
        rewrite Fw, F1, F2. reflexivity.
  - split.
    + unfold start_service, main, try_catch, loadConfig. run_M. rewrite Henv.
      reflexivity.
    + eexists _, _, _. split.
      * unfold service, start_service, main, try_catch, loadConfig. run_M.
        rewrite Henv. reflexivity.
      * split; [reflexivity|]. right. repeat split.
Qed.

Lemma validateConfig_advisory_witness :
  validateConfig config_interval_500 initial
  = (Normal (), initial,
     [Console Warn MsgWarnHighLoad; Console Warn MsgWarnShortInterval])
  ∧ validateConfig config_interval_nan initial = (Normal (), initial, []).
Proof.
  split.
  - apply (proj1 (validateConfig_advisory config_interval_500 initial) 500);
      [reflexivity | lia].
  - apply (proj2 (validateConfig_advisory config_interval_nan initial)).
    reflexivity.
Defined.

Lemma main_triggers_then_arms_witness :
  ∃ config callback st' t,
    loadConfig env_secret_only initial = (Normal config, initial, [])
    ∧ main env_secret_only (at_time 0 refused) initial
      = (Normal callback, st', t ++ [SetInterval (interval config)])
    ∧ start_service env_secret_only (at_time 0 refused) initial
      = main env_secret_only (at_time 0 refused) initial
    ∧ http_calls t
      = [HttpPost (buildEndpointUrl config) (request_headers "s3cret") (Some "{}")]
    ∧ intervals_armed t = []
    ∧ totalTriggers st' = totalTriggers initial + 1
    ∧ callback = (λ a, triggerScheduler (buildEndpointUrl config) "s3cret" a).
Proof.
  apply (main_triggers_then_arms env_secret_only (at_time 0 refused) initial
           "s3cret"); [vm_compute; reflexivity | discriminate].
Defined.


Lemma service_posts_every_tick_witness :
  ∃ config st' t,
    loadConfig env_secret_only initial = (Normal config, initial, [])
    ∧ service env_secret_only (at_time 0 refused)
        [at_time 30000 (Fulfilled response_500)] initial
      = (Normal (), st', t)
    ∧ http_calls t
      = repeat (HttpPost (buildEndpointUrl config) (request_headers "s3cret")
                  (Some "{}")) 2
    ∧ totalTriggers st' = totalTriggers initial + 1 + 1.
Proof.
  apply (service_posts_every_tick env_secret_only (at_time 0 refused)
           [at_time 30000 (Fulfilled response_500)] initial "s3cret");
    [vm_compute; reflexivity | discriminate].
Defined.

Lemma failure_counted_and_reported_witness :
  (∃ st', triggerScheduler "u" "s" (at_time 0 refused) initial
          = (Normal (), st',
             [Console Log (MsgTriggering "u" 0);
              HttpPost "u" (request_headers "s") (Some "{}");
              Console Error (MsgRequestError 5 "TypeError: connection refused");
              Console Log (MsgStatistics 1 0 1 (success_rate st'))])
          ∧ totalTriggers st' = 1
          ∧ successfulTriggers st' = 0
          ∧ failedTriggers st' = 1
          ∧ lastStatus st' = Some failed
          ∧ lastTriggerTime st' = Some 0)
  ∧ ∃ st', triggerScheduler "u" "s" (at_time 0 (Fulfilled response_500)) initial
           = (Normal (), st',
              [Console Log (MsgTriggering "u" 0);
               HttpPost "u" (request_headers "s") (Some "{}");
               Console Error (MsgTriggerFailed 500 "Internal Server Error" 5 "boom");
               Console Log (MsgStatistics 1 0 1 (success_rate st'))])
           ∧ totalTriggers st' = 1
           ∧ successfulTriggers st' = 0
           ∧ failedTriggers st' = 1
           ∧ lastStatus st' = Some failed
           ∧ lastTriggerTime st' = Some 0.
Proof.
  split.
  - apply (proj1 (failure_counted_and_reported "u" "s" (at_time 0 refused) initial)
             "TypeError: connection refused").
    reflexivity.
  - apply (proj2 (failure_counted_and_reported "u" "s"
                    (at_time 0 (Fulfilled response_500)) initial)
             response_500 "boom"); reflexivity.
Defined.

Lemma loaded_numbers_integral_witness :
  ∃ config,
    loadConfig env_with_port initial = (Normal config, initial, [])
    ∧ integral (interval config)
    ∧ appPort config = Some (of_Z 3000)
    ∧ integral (of_Z 3000).
Proof.
  exists {| interval := of_Z 30000; schedulerSecret := "s3cret";
            appUrl := "http://localhost"; appPort := Some (of_Z 3000) |}.
  assert (Hload : loadConfig env_with_port initial
                  = (Normal {| interval := of_Z 30000; schedulerSecret := "s3cret";
                               appUrl := "http://localhost";
                               appPort := Some (of_Z 3000) |},
                     initial, []))
    by (vm_compute; reflexivity).
  split; [exact Hload|].
  destruct (proj1 (loaded_numbers_integral env_with_port) _ _ _ _ Hload)
    as [Hi Hp].
  split; [exact Hi|]. split; [reflexivity|].
  apply Hp. reflexivity.
Defined.

End ServiceFacts.

(** ** The [LocalScheduler] class over whole runs, and what its methods report *)
Module ClassFacts.
Import JS Effects Multi Samples Accounting Cases EffectsFacts MultiFacts.


Lemma ticks_begun_app (t1 t2 : list event) :
  ticks_begun (t1 ++ t2) = (ticks_begun t1 + ticks_begun t2)%nat.
Proof. unfold ticks_begun. rewrite List.filter_app, length_app. reflexivity. Qed.

Lemma reports_facts (t : list event) :
  forallb is_report t = true →
  http_calls t = [] ∧ ticks_begun t = 0%nat ∧ Forall (λ e, ∀ d, e ≠ SetInterval d) t.
Proof.
  induction t as [|e t IH]; cbn [forallb]; intros H.
  - repeat split. constructor.
  - apply andb_prop in H as [He Ht]. destruct (IH Ht) as (H1 & H2 & H3).
    destruct e as [u h b|l m|d]; try discriminate.
    split; [exact H1|]. split.
    + unfold ticks_begun in *. cbn [List.filter is_check].
      destruct l, m; try discriminate; exact H2.
    + constructor; [discriminate | exact H3].
Qed.

Section Reports.
Context {S : Type} {engine : Engine}.

Lemma reports_ret {A} (a : A) : reports_only (mret a : M S A).
Proof. intros s. exists (Normal a), []. repeat split; discriminate. Qed.

Lemma reports_throw {A} (e : js_error) : reports_only (mthrow e : M S A).
Proof. intros s. exists (Throw e), []. repeat split; discriminate. Qed.

Lemma reports_console (l : level) (m : message) :
  is_report (Console l m) = true → reports_only (console l m : M S ()).
Proof.
  intros H s. exists (Normal ()), [Console l m]. split; [reflexivity|].
  split; [cbn [forallb]; rewrite H; reflexivity | discriminate].
Qed.

Lemma reports_await {A} (p : settled A) : reports_only (await p : M S A).
Proof. destruct p; [apply reports_ret | apply reports_throw]. Qed.

Lemma reports_bind {A B} (m : M S A) (f : A → M S B) :
  reports_only m → (∀ a, reports_only (f a)) → reports_only (m ≫= f).
Proof.
  intros Hm Hf s. destruct (Hm s) as (c & t & Em & Hq & Hx).
  unfold mbind, M_bind. rewrite Em. destruct c as [a|e|code].
  - destruct (Hf a s) as (c' & t' & Ef & Hq' & Hx'). rewrite Ef.
    exists c', (t ++ t'). split; [reflexivity|]. split; [|exact Hx'].
    rewrite forallb_app, Hq, Hq'. reflexivity.
  - exists (Throw e), t. repeat split; [exact Hq | discriminate].
  - exfalso. exact (Hx code eq_refl).
Qed.

Lemma reports_get_prop (v : value) (k : string) :
  reports_only (get_prop v k : M S value).
Proof. destruct v as [[]|]; first [apply reports_ret | apply reports_throw]. Qed.

Lemma reports_get_prop_opt (v : value) (k : string) :
  reports_only (get_prop_opt v k : M S value).
Proof. destruct v as [[]|]; first [apply reports_ret | apply reports_get_prop]. Qed.

Lemma reports_forEach (f : json → M S ()) (items : list json) :
  (∀ x, reports_only (f x)) → reports_only (forEach f items).
Proof.
  intros Hf. induction items as [|x items IH]; cbn [forEach].
  - apply reports_ret.
  - apply reports_bind; [apply Hf | intros _; exact IH].
Qed.

End Reports.

Ltac reports_step :=
  lazymatch goal with
  | |- reports_only (_ ≫= _) => apply reports_bind; [|intros ?]
  | |- reports_only (mret _) => apply reports_ret
  | |- reports_only (mthrow _) => apply reports_throw
  | |- reports_only (console _ _) => apply reports_console; reflexivity
  | |- reports_only (await _) => apply reports_await
  | |- reports_only (get_prop _ _) => apply reports_get_prop
  | |- reports_only (get_prop_opt _ _) => apply reports_get_prop_opt
  | |- reports_only (if ?b then _ else _) => destruct b
  | |- reports_only (match ?x with _ => _ end) => destruct x
  end.


Lemma intervals_armed_all (t : list event) (x : number) :
  Forall (λ e, ∀ d, e = SetInterval d → d = x) t →
  Forall (eq x) (intervals_armed t).
Proof.
  induction 1 as [|e t He _ IH]; [constructor|].
  unfold intervals_armed in *. cbn [omap list_omap].
  destruct e as [u h b|l m|d]; cbn; try exact IH.
  constructor; [symmetry; apply He; reflexivity | exact IH].
Qed.

Section Loop.
Variable coerced_gt_zero : json → bool.
Context {engine : Engine}.

Lemma reports_report_item {S} (ep : endpoint) (result : json) :
  reports_only (report_item ep result : M S ()).
Proof. unfold report_item. repeat reports_step. Qed.

Lemma reports_process_response {S} (ep : endpoint) (r : response) :
  reports_only (process_response coerced_gt_zero ep r : M S ()).
Proof.
  unfold process_response. repeat reports_step.
  apply reports_forEach. intros x. apply reports_report_item.
Qed.

Lemma resume_reports {S} (ep : endpoint) (net : fetch_result) (s : S) :
  ∃ t, resume coerced_gt_zero ep net s = (Normal (), s, t)
       ∧ forallb is_report t = true.
Proof.
  assert (H : reports_only (response ← await net ;
                            process_response coerced_gt_zero ep response : M S ())).
  { apply reports_bind; [apply reports_await|].
    intros r. apply reports_process_response. }
  destruct (H s) as (c & t & E & Hr & Hx).
  unfold resume, try_catch. rewrite E. destruct c as [[]|e|code].
  - exists t. split; [reflexivity | exact Hr].
  - exists (t ++ [Console Error (MsgFailedToTrigger ep e)]).
    split; [reflexivity|]. rewrite forallb_app, Hr. reflexivity.
  - exfalso. exact (Hx code eq_refl).
Qed.

Lemma settle_reports (i : nat) (net : fetch_result) (rt : runtime) (ep : endpoint) :
  pending rt !! i = Some ep →
  ∃ t, forallb is_report t = true
       ∧ settle coerced_gt_zero i net rt
         = (Normal (),
            set_pending (match next_endpoint ep with
                         | Some ep' => <[ i := ep' ]> (pending rt)
                         | None => delete i (pending rt)
                         end) rt,
            t ++ match next_endpoint ep with
                 | Some ep' => [post (config (this rt)) ep']
                 | None => []
                 end).
Proof.
  intros H. destruct (resume_reports ep net rt) as (t & Hres & Hq).
  exists t. split; [exact Hq|].
  unfold settle. run_M. rewrite H, Hres.
  destruct ep; cbn; rewrite ?app_nil_r; reflexivity.
Qed.

(** What one action does to the requests sent, the requests owed and
    the timers armed. *)
Lemma perform_accounts (a : action) (rt : runtime) :
  ∃ rt' t,
    perform coerced_gt_zero a rt = (Normal (), rt', t)
    ∧ config (this rt') = config (this rt)
    ∧ Forall (λ e, ∃ ep, e = post (config (this rt)) ep) (http_calls t)
    ∧ (length (http_calls t) + owed (pending rt')
       = owed (pending rt) + 3 * ticks_begun t)%nat
    ∧ (length (pending rt') ≤ length (pending rt) + ticks_begun t)%nat
    ∧ Forall (λ e, ∀ d, e = SetInterval d → d = checkInterval (config (this rt))) t.
Proof.
  destruct a as [| |id|i net]; cbn [perform].
  - destruct (running (this rt)) eqn:Hr.
    + rewrite (start_running rt Hr). eexists _, _. split; [reflexivity|].
      split; [reflexivity|]. split; [constructor|]. split; [cbn; lia|].
      split; [cbn; lia|]. repeat constructor; discriminate.
    + rewrite (start_stopped rt Hr). eexists _, _. split; [reflexivity|].
      split; [reflexivity|]. cbn [pending this config].
      split; [repeat constructor; eexists; reflexivity|].
      split; [|split].
      * cbn. clear. induction (pending rt); simpl in *; lia.
      * rewrite length_app. cbn. lia.
      * repeat constructor; try discriminate. intros d [= <-]. reflexivity.
  - destruct (running (this rt)) eqn:Hr.
    + rewrite (stop_running rt Hr). eexists _, _. split; [reflexivity|].
      split; [reflexivity|]. split; [constructor|]. split; [cbn; lia|].
      split; [cbn; lia|]. repeat constructor; discriminate.
    + rewrite (stop_stopped rt Hr). eexists _, _. split; [reflexivity|].
      split; [reflexivity|]. split; [constructor|]. split; [cbn; lia|].
      split; [cbn; lia|]. repeat constructor; discriminate.
  - rewrite fire_eq. destruct (decide _).
    + rewrite begin_tick_eq. eexists _, _. split; [reflexivity|].
      split; [reflexivity|].
      split; [repeat constructor; eexists; reflexivity|].
      split; [|split].
      * cbn. clear. induction (pending rt); simpl in *; lia.
      * cbn [set_pending pending]. rewrite length_app. cbn. lia.
      * repeat constructor; discriminate.
    + eexists _, _. split; [reflexivity|]. split; [reflexivity|].
      split; [constructor|]. split; [cbn; lia|]. split; [cbn; lia|]. constructor.
  - destruct (pending rt !! i) as [ep|] eqn:Hp.
    + destruct (settle_reports i net rt ep Hp) as (t & Hq & ->).
      destruct (reports_facts t Hq) as (Hh & Hk & Hs).
      eexists _, _. split; [reflexivity|]. split; [reflexivity|].
      rewrite http_calls_app, ticks_begun_app, Hh, Hk.
      cbn [app set_pending pending].
      assert (Hs' : Forall (λ e, ∀ d, e = SetInterval d
                                      → d = checkInterval (config (this rt))) t).
      { eapply Forall_impl; [exact Hs|]. intros e He d ->. destruct (He d eq_refl). }
      destruct ep; cbn [next_endpoint http_calls List.filter is_http post length].
      * split; [repeat constructor; eexists; reflexivity|].
        pose proof (owed_insert _ _ _ Cleanups Hp).
        rewrite length_insert. cbn in *. split; [lia|]. split; [lia|].
        apply Forall_app. split; [exact Hs'|]. repeat constructor; discriminate.
      * split; [repeat constructor; eexists; reflexivity|].
        pose proof (owed_insert _ _ _ Outputs Hp).
        rewrite length_insert. cbn in *. split; [lia|]. split; [lia|].
        apply Forall_app. split; [exact Hs'|]. repeat constructor; discriminate.
      * split; [constructor|].
        pose proof (owed_delete _ _ _ Hp).
        pose proof (length_delete (pending rt) i (mk_is_Some _ _ Hp)).
        cbn in *. split; [lia|]. split; [lia|].
        rewrite app_nil_r. exact Hs'.
    + rewrite (settle_absent coerced_gt_zero i net rt Hp).
      eexists _, _. split; [reflexivity|]. split; [reflexivity|].
      split; [constructor|]. split; [cbn; lia|]. split; [cbn; lia|]. constructor.
Qed.

Lemma run_accounts (l : list action) :
  ∀ rt, ∃ rt' t,
    run coerced_gt_zero l rt = (Normal (), rt', t)
    ∧ config (this rt') = config (this rt)
    ∧ Forall (λ e, ∃ ep, e = post (config (this rt)) ep) (http_calls t)
    ∧ (length (http_calls t) + owed (pending rt')
       = owed (pending rt) + 3 * ticks_begun t)%nat
    ∧ (length (pending rt') ≤ length (pending rt) + ticks_begun t)%nat
    ∧ Forall (λ e, ∀ d, e = SetInterval d → d = checkInterval (config (this rt))) t.
Proof.
  induction l as [|a l IH]; intros rt; cbn [run].
  - exists rt, []. split; [reflexivity|]. split; [reflexivity|].
    split; [constructor|]. split; [cbn; lia|]. split; [cbn; lia|]. constructor.
  - destruct (perform_accounts a rt) as (rt1 & t1 & E1 & C1 & F1 & N1 & L1 & S1).
    destruct (IH rt1) as (rt2 & t2 & E2 & C2 & F2 & N2 & L2 & S2).
    run_M. rewrite E1, E2. eexists _, _. split; [reflexivity|].
    rewrite C1 in *. split; [exact C2|].
    rewrite http_calls_app, ticks_begun_app, length_app.
    split; [apply Forall_app; split; assumption|].
    split; [lia|]. split; [lia|]. apply Forall_app; split; assumption.
Qed.


(** X9: whatever is done to a scheduler object (calls of [start] and
    [stop], timers firing, requests settling, in any order), every
    request it sends is a POST without a body to the configured base
    URL followed by one of the three trigger paths, with the same
    headers every time; with the configuration read from the
    environment the base is [SYMPOSIUM_URL] or [http://localhost:80],
    and an [Authorization: Bearer] header is sent exactly when
    [AUTH_TOKEN] is set and not empty. *)
Theorem every_request_configured (l : list action) :
  (∀ c : SchedulerConfig, ∃ rt t,
      run coerced_gt_zero l (construct c) = (Normal (), rt, t)
      ∧ config (this rt) = c
      ∧ Forall (λ e, ∃ ep, e = HttpPost (symposiumUrl c +:+ path ep)
                                 (headers_of c) None)
               (http_calls t))
  ∧ (∀ env : gmap string string, ∃ rt t,
      run coerced_gt_zero l (construct (loadConfig env)) = (Normal (), rt, t)
      ∧ Forall (λ e, ∃ ep,
                  e = HttpPost
                        (or_string (env !! "SYMPOSIUM_URL") "http://localhost:80"
                         +:+ path ep)
                        (match env !! "AUTH_TOKEN" with
                         | Some token =>
                             if truthy_string token
                             then [("Authorization", "Bearer " +:+ token)]
                             else []
                         | None => []
                         end)
                        None)
               (http_calls t)).
Proof.
  split.
  - intros c.
    destruct (run_accounts l (construct c))
      as (rt & t & E & C & F & _).
    exists rt, t. split; [exact E|]. split; [exact C|]. exact F.
  - intros env.
    destruct (run_accounts l (construct (loadConfig env)))
      as (rt & t & E & C & F & _).
    exists rt, t. split; [exact E|]. exact F.
Qed.

(** X10: every tick that begins accounts for exactly three requests.
    After any sequence of actions on a new scheduler, the requests sent
    plus the requests that the ticks in flight have still to send are
    three times the ticks begun, and no more ticks are in flight than
    were begun. *)
Theorem every_tick_sends_or_owes_three (c : SchedulerConfig) (l : list action) :
  ∃ rt t,
    run coerced_gt_zero l (construct c) = (Normal (), rt, t)
    ∧ (length (http_calls t) + owed (pending rt) = 3 * ticks_begun t)%nat
    ∧ (length (pending rt) ≤ ticks_begun t)%nat.
Proof.
  destruct (run_accounts l (construct c))
    as (rt & t & E & _ & _ & N & L & _).
  exists rt, t. split; [exact E|]. cbn in N, L. split; lia.
Qed.

(** X11: after any sequence of actions on a new scheduler exactly one
    interval timer is set while it is running and none while it is
    stopped (a second [start()] does not arm a second timer), the timer
    set is the one whose handle the object holds, and every timer was
    armed with the configured check interval. *)
Theorem at_most_one_timer (c : SchedulerConfig) (l : list action) :
  ∃ rt t,
    run coerced_gt_zero l (construct c) = (Normal (), rt, t)
    ∧ size (timers rt) = (if running (this rt) then 1 else 0)%nat
    ∧ timers rt = from_option singleton ∅ (intervalId (this rt))
    ∧ Forall (eq (checkInterval c)) (intervals_armed t).
Proof.
  destruct (run_accounts l (construct c))
    as (rt & t & E & _ & _ & _ & _ & HS).
  destruct (run_consistent coerced_gt_zero l (construct c) (construct_consistent c))
    as (rt' & t' & E' & Hc).
  rewrite E in E'. injection E' as <- <-.
  exists rt, t. split; [exact E|].
  unfold consistent in Hc.
  destruct (intervalId (this rt)) as [id|]; destruct Hc as [-> ->]; cbn.
  - split; [apply size_singleton|]. split; [reflexivity|].
    apply intervals_armed_all. exact HS.
  - split; [apply size_empty|]. split; [reflexivity|].
    apply intervals_armed_all. exact HS.
Qed.

Lemma fires_overlap (c : SchedulerConfig) (n : nat) :
  ∀ l, ∃ t,
    run coerced_gt_zero (repeat (TimerFires 0) n) (in_flight c l)
    = (Normal (), in_flight c (l ++ repeat Queries n), t)
    ∧ http_calls t = repeat (post c Queries) n.
Proof.
  induction n as [|n IH]; intros l; cbn [repeat run].
  - exists []. rewrite app_nil_r. split; reflexivity.
  - destruct (IH (l ++ [Queries])) as (t & E & H).
    run_M. cbn [perform]. rewrite fire_eq.
    destruct (decide _) as [_|Hn]; [|exfalso; apply Hn; cbn; set_solver].
    rewrite begin_tick_eq.
    change (set_pending (pending (in_flight c l) ++ [Queries]) (in_flight c l))
      with (in_flight c (l ++ [Queries])).
    rewrite E. rewrite <- app_assoc. eexists. split; [reflexivity|].
    cbn [app]. rewrite http_calls_console.
    change (post (config (this (in_flight c l))) Queries :: t)
      with (post c Queries :: t).
    unfold post at 1. rewrite http_calls_post. rewrite H. reflexivity.
Qed.

(** X12: ticks overlap when responses are slow.  A timer firing
    begins a tick whether or not earlier ticks have finished: after
    [start()] and [n] firings with no response yet, [n + 1] ticks are in
    flight and [n + 1] queries requests have been sent. *)
Theorem slow_responses_overlap (c : SchedulerConfig) (n : nat) :
  ∃ t,
    run coerced_gt_zero (CallStart :: repeat (TimerFires 0) n) (construct c)
    = (Normal (), in_flight c (repeat Queries (S n)), t)
    ∧ http_calls t = repeat (post c Queries) (S n).
Proof.
  destruct (fires_overlap c n [Queries]) as (t & E & H).
  cbn [run perform]. run_M.
  rewrite (start_stopped (construct c) eq_refl).
  change {| this := {| config := config (this (construct c)); running := true;
                       intervalId := Some (next_timer (construct c)) |};
            timers := {[ next_timer (construct c) ]} ∪ timers (construct c);
            next_timer := S (next_timer (construct c));
            pending := pending (construct c) ++ [Queries] |}
    with {| this := {| config := c; running := true; intervalId := Some 0%nat |};
            timers := {[ 0%nat ]} ∪ ∅; next_timer := 1; pending := [Queries] |}.
  rewrite (union_empty_r_L (C := gset nat)).
  change {| this := {| config := c; running := true; intervalId := Some 0%nat |};
            timers := {[ 0%nat ]}; next_timer := 1; pending := [Queries] |}
    with (in_flight c [Queries]).
  rewrite E. eexists. split; [reflexivity|].
  cbn [app config this construct].
  rewrite !http_calls_console. unfold post at 1. rewrite http_calls_post.
  change (SetInterval (checkInterval c) :: t) with ([SetInterval (checkInterval c)] ++ t).
  rewrite http_calls_app, H. reflexivity.
Qed.


End Loop.

Section Outcomes.
Variable coerced_gt_zero : json → bool.
Context {S : Type} {engine : Engine}.

Lemma get_prop_of (x : json) (k : string) (s : S) :
  x ≠ JNull → get_prop (Some x) k s = (Normal (prop_of x k), s, []).
Proof. intros H. destruct x; try reflexivity. congruence. Qed.

Lemma report_item_lines (ep : endpoint) (x : json) (s : S) :
  x ≠ JNull → report_item ep x s = (Normal (), s, item_lines ep x).
Proof.
  intros H. unfold report_item, item_lines.
  destruct x as [|b|n|str|items|fields]; [congruence|..];
    cbn [get_prop prop_of]; destruct (counter_field ep) as [f|];
    cbn [get_prop]; run_M;
    try reflexivity;
    (destruct (own_property "error" fields) as [e|]; [|reflexivity]);
    destruct (truthy (Some e)); reflexivity.
Qed.

Lemma report_item_null (ep : endpoint) (s : S) :
  report_item ep JNull s = (Throw (cannot_read (Some JNull) "success"), s, []).
Proof. reflexivity. Qed.

Lemma forEach_lines (ep : endpoint) (items : list json) (s : S) :
  Forall (λ x, x ≠ JNull) items →
  forEach (report_item ep) items s
  = (Normal (), s, concat (map (item_lines ep) items)).
Proof.
  induction 1 as [|x items Hx _ IH]; [reflexivity|].
  cbn [forEach map concat]. unfold mbind, M_bind.
  rewrite (report_item_lines ep x s Hx), IH. reflexivity.
Qed.

Lemma forEach_null (ep : endpoint) (items rest : list json) (s : S) :
  Forall (λ x, x ≠ JNull) items →
  forEach (report_item ep) (items ++ JNull :: rest) s
  = (Throw (cannot_read (Some JNull) "success"), s,
     concat (map (item_lines ep) items)).
Proof.
  induction 1 as [|x items Hx _ IH]; [reflexivity|].
  cbn [forEach map concat app]. unfold mbind, M_bind.
  rewrite (report_item_lines ep x s Hx), IH. reflexivity.
Qed.

(** The body of the [try] block for an answer that parsed to an object. *)
Lemma process_object (ep : endpoint) (r : response)
    (fields : list (string * json)) (s : S) :
  ok r = true → json_body r = Fulfilled (JObj fields) →
  process_response coerced_gt_zero ep r s
  = if truthy (own_property "success" fields) then
      if gt_zero coerced_gt_zero (executed_count fields) then
        let '(c, s', t) :=
          (if truthy (results_of fields) then
             match results_of fields with
             | Some (JArr items) => forEach (report_item ep) items
             | _ => mthrow (not_a_function "data.data.results.forEach")
             end
           else mret ()) s in
        (c, s', Console Log (MsgExecuted ep (executed_count fields)) :: t)
      else (Normal (), s, [Console Log (MsgNothingDue ep)])
    else (Normal (), s,
          [Console Error
             (MsgEnvelopeError ep
                (if truthy (own_property "error" fields)
                 then own_property "error" fields else None))]).
Proof.
  intros Hok Hb. unfold process_response. rewrite Hok, Hb. cbn [negb].
  unfold executed_count, results_of. run_M. cbn [get_prop].
  run_M.
  destruct (truthy (own_property "success" fields)); [|reflexivity].
  destruct (own_property "data" fields) as [[|b|x|x|x|inner]|];
    cbn [get_prop get_prop_opt]; run_M;
    try (change (truthy None) with false; cbv iota;
         replace (gt_zero coerced_gt_zero (JNum (of_Z 0))) with false
           by (vm_compute; reflexivity);
         reflexivity).
  destruct (gt_zero coerced_gt_zero _); [|reflexivity].
  cbn [app].
  destruct (truthy (own_property "results" inner)); [|reflexivity].
  destruct (own_property "results" inner) as [[]|]; try reflexivity.
  destruct (forEach _ _ s) as [[? ?] ?]. reflexivity.
Qed.


Lemma trigger_fulfilled (ep : endpoint) (c : SchedulerConfig) (r : response) (s : S) :
  trigger coerced_gt_zero ep c (Fulfilled r) s
  = match process_response coerced_gt_zero ep r s with
    | (Throw e, s', t) =>
        (Normal (), s', post c ep :: t ++ [Console Error (MsgFailedToTrigger ep e)])
    | (res, s', t) => (res, s', post c ep :: t)
    end.
Proof.
  unfold trigger, report_failure, post. run_M.
  destruct (process_response coerced_gt_zero ep r s) as [[[[]|e|code] s'] t];
    reflexivity.
Qed.

(** X13: a trigger method reports a failed request and returns.  A
    request that fails in transport is reported as a failure to
    trigger, with the error's message; a non-2xx response is reported
    with its status line and its body is not read; a 2xx response whose
    body does not parse is reported as a failure to trigger with the
    parser's message, and one whose body parses to [null] with the
    message the engine gives for reading [success] of [null].  In each
    case exactly one request was made and one line written to the
    error stream. *)
Theorem request_failures_reported (ep : endpoint) (c : SchedulerConfig) (s : S) :
  (∀ e, trigger coerced_gt_zero ep c (Rejected e) s
        = (Normal (), s, [post c ep; Console Error (MsgFailedToTrigger ep e)]))
  ∧ (∀ r, ok r = false →
          trigger coerced_gt_zero ep c (Fulfilled r) s
          = (Normal (), s,
             [post c ep;
              Console Error (MsgHttpError ep (status r) (statusText r))]))
  ∧ (∀ r e, ok r = true → json_body r = Rejected e →
            trigger coerced_gt_zero ep c (Fulfilled r) s
            = (Normal (), s,
               [post c ep; Console Error (MsgFailedToTrigger ep e)]))
  ∧ (∀ r, ok r = true → json_body r = Fulfilled JNull →
          trigger coerced_gt_zero ep c (Fulfilled r) s
          = (Normal (), s,
             [post c ep;
              Console Error
                (MsgFailedToTrigger ep (cannot_read (Some JNull) "success"))])).
Proof.
  split; [|split; [|split]].
  - intros e. reflexivity.
  - intros r Hok. rewrite trigger_fulfilled. unfold process_response.
    rewrite Hok. reflexivity.
  - intros r e Hok Hb. rewrite trigger_fulfilled. unfold process_response.
    rewrite Hok, Hb. reflexivity.
  - intros r Hok Hb. rewrite trigger_fulfilled. unfold process_response.
    rewrite Hok, Hb. reflexivity.
Qed.

(** X14: for a 2xx response whose body parses to an object, a falsy
    [success] field is reported as an error with the body's [error]
    field ([None] stands for the text used when that field is falsy);
    with a truthy [success], an executed count that is not above zero,
    and in particular a missing [data] field, is reported as nothing
    due. *)
Theorem envelope_outcomes (ep : endpoint) (c : SchedulerConfig) (r : response)
    (fields : list (string * json)) (s : S) :
  ok r = true → json_body r = Fulfilled (JObj fields) →
  (truthy (own_property "success" fields) = false →
   trigger coerced_gt_zero ep c (Fulfilled r) s
   = (Normal (), s,
      [post c ep;
       Console Error
         (MsgEnvelopeError ep
            (if truthy (own_property "error" fields)
             then own_property "error" fields else None))]))
  ∧ (truthy (own_property "success" fields) = true →
     gt_zero coerced_gt_zero (executed_count fields) = false →
     trigger coerced_gt_zero ep c (Fulfilled r) s
     = (Normal (), s, [post c ep; Console Log (MsgNothingDue ep)]))
  ∧ (truthy (own_property "success" fields) = true →
     own_property "data" fields = None →
     trigger coerced_gt_zero ep c (Fulfilled r) s
     = (Normal (), s, [post c ep; Console Log (MsgNothingDue ep)])).
Proof.
  intros Hok Hb. rewrite trigger_fulfilled, (process_object ep r fields s Hok Hb).
  split; [|split].
  - intros ->. reflexivity.
  - intros -> ->. reflexivity.
  - intros -> Hd. unfold executed_count. rewrite Hd. reflexivity.
Qed.

(** X15: for a 2xx response reporting executions (truthy [success],
    executed count above zero) the count is reported first; then every
    item of [results] gets its line, followed by an error line when its
    [error] field is truthy, in the order of the array.  An item that
    is [null] ends the listing with a failure report carrying the
    message the engine gives for reading [success] of [null], and the
    items after it are not listed; a falsy [results] lists nothing; a
    truthy [results] that is not an array gives a failure report
    carrying the engine's message for calling
    [data.data.results.forEach], which is not a function. *)
Theorem executed_items_listed (ep : endpoint) (c : SchedulerConfig) (r : response)
    (fields : list (string * json)) (s : S) :
  ok r = true → json_body r = Fulfilled (JObj fields) →
  truthy (own_property "success" fields) = true →
  gt_zero coerced_gt_zero (executed_count fields) = true →
  (∀ items, results_of fields = Some (JArr items) →
            Forall (λ x, x ≠ JNull) items →
            trigger coerced_gt_zero ep c (Fulfilled r) s
            = (Normal (), s,
               post c ep :: Console Log (MsgExecuted ep (executed_count fields))
               :: concat (map (item_lines ep) items)))
  ∧ (∀ items rest, results_of fields = Some (JArr (items ++ JNull :: rest)) →
                   Forall (λ x, x ≠ JNull) items →
                   trigger coerced_gt_zero ep c (Fulfilled r) s
                   = (Normal (), s,
                      post c ep
                      :: Console Log (MsgExecuted ep (executed_count fields))
                      :: concat (map (item_lines ep) items)
                      ++ [Console Error
                            (MsgFailedToTrigger ep
                               (cannot_read (Some JNull) "success"))]))
  ∧ (truthy (results_of fields) = false →
     trigger coerced_gt_zero ep c (Fulfilled r) s
     = (Normal (), s,
        [post c ep; Console Log (MsgExecuted ep (executed_count fields))]))
  ∧ (truthy (results_of fields) = true →
     (∀ items, results_of fields ≠ Some (JArr items)) →
     trigger coerced_gt_zero ep c (Fulfilled r) s
     = (Normal (), s,
        [post c ep; Console Log (MsgExecuted ep (executed_count fields));
         Console Error
           (MsgFailedToTrigger ep
              (not_a_function "data.data.results.forEach"))])).
Proof.
  intros Hok Hb Hs Hg.
  rewrite trigger_fulfilled, (process_object ep r fields s Hok Hb), Hs, Hg.
  split; [|split; [|split]].
  - intros items -> Hi. cbn [truthy]. rewrite (forEach_lines ep items s Hi).
    reflexivity.
  - intros items rest -> Hi. cbn [truthy].
    rewrite (forEach_null ep items rest s Hi). reflexivity.
  - intros ->. reflexivity.
  - intros -> Hn. destruct (results_of fields) as [[| | | |items|]|];
      try reflexivity.
    destruct (Hn items eq_refl).
Qed.


End Outcomes.

#[local] Existing Instance v8.

Lemma request_failures_reported_witness :
  trigger never_positive Queries multi_default (Fulfilled response_500) ()
  = (Normal (), (),
     [post multi_default Queries;
      Console Error (MsgHttpError Queries 500 "Internal Server Error")])
  ∧ trigger never_positive Queries multi_default (Fulfilled response_200_not_json) ()
    = (Normal (), (),
       [post multi_default Queries;
        Console Error (MsgFailedToTrigger Queries "SyntaxError: Unexpected token")])
  ∧ trigger never_positive Queries multi_default (Fulfilled (answer JNull)) ()
    = (Normal (), (),
       [post multi_default Queries;
        Console Error
          (MsgFailedToTrigger Queries
             "Cannot read properties of null (reading 'success')")]).
Proof.
  destruct (request_failures_reported never_positive Queries multi_default ())
    as (_ & Hstatus & Hbody & Hnull).
  split; [apply Hstatus; reflexivity|].
  split; [apply Hbody; reflexivity|].
  apply Hnull; reflexivity.
Defined.

Lemma envelope_outcomes_witness :
  trigger never_positive Cleanups multi_default
    (Fulfilled (answer (JObj envelope_unauthorized))) ()
  = (Normal (), (),
     [post multi_default Cleanups;
      Console Error (MsgEnvelopeError Cleanups (Some (JStr "unauthorized")))])
  ∧ trigger never_positive Cleanups multi_default
      (Fulfilled (answer (JObj (executed 0 (JArr []))))) ()
    = (Normal (), (),
       [post multi_default Cleanups; Console Log (MsgNothingDue Cleanups)])
  ∧ trigger never_positive Cleanups multi_default
      (Fulfilled (answer (JObj [("success", JBool true)]))) ()
    = (Normal (), (),
       [post multi_default Cleanups; Console Log (MsgNothingDue Cleanups)]).
Proof.
  split; [|split].
  - apply (proj1 (envelope_outcomes never_positive Cleanups multi_default
                    (answer (JObj envelope_unauthorized)) envelope_unauthorized ()
                    eq_refl eq_refl)).
    reflexivity.
  - apply (proj1 (proj2 (envelope_outcomes never_positive Cleanups multi_default
                           (answer (JObj (executed 0 (JArr []))))
                           (executed 0 (JArr [])) () eq_refl eq_refl)));
      reflexivity.
  - apply (proj2 (proj2 (envelope_outcomes never_positive Cleanups multi_default
                           (answer (JObj [("success", JBool true)]))
                           [("success", JBool true)] () eq_refl eq_refl)));
      reflexivity.
Defined.

Lemma executed_items_listed_witness :
  trigger never_positive Queries multi_default
    (Fulfilled (answer (JObj (executed 2 (JArr [item_done; item_failed]))))) ()
  = (Normal (), (),
     [post multi_default Queries;
      Console Log (MsgExecuted Queries (JNum (of_Z 2)));
      Console Log (MsgItem Queries true (Some (JStr "daily")) (Some (JStr "q1")) None);
      Console Log (MsgItem Queries false (Some (JStr "weekly")) (Some (JStr "q2"))
                     None);
      Console Log (MsgItemError (JStr "timeout"))])
  ∧ trigger never_positive Queries multi_default
      (Fulfilled (answer (JObj (executed 2 (JArr [item_done; JNull; item_failed])))))
      ()
    = (Normal (), (),
       [post multi_default Queries;
        Console Log (MsgExecuted Queries (JNum (of_Z 2)));
        Console Log (MsgItem Queries true (Some (JStr "daily")) (Some (JStr "q1"))
                       None);
        Console Error
          (MsgFailedToTrigger Queries
             "Cannot read properties of null (reading 'success')")])
  ∧ trigger never_positive Queries multi_default
      (Fulfilled (answer (JObj (executed 2 JNull)))) ()
    = (Normal (), (),
       [post multi_default Queries;
        Console Log (MsgExecuted Queries (JNum (of_Z 2)))])
  ∧ trigger never_positive Queries multi_default
      (Fulfilled (answer (JObj (executed 2 (JStr "none"))))) ()
    = (Normal (), (),
       [post multi_default Queries;
        Console Log (MsgExecuted Queries (JNum (of_Z 2)));
        Console Error
          (MsgFailedToTrigger Queries
             "data.data.results.forEach is not a function")]).
Proof.
  split; [|split; [|split]].
  - apply (proj1 (executed_items_listed never_positive Queries multi_default
                    (answer (JObj (executed 2 (JArr [item_done; item_failed]))))
                    (executed 2 (JArr [item_done; item_failed])) ()
                    eq_refl eq_refl eq_refl eq_refl) [item_done; item_failed]);
      [reflexivity | repeat constructor; discriminate].
  - refine (proj1 (proj2 (executed_items_listed never_positive Queries multi_default
                            (answer (JObj (executed 2
                                             (JArr [item_done; JNull; item_failed]))))
                            (executed 2 (JArr [item_done; JNull; item_failed])) ()
                            eq_refl eq_refl eq_refl eq_refl))
              [item_done] [item_failed] _ _);
      [reflexivity | repeat constructor; discriminate].
  - apply (proj1 (proj2 (proj2
             (executed_items_listed never_positive Queries multi_default
                (answer (JObj (executed 2 JNull))) (executed 2 JNull) ()
                eq_refl eq_refl eq_refl eq_refl)))).
    reflexivity.
  - refine (proj2 (proj2 (proj2
              (executed_items_listed never_positive Queries multi_default
                 (answer (JObj (executed 2 (JStr "none"))))
                 (executed 2 (JStr "none")) ()
                 eq_refl eq_refl eq_refl eq_refl))) _ _);
      [reflexivity | intros items; discriminate].
Defined.

End ClassFacts.
